(** * RADAR: the perturbation-and-recovery transform engine

    A shallow embedding of
      - [radar/data/perturb.py]        ([OverwriteCell], [TableDeltaSpec],
                                        [apply_transform_spec]),
      - [radar/data/transform_spec.py] ([generate_transform_spec_delete_overwrite]),
      - [radar/utils.py]               ([convert_dict_of_lists_to_list_of_dicts]),
      - [radar/data/datamodel.py]      ([DataTable], [TaskInstance.model_post_init]),
    together with the parts of Python, pandas, pydantic and difflib these
    functions call.  Definitions come first, one Rocq module per Python
    module; the properties follow. *)

From Stdlib Require Import ZArith List String Ascii DecimalString Lia Permutation.
From stdpp Require Import base option list list_numbers strings gmap.

Local Open Scope Z_scope.

(** ** Exceptions *)

Inductive exn : Type :=
| IndexError
| KeyError
| ValueError
| AttributeError
| ValidationError
| ParserError.

Inductive result (A : Type) : Type :=
| Ok (a : A)
| Raise (e : exn).
Arguments Ok {A} a.
Arguments Raise {A} e.

#[global] Instance result_ret : MRet result := fun _ a => Ok a.
#[global] Instance result_bind : MBind result := fun _ _ f m =>
  match m with
  | Ok a => f a
  | Raise e => Raise e
  end.

(** [for x in xs: body], threading the loop-carried variables [acc]. *)
Fixpoint for_each {A S : Type} (xs : list A) (acc : S)
    (body : S -> A -> result S) : result S :=
  match xs with
  | [] => Ok acc
  | x :: xs' => acc' ← body acc x; for_each xs' acc' body
  end.

(** ** Python built-ins *)

Module py.

(** [str.isspace] on the ASCII range: TAB, LF, VT, FF, CR, FS, GS, RS, US
    and SPACE. *)
Definition isspace (c : ascii) : bool :=
  let n := nat_of_ascii c in
  (Nat.leb 9 n && Nat.leb n 13) || (Nat.leb 28 n && Nat.leb n 32).

(** The ASCII line boundaries of [str.splitlines]: LF, VT, FF, CR, FS, GS
    and RS. *)
Definition is_linebreak (c : ascii) : bool :=
  let n := nat_of_ascii c in
  (Nat.leb 10 n && Nat.leb n 13) || (Nat.leb 28 n && Nat.leb n 30).

Fixpoint lstrip_chars (s : list ascii) : list ascii :=
  match s with
  | [] => []
  | c :: s' => if isspace c then lstrip_chars s' else s
  end.

(** [s.strip()] *)
Definition strip (s : string) : string :=
  string_of_list_ascii
    (rev (lstrip_chars (rev (lstrip_chars (list_ascii_of_string s))))).

(** [cur] is the line being read, last character first. *)
Fixpoint splitlines_from (cur : list ascii) (s : list ascii) : list string :=
  match s with
  | [] =>
      match cur with
      | [] => []
      | _ => [string_of_list_ascii (rev cur)]
      end
  | c :: s' =>
      if is_linebreak c then
        string_of_list_ascii (rev cur) ::
          match s' with
          | c' :: s'' =>
              if (Nat.eqb (nat_of_ascii c) 13 && Nat.eqb (nat_of_ascii c') 10)%bool
              then splitlines_from [] s''
              else splitlines_from [] s'
          | [] => splitlines_from [] s'
          end
      else splitlines_from (c :: cur) s'
  end.

(** [s.splitlines()] *)
Definition splitlines (s : string) : list string :=
  splitlines_from [] (list_ascii_of_string s).

Fixpoint split_from (sep : ascii) (cur : list ascii) (s : list ascii)
    : list string :=
  match s with
  | [] => [string_of_list_ascii (rev cur)]
  | c :: s' =>
      if Ascii.eqb c sep
      then string_of_list_ascii (rev cur) :: split_from sep [] s'
      else split_from sep (c :: cur) s'
  end.

(** [s.split(sep)] for a one-character separator *)
Definition split (sep : ascii) (s : string) : list string :=
  split_from sep [] (list_ascii_of_string s).

(** [xs[i]] for [0 <= i] *)
Definition getitem {A : Type} (xs : list A) (i : nat) : result A :=
  match xs !! i with
  | Some x => Ok x
  | None => Raise IndexError
  end.

(** [xs[1:]] *)
Definition tail_from_1 {A : Type} (xs : list A) : list A := drop 1 xs.

Fixpoint insert_desc (x : Z) (l : list Z) : list Z :=
  match l with
  | [] => [x]
  | y :: l' => if y <? x then x :: l else y :: insert_desc x l'
  end.

(** [sorted(xs, reverse=True)] on integers *)
Definition sorted_reverse (xs : list Z) : list Z := foldr insert_desc [] xs.

(** [range(lo, hi)] on naturals *)
Definition range (lo hi : nat) : list nat := seq lo (hi - lo).

End py.

(** ** pandas: the [DataFrame] operations the engine calls *)

Module pd.

(** The scalars a cell or an [OverwriteCell.new_value] holds.  [VNone] is
    the missing-value marker ([None] and [NaN] alike).  Float payloads are
    left out: the engine never looks inside a value except through
    [isna], [!=] on parsed text, and text rendering. *)
Inductive value : Type :=
| VNone
| VStr (s : string)
| VInt (z : Z)
| VBool (b : bool).

(** [pd.isna(v)] on a scalar *)
Definition isna (v : value) : bool :=
  match v with
  | VNone => true
  | _ => false
  end.

(** [v1 != v2] on scalars; a [NaN] differs from everything. *)
Definition ne (v1 v2 : value) : bool :=
  match v1, v2 with
  | VStr a, VStr b => negb (String.eqb a b)
  | VInt a, VInt b => negb (a =? b)
  | VBool a, VBool b => negb (Bool.eqb a b)
  | VInt a, VBool b | VBool b, VInt a => negb (a =? (if b then 1 else 0))
  | _, _ => true
  end.

(** A frame: column labels, and the rows in positional order, each with its
    index label. *)
Record DataFrame : Type := {
  columns : list string;
  rows : list (Z * list value);
}.

(** [len(df)] *)
Definition len (df : DataFrame) : Z := Z.of_nat (length (rows df)).

(** Rows labelled [0, 1, ..., n-1] (the default [RangeIndex]). *)
Definition RangeIndex (cells : list (list value)) : list (Z * list value) :=
  zip (seqZ 0 (Z.of_nat (length cells))) cells.

Definition cells (df : DataFrame) : list (list value) := (rows df).*2.

Definition has_label (r : Z) (df : DataFrame) : bool :=
  existsb (fun rw => fst rw =? r) (rows df).

Definition has_column (c : string) (df : DataFrame) : bool :=
  existsb (String.eqb c) (columns df).

(** Enlargement by one row labelled [r], all cells missing. *)
Definition add_row (r : Z) (df : DataFrame) : DataFrame :=
  {| columns := columns df;
     rows := rows df ++ [(r, replicate (length (columns df)) VNone)] |}.

(** Enlargement by one column labelled [c], all cells missing. *)
Definition add_column (c : string) (df : DataFrame) : DataFrame :=
  {| columns := columns df ++ [c];
     rows := map (fun rw => (fst rw, snd rw ++ [VNone])) (rows df) |}.

Fixpoint set_in_row (cols : list string) (cs : list value)
    (c : string) (v : value) : list value :=
  match cols, cs with
  | h :: cols', x :: cs' =>
      (if String.eqb h c then v else x) :: set_in_row cols' cs' c v
  | _, _ => cs
  end.

Definition set_cells (r : Z) (c : string) (v : value) (df : DataFrame)
    : DataFrame :=
  {| columns := columns df;
     rows := map (fun rw =>
                    if fst rw =? r
                    then (fst rw, set_in_row (columns df) (snd rw) c v)
                    else rw) (rows df) |}.

(** [df.loc[r, c] = v] with scalar keys.  [.loc] addresses by label, and
    setting a label that does not exist enlarges the frame: a missing row
    label appends a row, a missing column label appends a column, the new
    cells being missing; then every cell labelled [(r, c)] receives [v]. *)
Definition loc_setitem (df : DataFrame) (r : Z) (c : string) (v : value)
    : DataFrame :=
  let df1 := if has_label r df then df else add_row r df in
  let df2 := if has_column c df1 then df1 else add_column c df1 in
  set_cells r c v df2.

(** The position a slice bound [k] denotes in a sequence of length [n]:
    negative bounds count from the end, and bounds are clipped. *)
Definition slice_bound (n : nat) (k : Z) : nat :=
  if k <? 0 then Z.to_nat (Z.max 0 (Z.of_nat n + k))
  else Z.to_nat (Z.min k (Z.of_nat n)).

(** [df.iloc[:stop]] *)
Definition iloc_to (df : DataFrame) (stop : Z) : DataFrame :=
  {| columns := columns df;
     rows := take (slice_bound (length (rows df)) stop) (rows df) |}.

(** [df.iloc[start:]] *)
Definition iloc_from (df : DataFrame) (start : Z) : DataFrame :=
  {| columns := columns df;
     rows := drop (slice_bound (length (rows df)) start) (rows df) |}.

(** [pd.concat([a, b])] for two frames over the same columns. *)
Definition concat (a b : DataFrame) : DataFrame :=
  {| columns := columns a; rows := rows a ++ rows b |}.

(** [df.reset_index(drop=True)] *)
Definition reset_index_drop (df : DataFrame) : DataFrame :=
  {| columns := columns df; rows := RangeIndex (cells df) |}.

(** A row filled up with missing cells to the width [w]. *)
Definition pad_to (w : nat) (cs : list value) : list value :=
  cs ++ replicate (w - length cs) VNone.

(** [pd.DataFrame(data, columns=headers)] for a list of rows of strings:
    ragged rows are padded with missing cells to the longest row, and a
    width different from [len(headers)] is refused. *)
Definition DataFrame_of_rows (data : list (list string))
    (headers : list string) : result DataFrame :=
  let width := foldr Nat.max 0%nat (map (@length string) data) in
  match data with
  | [] => Ok {| columns := headers; rows := [] |}
  | _ =>
      if Nat.eqb width (length headers)
      then Ok {| columns := headers;
                 rows := RangeIndex
                           (map (fun r => pad_to width (map VStr r)) data) |}
      else Raise ValueError
  end.

(** A labelled row ([Series]) and [series[label]]: the value under the
    label, or, when several entries bear the label, the sub-series of
    their values. *)
Definition Series : Type := list (string * value).

Inductive selection : Type :=
| Scalar (v : value)
| SubSeries (vs : list value).

Definition series_getitem (s : Series) (label : string) : result selection :=
  match filter (fun e => String.eqb (fst e) label = true) s with
  | [] => Raise KeyError
  | [e] => Ok (Scalar (snd e))
  | es => Ok (SubSeries es.*2)
  end.

(** [df.iloc[0]] *)
Definition iloc0 (df : DataFrame) : result Series :=
  match rows df with
  | [] => Raise IndexError
  | rw :: _ => Ok (zip (columns df) (snd rw))
  end.

(** [str(v)], the text [astype(str)] gives a cell.  A missing cell reads
    nan or None according to what it holds, which the value model does
    not tell apart: its text is the parameter [missing]. *)
Definition str_of (missing : string) (v : value) : string :=
  match v with
  | VNone => missing
  | VStr s => s
  | VInt z => NilZero.string_of_int (Z.to_int z)
  | VBool true => "True"
  | VBool false => "False"
  end.

(** [df.astype(str)] *)
Definition astype_str (missing : string) (df : DataFrame) : DataFrame :=
  {| columns := columns df;
     rows := map (fun rw => (rw.1, map (fun v => VStr (str_of missing v)) rw.2))
               (rows df) |}.

(** [df.values.tolist()] *)
Definition values_tolist (df : DataFrame) : list (list value) := cells df.

(** [df.round(4)]: the value model holds no float, and rounding leaves
    every other cell as it is. *)
Definition round_ (decimals : Z) (df : DataFrame) : DataFrame := df.

End pd.

(** ** radar/data/perturb.py *)

Module perturb.
Import pd.

Record OverwriteCell : Type := {
  row : Z;
  col : string;
  new_value : value;
}.

Record TableDeltaSpec : Type := {
  drop_rows : list Z;
  overwrite_cells : list OverwriteCell;
}.

(** *** pydantic construction of a [TableDeltaSpec] from keyword arguments *)

(** The Python objects that reach the constructor: an integer, an
    [OverwriteCell] (or a mapping that validates as one), a list of
    objects, or anything else. *)
#[warnings="-register-all"]
Inductive pyobj : Type :=
| PInt (z : Z)
| PCell (c : OverwriteCell)
| PList (xs : list pyobj)
| POther.

Definition as_int (o : pyobj) : result Z :=
  match o with
  | PInt z => Ok z
  | _ => Raise ValidationError
  end.

Definition as_cell (o : pyobj) : result OverwriteCell :=
  match o with
  | PCell c => Ok c
  | _ => Raise ValidationError
  end.

Definition as_list {A : Type} (item : pyobj -> result A) (o : pyobj)
    : result (list A) :=
  match o with
  | PList xs => mapM item xs
  | _ => Raise ValidationError
  end.

(** Keyword arguments, by name. *)
Definition kwargs : Type := list (string * pyobj).

Fixpoint kwarg (name : string) (kw : kwargs) : option pyobj :=
  match kw with
  | [] => None
  | (k, o) :: kw' => if String.eqb k name then Some o else kwarg name kw'
  end.

(** A declared field takes the keyword of its own name, validated, or its
    default when the keyword is absent. *)
Definition field {A : Type} (name : string) (validate : pyobj -> result A)
    (default : A) (kw : kwargs) : result A :=
  match kwarg name kw with
  | Some o => validate o
  | None => Ok default
  end.

(** The call of [TableDeltaSpec] on the keyword arguments [kw].  The
    model declares no [model_config], so pydantic's default
    [extra="ignore"] applies: a keyword that names no declared field is
    dropped without complaint. *)
Definition TableDeltaSpec_init (kw : kwargs) : result TableDeltaSpec :=
  d ← field "drop_rows" (as_list as_int) [] kw;
  o ← field "overwrite_cells" (as_list as_cell) [] kw;
  Ok {| drop_rows := d; overwrite_cells := o |}.

(** [spec.model_dump()]: the fields by name, the overwrites as mappings
    that validate as the overwrites they came from. *)
Definition model_dump (spec : TableDeltaSpec) : kwargs :=
  [ ("drop_rows"%string, PList (map PInt (drop_rows spec)));
    ("overwrite_cells"%string, PList (map PCell (overwrite_cells spec))) ].

(** *** Frames as objects

    [apply_transform_spec] receives a reference to the caller's frame,
    assigns into a frame in place and rebinds a local name to new frames;
    the store makes that sharing explicit.  Following a name that is bound
    to no frame fails as attribute access on a non-frame does. *)

Abbreviation ref := nat (only parsing).
Abbreviation heap := (list DataFrame) (only parsing).
Definition M (A : Type) : Type := heap -> result (A * heap).

#[global] Instance M_ret : MRet M := fun _ a σ => Ok (a, σ).
#[global] Instance M_bind : MBind M := fun _ _ k m σ =>
  match m σ with
  | Ok (a, σ') => k a σ'
  | Raise e => Raise e
  end.

Definition new (df : DataFrame) : M ref :=
  fun σ => Ok (length σ, σ ++ [df]).

Definition get (r : ref) : M DataFrame :=
  fun σ => match σ !! r with
           | Some df => Ok (df, σ)
           | None => Raise AttributeError
           end.

Definition put (r : ref) (df : DataFrame) : M unit :=
  fun σ => match σ !! r with
           | Some _ => Ok (tt, <[r := df]> σ)
           | None => Raise AttributeError
           end.

(** The frame a name is bound to, once a computation is over. *)
Definition deref (σ : heap) (r : ref) : result DataFrame :=
  match σ !! r with
  | Some df => Ok df
  | None => Raise AttributeError
  end.

(** [df.copy(deep=True)] *)
Definition copy_deep (r : ref) : M ref := df ← get r; new df.

(** [len(df)] *)
Definition len (r : ref) : M Z := df ← get r; mret (pd.len df).

(** [df.loc[rw, c] = v]: assignment inside the object [r] *)
Definition loc_setitem (r : ref) (rw : Z) (c : string) (v : value) : M unit :=
  df ← get r; put r (pd.loc_setitem df rw c v).

(** [df.iloc[:stop]], [df.iloc[start:]], [pd.concat([a, b])] and
    [df.reset_index(drop=True)] each build a new object. *)
Definition iloc_to (r : ref) (stop : Z) : M ref :=
  df ← get r; new (pd.iloc_to df stop).

Definition iloc_from (r : ref) (start : Z) : M ref :=
  df ← get r; new (pd.iloc_from df start).

Definition concat (a b : ref) : M ref :=
  dfa ← get a; dfb ← get b; new (pd.concat dfa dfb).

Definition reset_index_drop (r : ref) : M ref :=
  df ← get r; new (pd.reset_index_drop df).

(** [for x in xs: body] inside the store, threading the rebound locals. *)
Fixpoint for_in {A S : Type} (xs : list A) (acc : S) (body : S -> A -> M S)
    : M S :=
  match xs with
  | [] => mret acc
  | x :: xs' => acc' ← body acc x; for_in xs' acc' body
  end.

Definition apply_transform_spec (df : ref) (spec : TableDeltaSpec) : M ref :=
  (* Create a copy to avoid modifying the original *)
  df_recovered ← copy_deep df;
  (* Apply overwrite operations *)
  _ ← for_in (overwrite_cells spec) tt (fun _ overwrite_op =>
        n ← len df_recovered;
        if row overwrite_op <? n
        then loc_setitem df_recovered (row overwrite_op) (col overwrite_op)
               (new_value overwrite_op)
        else mret tt);
  (* Sort delete operations by index in reverse order *)
  let delete_rows := py.sorted_reverse (drop_rows spec) in
  (* Apply delete operations *)
  for_in delete_rows df_recovered (fun df_recovered delete_op =>
    n ← len df_recovered;
    if delete_op <? n
    then
      upper ← iloc_to df_recovered delete_op;
      lower ← iloc_from df_recovered (delete_op + 1);
      joined ← concat upper lower;
      reset_index_drop joined
    else mret df_recovered).

(** What a caller holding the frame [df] gets back: the call run in a
    store that holds [df] alone, and the returned object read off. *)
Definition applied (df : DataFrame) (spec : TableDeltaSpec)
    : result DataFrame :=
  match apply_transform_spec 0%nat spec [df] with
  | Ok (r, σ) => deref σ r
  | Raise e => Raise e
  end.

End perturb.

(** ** difflib: [SequenceMatcher(None, a, b)] on lines

    [isjunk] is [None] and [autojunk] keeps its default [True].  Indices are
    the non-negative Python integers the matcher computes with. *)

Module difflib.

Abbreviation Match := (nat * nat * nat)%type (only parsing).
Abbreviation region := (nat * nat * nat * nat)%type (only parsing).

Inductive tag : Type :=
| tag_replace
| tag_delete
| tag_insert
| tag_equal.

Abbreviation opcode := (tag * nat * nat * nat * nat)%type (only parsing).

(** [x == y] for two list elements that both exist *)
Definition same (x y : option string) : bool :=
  match x, y with
  | Some s, Some t => String.eqb s t
  | _, _ => false
  end.

Section matcher.
Variables a b : list string.

(** *** [__chain_b] *)

(** [for i, elt in enumerate(b): b2j.setdefault(elt, []).append(i)] *)
Definition b2j_full : gmap string (list nat) :=
  fold_left (fun m ie => <[ie.2 := default [] (m !! ie.2) ++ [ie.1]]> m)
    (imap pair b) ∅.

(** No [isjunk] was given, so nothing is junk. *)
Definition bjunk : gset string := ∅.

Definition isbjunk (x : option string) : bool :=
  match x with
  | Some s => bool_decide (s ∈ bjunk)
  | None => false
  end.

(** With at least 200 elements, the elements that occur more than
    [n // 100 + 1] times are popular and leave [b2j]. *)
Definition b2j : gmap string (list nat) :=
  let n := length b in
  if Nat.leb 200 n
  then let ntest := (n / 100 + 1)%nat in
       filter (fun kv => (length kv.2 ≤ ntest)%nat) b2j_full
  else b2j_full.

(** *** [find_longest_match] *)

(** [j2len.get(j - 1, 0)]; for [j = 0] the key [-1] is never present. *)
Definition j2lenget_pred (j2len : gmap nat nat) (j : nat) : nat :=
  match j with
  | O => 0%nat
  | S j' => default 0%nat (j2len !! j')
  end.

(** The inner loop [for j in b2j.get(a[i], nothing)], with its
    [continue] and [break]; [i - k + 1] is computed as [i + 1 - k]
    because [k <= i + 1]. *)
Fixpoint scan_row (js : list nat) (i blo bhi : nat)
    (j2len newj2len : gmap nat nat) (best : Match)
    : gmap nat nat * Match :=
  match js with
  | [] => (newj2len, best)
  | j :: js' =>
      if Nat.ltb j blo then scan_row js' i blo bhi j2len newj2len best
      else if Nat.leb bhi j then (newj2len, best)
      else
        let k := (j2lenget_pred j2len j + 1)%nat in
        let newj2len := <[j := k]> newj2len in
        let best :=
          if Nat.ltb best.2 k
          then ((i + 1 - k)%nat, (j + 1 - k)%nat, k)
          else best in
        scan_row js' i blo bhi j2len newj2len best
  end.

(** The outer loop [for i in range(alo, ahi)]. *)
Fixpoint scan_rows (rng : list nat) (blo bhi : nat)
    (j2len : gmap nat nat) (best : Match) : Match :=
  match rng with
  | [] => best
  | i :: rng' =>
      let js := default [] (a !! i ≫= fun elt => b2j !! elt) in
      let '(newj2len, best) := scan_row js i blo bhi j2len ∅ best in
      scan_rows rng' blo bhi newj2len best
  end.

(** [while besti > alo and bestj > blo and isbjunk(b[bestj-1]) == junk
    and a[besti-1] == b[bestj-1]]: the backward extension, over
    non-junk elements ([junk = false]) and then over junk ones. *)
Fixpoint extend_back (junk : bool) (alo blo besti bestj bestsize : nat)
    {struct besti} : Match :=
  match besti, bestj with
  | S i', S j' =>
      if Nat.ltb alo besti && Nat.ltb blo bestj
         && Bool.eqb (isbjunk (b !! j')) junk
         && same (a !! i') (b !! j')
      then extend_back junk alo blo i' j' (S bestsize)
      else (besti, bestj, bestsize)
  | _, _ => (besti, bestj, bestsize)
  end.

(** [while besti+bestsize < ahi and bestj+bestsize < bhi and ...]: the
    forward extension.  It runs at most [ahi - (besti + bestsize)]
    times, which is the [fuel] it is called with. *)
Fixpoint extend_forward (fuel : nat) (junk : bool)
    (ahi bhi besti bestj bestsize : nat) : nat :=
  match fuel with
  | O => bestsize
  | S fuel' =>
      if Nat.ltb (besti + bestsize) ahi && Nat.ltb (bestj + bestsize) bhi
         && Bool.eqb (isbjunk (b !! (bestj + bestsize)%nat)) junk
         && same (a !! (besti + bestsize)%nat) (b !! (bestj + bestsize)%nat)
      then extend_forward fuel' junk ahi bhi besti bestj (S bestsize)
      else bestsize
  end.

Definition extend (junk : bool) (alo ahi blo bhi : nat) (m : Match)
    : Match :=
  let '(besti, bestj, bestsize) := m in
  let '(besti, bestj, bestsize) :=
    extend_back junk alo blo besti bestj bestsize in
  (besti, bestj,
   extend_forward (ahi - (besti + bestsize)) junk ahi bhi
     besti bestj bestsize).

Definition find_longest_match (alo ahi blo bhi : nat) : Match :=
  let best := scan_rows (py.range alo ahi) blo bhi ∅ (alo, blo, 0%nat) in
  extend true alo ahi blo bhi (extend false alo ahi blo bhi best).

(** *** [get_matching_blocks] *)

(** [while queue:].  The head of [queue] is the entry [queue.pop()]
    takes.  One turn takes a region of [a] away, or splits it in smaller
    ones, so [fuel] bounds the number of turns; the regions still queued
    are returned with the blocks ([get_matching_blocks_completes]: none
    is). *)
Fixpoint blocks_loop (fuel : nat) (queue : list region)
    (matching_blocks : list Match) : list region * list Match :=
  match fuel, queue with
  | _, [] => ([], matching_blocks)
  | O, _ => (queue, matching_blocks)
  | S fuel', (alo, ahi, blo, bhi) :: queue =>
      let x := find_longest_match alo ahi blo bhi in
      let '(i, j, k) := x in
      if Nat.eqb k 0 then blocks_loop fuel' queue matching_blocks
      else
        let matching_blocks := matching_blocks ++ [x] in
        let queue :=
          if Nat.ltb alo i && Nat.ltb blo j
          then (alo, i, blo, j) :: queue else queue in
        let queue :=
          if Nat.ltb (i + k) ahi && Nat.ltb (j + k) bhi
          then ((i + k)%nat, ahi, (j + k)%nat, bhi) :: queue else queue in
        blocks_loop fuel' queue matching_blocks
  end.

(** Tuple order, as [list.sort] uses it. *)
Definition match_ltb (x y : Match) : bool :=
  let '(i1, j1, k1) := x in
  let '(i2, j2, k2) := y in
  Nat.ltb i1 i2
  || (Nat.eqb i1 i2 && (Nat.ltb j1 j2 || (Nat.eqb j1 j2 && Nat.ltb k1 k2))).

Fixpoint insert_sorted (x : Match) (l : list Match) : list Match :=
  match l with
  | [] => [x]
  | y :: l' => if match_ltb y x then y :: insert_sorted x l' else x :: l
  end.

(** [matching_blocks.sort()] *)
Definition sort_blocks (l : list Match) : list Match :=
  foldr insert_sorted [] l.

(** The loop that collapses adjacent blocks; [cur] is [(i1, j1, k1)]. *)
Fixpoint collapse (blocks : list Match) (cur : Match)
    (non_adjacent : list Match) : list Match :=
  let '(i1, j1, k1) := cur in
  match blocks with
  | [] =>
      if Nat.eqb k1 0 then non_adjacent else non_adjacent ++ [cur]
  | (i2, j2, k2) :: blocks' =>
      if Nat.eqb (i1 + k1) i2 && Nat.eqb (j1 + k1) j2
      then collapse blocks' (i1, j1, (k1 + k2)%nat) non_adjacent
      else
        collapse blocks' (i2, j2, k2)
          (if Nat.eqb k1 0 then non_adjacent else non_adjacent ++ [cur])
  end.

Definition get_matching_blocks : list Match :=
  let la := length a in
  let lb := length b in
  let matching_blocks :=
    (blocks_loop (2 * la + 1) [(0%nat, la, 0%nat, lb)] []).2 in
  let matching_blocks := sort_blocks matching_blocks in
  collapse matching_blocks (0%nat, 0%nat, 0%nat) [] ++ [(la, lb, 0%nat)].

(** *** [get_opcodes] *)

Fixpoint opcodes_from (blocks : list Match) (i j : nat)
    (answer : list opcode) : list opcode :=
  match blocks with
  | [] => answer
  | (ai, bj, size) :: blocks' =>
      let answer :=
        if Nat.ltb i ai && Nat.ltb j bj
        then answer ++ [(tag_replace, i, ai, j, bj)]
        else if Nat.ltb i ai then answer ++ [(tag_delete, i, ai, j, bj)]
        else if Nat.ltb j bj then answer ++ [(tag_insert, i, ai, j, bj)]
        else answer in
      let i := (ai + size)%nat in
      let j := (bj + size)%nat in
      let answer :=
        if Nat.eqb size 0 then answer
        else answer ++ [(tag_equal, ai, i, bj, j)] in
      opcodes_from blocks' i j answer
  end.

Definition get_opcodes : list opcode :=
  opcodes_from get_matching_blocks 0%nat 0%nat [].

End matcher.

End difflib.

(** ** pandas: CSV text

    [df.to_csv(index=False)] and [pd.read_csv(io.StringIO(text), dtype=str)]
    on plain tables.  The engine's own code is stated over any pair of such
    functions (section [io] of [transform_spec]); these two are the
    instances the concrete scenarios run on.  Not covered: the renaming of
    repeated or empty header names on reading, and the rendering of an
    integer column that holds a missing value. *)

Module pd_io.
Import pd.

Definition LF : ascii := "010"%char.
Definition CR : ascii := "013"%char.
Definition DQUOTE : ascii := "034"%char.
Definition COMMA : ascii := ","%char.

Definition join (sep : string) (xs : list string) : string :=
  match xs with
  | [] => EmptyString
  | x :: xs' => fold_left (fun acc y => acc +:+ sep +:+ y) xs' x
  end.

(** Minimal quoting: a field is quoted when it holds the delimiter, the
    quote character or a line end; quote characters inside are doubled. *)
Definition needs_quote (s : string) : bool :=
  existsb (fun c => Ascii.eqb c COMMA || Ascii.eqb c DQUOTE
                    || Ascii.eqb c LF || Ascii.eqb c CR)
    (list_ascii_of_string s).

Definition double_quotes (s : string) : string :=
  string_of_list_ascii
    (flat_map (fun c => if Ascii.eqb c DQUOTE then [c; c] else [c])
       (list_ascii_of_string s)).

Definition write_field (s : string) : string :=
  if needs_quote s
  then String DQUOTE (double_quotes s) +:+ String DQUOTE EmptyString
  else s.

(** A record whose only field is empty is written as a quoted empty
    field. *)
Definition write_row (fields : list string) : string :=
  match fields with
  | [EmptyString] => String DQUOTE (String DQUOTE (String LF EmptyString))
  | _ => join (String COMMA EmptyString) (map write_field fields)
         +:+ String LF EmptyString
  end.

(** The text of a cell; a missing value is an empty field. *)
Definition render (v : value) : string :=
  match v with
  | VNone => EmptyString
  | VStr s => s
  | VInt z => NilZero.string_of_int (Z.to_int z)
  | VBool true => "True"
  | VBool false => "False"
  end.

Definition to_csv (df : DataFrame) : string :=
  fold_left String.append
    (map (fun cs => write_row (map render cs)) (cells df))
    (write_row (columns df)).

(** The texts read as a missing value. *)
Definition na_values : list string :=
  [ EmptyString; "#N/A"; "#N/A N/A"; "#NA"; "-1.#IND"; "-1.#QNAN"; "-NaN"; "-nan";
    "1.#IND"; "1.#QNAN"; "<NA>"; "N/A"; "NA"; "NULL"; "NaN"; "None";
    "n/a"; "nan"; "null" ]%string.

Definition parse_value (s : string) : value :=
  if existsb (String.eqb s) na_values then VNone else VStr s.

Inductive tokenizer_state : Type :=
| StartField
| InField
| InQuoted
| QuoteInQuoted.

Definition field_of (fld : list ascii) : string :=
  string_of_list_ascii (rev fld).

(** Splits the text in records of fields.  [fld] is the field being read
    (last character first), [rcd] the fields of the record being read
    (last field first), [rcds] the finished records (last one first).
    Blank lines are skipped; a text that ends inside quotes is refused. *)
Fixpoint tokenize (st : tokenizer_state) (fld : list ascii)
    (rcd : list string) (rcds : list (list string)) (s : list ascii)
    : result (list (list string)) :=
  match s with
  | [] =>
      match st, rcd with
      | InQuoted, _ => Raise ParserError
      | StartField, [] => Ok (rev rcds)
      | _, _ => Ok (rev (rev (field_of fld :: rcd) :: rcds))
      end
  | c :: s' =>
      let plain :=
        if Ascii.eqb c COMMA
        then tokenize StartField [] (field_of fld :: rcd) rcds s'
        else if Ascii.eqb c LF || Ascii.eqb c CR
        then match st, rcd with
             | StartField, [] => tokenize StartField [] [] rcds s'
             | _, _ => tokenize StartField [] []
                         (rev (field_of fld :: rcd) :: rcds) s'
             end
        else tokenize InField (c :: fld) rcd rcds s' in
      match st with
      | InQuoted =>
          if Ascii.eqb c DQUOTE
          then tokenize QuoteInQuoted fld rcd rcds s'
          else tokenize InQuoted (c :: fld) rcd rcds s'
      | QuoteInQuoted =>
          if Ascii.eqb c DQUOTE
          then tokenize InQuoted (c :: fld) rcd rcds s'
          else plain
      | StartField =>
          if Ascii.eqb c DQUOTE
          then tokenize InQuoted fld rcd rcds s'
          else plain
      | InField => plain
      end
  end.

(** A data record against [ncols] header names, after the [nindex]
    leading fields that serve as the index: longer is refused, shorter is
    filled with missing values. *)
Definition read_record (ncols nindex : nat) (fields : list string)
    : result (list value) :=
  let data := drop nindex fields in
  if Nat.ltb ncols (length data) then Raise ParserError
  else Ok (pad_to ncols (map parse_value data)).

(** The first column name starts with a character that is not white
    space. *)
Definition visible_header (df : DataFrame) : Prop :=
  exists (c : ascii) (name : string) (more : list string),
    columns df = String c name :: more /\ py.isspace c = false.

(** The first record is the header.  When the first data record is longer
    than the header, its leading fields are taken as the index. *)
Definition read_csv (text : string) : result DataFrame :=
  rcds ← tokenize StartField [] [] [] (list_ascii_of_string text);
  match rcds with
  | [] => Raise ValueError
  | header :: data =>
      let ncols := length header in
      let nindex :=
        match data with
        | [] => 0%nat
        | first :: _ => (length first - ncols)%nat
        end in
      rws ← mapM (read_record ncols nindex) data;
      Ok {| columns := header; rows := RangeIndex rws |}
  end.

End pd_io.

(** ** radar/data/transform_spec.py *)

Module transform_spec.
Import pd perturb.

Section io.
(** [df.to_csv(index=False)] *)
Variable to_csv : DataFrame -> string.
(** [pd.read_csv(io.StringIO(text), dtype=str)] *)
Variable read_csv : string -> result DataFrame.

(** [df.to_csv(index=False).strip().splitlines()] *)
Definition str_lines (df : DataFrame) : list string :=
  py.splitlines (py.strip (to_csv df)).

(** [pd.read_csv(io.StringIO(f"{header}\n{line}"), dtype=str).iloc[0]] *)
Definition read_row (header line : string) : result Series :=
  df ← read_csv (header +:+ String pd_io.LF line);
  iloc0 df.

(** The body of [for col in columns].  The two tests take the truth
    value of what they compute, which a sub-series refuses. *)
Definition compare_cell (i : nat) (row1 row2 : Series)
    (overwrite_cells : list OverwriteCell) (c : string)
    : result (list OverwriteCell) :=
  val1 ← series_getitem row1 c;
  val2 ← series_getitem row2 c;
  match val1, val2 with
  | Scalar val1, Scalar val2 =>
      if isna val1 && isna val2 then Ok overwrite_cells
      else if ne val1 val2
      then Ok (overwrite_cells ++
                 [{| row := Z.of_nat i; col := c;
                     new_value := if isna val2 then VNone else val2 |}])
      else Ok overwrite_cells
  | _, _ => Raise ValueError
  end.

(** The body of [for offset in range(min(i2 - i1, j2 - j1))]. *)
Definition compare_rows (df_str_lines df_recovered_str_lines : list string)
    (header : string) (columns : list string) (i1 j1 : nat)
    (overwrite_cells : list OverwriteCell) (offset : nat)
    : result (list OverwriteCell) :=
  let i := (i1 + offset)%nat in
  line1 ← py.getitem df_str_lines (i + 1);
  line2 ← py.getitem df_recovered_str_lines (j1 + offset + 1);
  row1 ← read_row header line1;
  row2 ← read_row header line2;
  for_each columns overwrite_cells (compare_cell i row1 row2).

(** The body of [for tag, i1, i2, j1, j2 in sm.get_opcodes()], on the
    two lists the loop appends to. *)
Definition visit_opcode (df_str_lines df_recovered_str_lines : list string)
    (header : string) (columns : list string)
    (acc : list Z * list OverwriteCell) (op : difflib.opcode)
    : result (list Z * list OverwriteCell) :=
  let '(delete_rows, overwrite_cells) := acc in
  let '(tg, i1, i2, j1, j2) := op in
  match tg with
  | difflib.tag_equal => Ok acc
  | difflib.tag_delete =>
      Ok (delete_rows ++ map Z.of_nat (py.range i1 i2), overwrite_cells)
  | difflib.tag_replace =>
      overwrite_cells ←
        for_each (py.range 0 (Nat.min (i2 - i1) (j2 - j1))) overwrite_cells
          (compare_rows df_str_lines df_recovered_str_lines header
             columns i1 j1);
      let delete_rows :=
        if Nat.ltb (j2 - j1) (i2 - i1)
        then delete_rows ++ map Z.of_nat (py.range (i1 + (j2 - j1)) i2)
        else delete_rows in
      Ok (delete_rows, overwrite_cells)
  | difflib.tag_insert => Ok acc
  end.

(** The function up to its [return]: the lists [delete_rows] and
    [overwrite_cells] as the loop leaves them. *)
Definition delete_rows_and_overwrite_cells (df df_recovered : DataFrame)
    : result (list Z * list OverwriteCell) :=
  let df_str_lines := str_lines df in
  let df_recovered_str_lines := str_lines df_recovered in
  header ← py.getitem df_str_lines 0;
  let columns := py.split pd_io.COMMA header in
  let opcodes :=
    difflib.get_opcodes (py.tail_from_1 df_str_lines)
      (py.tail_from_1 df_recovered_str_lines) in
  for_each opcodes ([], [])
    (visit_opcode df_str_lines df_recovered_str_lines header columns).

(** Where an emitted overwrite comes from: source line [i] and a target
    line [j], read back under the header, hold at its column two values
    that are not both missing and that differ; the overwrite carries
    the target's. *)
Definition compared_and_different
    (df_str_lines df_recovered_str_lines : list string) (header : string)
    (ow : OverwriteCell) : Prop :=
  exists (i j : nat) (line1 line2 : string) (row1 row2 : Series)
         (val1 val2 : value),
    row ow = Z.of_nat i
    /\ df_str_lines !! (i + 1)%nat = Some line1
    /\ df_recovered_str_lines !! (j + 1)%nat = Some line2
    /\ read_row header line1 = Ok row1
    /\ read_row header line2 = Ok row2
    /\ series_getitem row1 (col ow) = Ok (Scalar val1)
    /\ series_getitem row2 (col ow) = Ok (Scalar val2)
    /\ (isna val1 && isna val2) = false
    /\ ne val1 val2 = true
    /\ new_value ow = (if isna val2 then VNone else val2).

Definition generate_transform_spec_delete_overwrite
    (df df_recovered : DataFrame) : result TableDeltaSpec :=
  acc ← delete_rows_and_overwrite_cells df df_recovered;
  let '(delete_rows, overwrite_cells) := acc in
  TableDeltaSpec_init
    [ ("delete_rows"%string, PList (map PInt delete_rows));
      ("overwrite_cells"%string, PList (map PCell overwrite_cells)) ].

End io.

End transform_spec.

(** ** radar/utils.py *)

Module utils.

(** [d[key]] on a dict kept as its items in insertion order *)
Fixpoint dict_getitem {V : Type} (d : list (string * V)) (key : string)
    : result V :=
  match d with
  | [] => Raise KeyError
  | (k, v) :: d' => if String.eqb k key then Ok v else dict_getitem d' key
  end.

Definition convert_dict_of_lists_to_list_of_dicts {A : Type}
    (dict_of_lists : list (string * list A))
    : result (list (list (string * A))) :=
  match dict_of_lists with
  | [] => Ok []
  | (first_key, _) :: _ =>
      first ← dict_getitem dict_of_lists first_key;
      let num_items := length first in
      (* Verify all lists have the same length *)
      _ ← for_each dict_of_lists tt (fun _ kv =>
            if Nat.eqb (length kv.2) num_items then Ok tt
            else Raise ValueError);
      (* Create list of dictionaries *)
      mapM (fun i =>
              mapM (fun kv =>
                      values ← dict_getitem dict_of_lists kv.1;
                      x ← py.getitem values i;
                      Ok (kv.1, x))
                dict_of_lists)
        (py.range 0 num_items)
  end.

(** *** [format_bytes]

    After the first division [num_bytes] is a float.  Below 2^53 in
    absolute value the integer is a float exactly, and a division by
    1024 only lowers the exponent, so the float is the rational
    [num / den] with [den] a power of 1024; the fixed-point format
    rounds that exact value to the nearest multiple of 1/100, a tie to
    the even one. *)

(** The integer nearest to [a / d], for [0 < d]. *)
Definition round_half_even (a d : Z) : Z :=
  let f := a / d in
  let r := a mod d in
  if 2 * r <? d then f
  else if d <? 2 * r then f + 1
  else if Z.even f then f else f + 1.

(** [str(n)] *)
Definition str_int (n : Z) : string := NilZero.string_of_int (Z.to_int n).

(** [f"{x:.2f}"] for the float [x = num / den >= 0]. *)
Definition format_2f (num den : Z) : string :=
  let q := round_half_even (100 * num) den in
  let frac := q mod 100 in
  str_int (q / 100) +:+ "." +:+
  (if frac <? 10 then "0" +:+ str_int frac else str_int frac).

(** The loop [for unit in units], entered with [num_bytes = num / den]. *)
Fixpoint format_bytes_from (units : list string) (num den : Z) : string :=
  match units with
  | [] => format_2f num den +:+ " TB"
  | unit :: units' =>
      if num <? 1024 * den
      then if String.eqb unit "B"
           then str_int num +:+ " " +:+ unit
           else format_2f num den +:+ " " +:+ unit
      else format_bytes_from units' num (den * 1024)
  end.

Definition format_bytes (num_bytes : Z) : string :=
  format_bytes_from ["B"; "KB"; "MB"; "GB"; "TB"]%string num_bytes 1.

End utils.

(** ** radar/data/datamodel.py *)

Module datamodel.
Import pd perturb.

Record DataTable : Type := {
  headers : list string;
  rows : list (list string);
}.

(** [DataTable.to_df] *)
Definition to_df (t : DataTable) : result DataFrame :=
  DataFrame_of_rows (rows t) (headers t).

(** The field [recovered_tables_transform_spec]: a list of specs, or the
    dict of lists of the legacy shape. *)
Inductive transform_spec_field : Type :=
| SpecList (specs : list TableDeltaSpec)
| SpecDict (d : list (string * list pyobj)).

(** The first statement of [model_post_init]. *)
Definition normalize (f : transform_spec_field)
    : result (list TableDeltaSpec) :=
  match f with
  | SpecDict d =>
      dicts ← utils.convert_dict_of_lists_to_list_of_dicts d;
      mapM TableDeltaSpec_init dicts
  | SpecList specs => Ok specs
  end.

(** The loop over the specs: every call receives the same object
    [self._table_df]. *)
Definition recover_tables (table_df : ref) (specs : list TableDeltaSpec)
    : M (list ref) :=
  for_in specs [] (fun recovered_table_dfs spec =>
    df ← apply_transform_spec table_df spec;
    mret (recovered_table_dfs ++ [df])).

(** What [model_post_init] leaves in the instance. *)
Record materialized : Type := {
  recovered_tables_transform_spec : list TableDeltaSpec;
  table_df : DataFrame;
  recovered_table_dfs : list DataFrame;
}.

Definition model_post_init (table : DataTable) (f : transform_spec_field)
    : result materialized :=
  specs ← normalize f;
  df ← to_df table;
  dfs ← match recover_tables 0%nat specs [df] with
        | Ok (rs, σ) => mapM (deref σ) rs
        | Raise e => Raise e
        end;
  Ok {| recovered_tables_transform_spec := specs;
        table_df := df;
        recovered_table_dfs := dfs |}.

(** pydantic validation of a [str] field and of [DataTable(headers=...,
    rows=...)]: a cell that is not a string is refused. *)
Definition as_str (v : value) : result string :=
  match v with
  | VStr s => Ok s
  | _ => Raise ValidationError
  end.

Definition DataTable_init (hs : list string) (rws : list (list value))
    : result DataTable :=
  rws' ← mapM (mapM as_str) rws;
  Ok {| headers := hs; rows := rws' |}.

(** [DataTable.from_df] *)
Definition from_df (missing : string) (df : DataFrame) : result DataTable :=
  DataTable_init (columns df) (values_tolist (astype_str missing df)).

End datamodel.

(** ** radar/tasks/datamodel.py and radar/tasks/utils.py *)

Module tasks.
Import pd perturb.

Definition ArtifactType : list string :=
  [ "bad-values"; "inconsistent-formatting";
    "inconsistent-commonsense-logic"; "missingness"; "outliers";
    "clean" ]%string.

Definition ArtifactScope : list string :=
  [ "single-column"; "naive-multi-column"; "connected-multi-column";
    "clean" ]%string.

Record PerturbationReturn : Type := {
  table : datamodel.DataTable;
  recovered_tables : list DataFrame;
  recovered_delta_specs : list TableDeltaSpec;
  artifact_type : string;
  artifact_scope : string;
  artifact_reasoning_cols : list string;
  perturbation_note : option string;
}.

(** pydantic validation of the two [Literal] fields. *)
Definition PerturbationReturn_init (t : datamodel.DataTable)
    (tables : list DataFrame) (specs : list TableDeltaSpec)
    (a_type a_scope : string) (cols : list string) (note : option string)
    : result PerturbationReturn :=
  if existsb (String.eqb a_type) ArtifactType
     && existsb (String.eqb a_scope) ArtifactScope
  then Ok {| table := t; recovered_tables := tables;
             recovered_delta_specs := specs; artifact_type := a_type;
             artifact_scope := a_scope; artifact_reasoning_cols := cols;
             perturbation_note := note |}
  else Raise ValidationError.

Section io.
(** [df.to_csv(index=False)] *)
Variable to_csv : DataFrame -> string.
(** [pd.read_csv(io.StringIO(text), dtype=str)] *)
Variable read_csv : string -> result DataFrame.
(** The text of a missing cell under [astype(str)]. *)
Variable missing : string.

(** [create_perturbation_return]; [df_recovered] is one frame or a list
    of frames. *)
Definition create_perturbation_return (df_perturbed : DataFrame)
    (df_recovered : DataFrame + list DataFrame)
    (a_type a_scope : string) (cols : list string) (note : option string)
    : result PerturbationReturn :=
  let df_perturbed := astype_str missing (round_ 4 df_perturbed) in
  t ← datamodel.DataTable_init (columns df_perturbed)
        (values_tolist df_perturbed);
  let df_recovered :=
    match df_recovered with
    | inr dfs => map (round_ 4) dfs
    | inl df => [round_ 4 df]
    end in
  specs ← mapM (fun df =>
                  transform_spec.generate_transform_spec_delete_overwrite
                    to_csv read_csv df_perturbed (astype_str missing df))
            df_recovered;
  PerturbationReturn_init t df_recovered specs a_type a_scope cols note.

End io.

(** *** [number_to_words] *)

(** [xs[i]] for an integer that may be negative: a negative index counts
    from the end. *)
Definition list_getitem {A : Type} (xs : list A) (i : Z) : result A :=
  let k := if i <? 0 then i + Z.of_nat (length xs) else i in
  if k <? 0 then Raise IndexError
  else py.getitem xs (Z.to_nat k).

Definition one (num : Z) : result string :=
  list_getitem
    [ EmptyString; "one"; "two"; "three"; "four"; "five"; "six"; "seven";
      "eight"; "nine" ]%string num.

Definition two_less_20 (num : Z) : result string :=
  list_getitem
    [ "ten"; "eleven"; "twelve"; "thirteen"; "fourteen"; "fifteen";
      "sixteen"; "seventeen"; "eighteen"; "nineteen" ]%string (num - 10).

Definition ten (num : Z) : result string :=
  list_getitem
    [ EmptyString; EmptyString; "twenty"; "thirty"; "forty"; "fifty";
      "sixty"; "seventy"; "eighty"; "ninety" ]%string num.

Definition two (num : Z) : result string :=
  if num =? 0 then Ok EmptyString
  else if num <? 10 then one num
  else if num <? 20 then two_less_20 num
  else
    let tenner := num / 10 in
    let rest := num mod 10 in
    t ← ten tenner;
    r ← (if negb (rest =? 0)
         then o ← one rest; Ok ("-" +:+ o)
         else Ok EmptyString);
    Ok (t +:+ r).

Definition three (num : Z) : result string :=
  let hundred := num / 100 in
  let rest := num mod 100 in
  if negb (hundred =? 0) && negb (rest =? 0)
  then o ← one hundred; t ← two rest; Ok (o +:+ " hundred " +:+ t)
  else if (hundred =? 0) && negb (rest =? 0) then two rest
  else if negb (hundred =? 0) && (rest =? 0)
  then o ← one hundred; Ok (o +:+ " hundred")
  else Ok EmptyString.

(** [if group: result += three(group) + name] *)
Definition add_group (group : Z) (name : string) (res : string)
    : result string :=
  if negb (group =? 0)
  then s ← three group; Ok (res +:+ s +:+ name)
  else Ok res.

Definition number_to_words (n : Z) : result string :=
  if n =? 0 then Ok "zero"%string
  else
    let billion := n / 1000000000 in
    let million := (n / 1000000) mod 1000 in
    let thousand := (n / 1000) mod 1000 in
    let remainder := n mod 1000 in
    res ← add_group billion " billion " EmptyString;
    res ← add_group million " million " res;
    res ← add_group thousand " thousand " res;
    res ← add_group remainder EmptyString res;
    Ok (py.strip res).

End tasks.

(** ** radar/build/add_perturbations.py *)

Module add_perturbations.
Import pd perturb.

Section io.
(** [df.to_csv(index=False)] *)
Variable to_csv : DataFrame -> string.
(** [pd.read_csv(io.StringIO(text), dtype=str)] *)
Variable read_csv : string -> result DataFrame.
(** The text of a missing cell under [astype(str)]. *)
Variable missing : string.

(** The first task instance of [add_perturbations_from_df], the clean
    one, as far as its table and its specs go: the spec of [df]
    against itself, dumped and validated again as the one element of
    the field [recovered_tables_transform_spec].  The metadata fields
    and the answer are left out. *)
Definition clean_task_instance (df : DataFrame)
    : result datamodel.materialized :=
  spec ← transform_spec.generate_transform_spec_delete_overwrite
           to_csv read_csv df df;
  t ← datamodel.from_df missing df;
  specs ← mapM TableDeltaSpec_init [model_dump spec];
  datamodel.model_post_init t (datamodel.SpecList specs).

End io.

End add_perturbations.

(** ** radar/build/size_by_tokens.py *)

Module size_by_tokens.
Import pd.

(** The three locals [best_n], [best_token_count] and [best_diff], once
    [best_n] is no longer None. *)
Record best : Type := {
  best_n : Z;
  best_token_count : Z;
  best_diff : Z;
}.

Section helper.
(** [df.to_csv(index=False)] *)
Variable to_csv : DataFrame -> string.
Variable count_token_func : string -> Z.

(** [while low <= high].  A turn takes [mid] out of the interval, so
    the loop makes at most [high - low + 1] turns, the [fuel] it is
    run with; the bounds are returned with the best candidate.
    [None] stands for the initial [best_n = None] with its infinite
    [best_diff], which every difference is below. *)
Fixpoint search (fuel : nat) (df : DataFrame) (token_count min_rows : Z)
    (low high : Z) (b : option best) : Z * Z * option best :=
  match fuel with
  | O => (low, high, b)
  | S fuel' =>
      if low <=? high
      then
        let mid := (low + high) / 2 in
        let csv_text := to_csv (iloc_to df mid) in
        let tokens := count_token_func csv_text in
        let diff := Z.abs (tokens - token_count) in
        let b :=
          if (min_rows <=? mid)
             && match b with
                | None => true
                | Some x => diff <? best_diff x
                end
          then Some {| best_n := mid; best_token_count := tokens;
                       best_diff := diff |}
          else b in
        if tokens <? token_count
        then search fuel' df token_count min_rows (mid + 1) high b
        else search fuel' df token_count min_rows low (mid - 1) b
      else (low, high, b)
  end.

(** The token count of the first [n] rows, as a turn of the loop
    computes it for [mid]. *)
Definition tokens_of (df : DataFrame) (n : Z) : Z :=
  count_token_func (to_csv (iloc_to df n)).

Definition filter_df_based_on_token_count_helper (df : DataFrame)
    (token_count min_rows : Z) : DataFrame * Z :=
  let low := min_rows in
  let high := len df in
  match (search (Z.to_nat (high - low + 1)) df token_count min_rows
           low high None).2 with
  | Some b => (iloc_to df (best_n b), best_token_count b)
  | None => (df, count_token_func (to_csv df))
  end.

End helper.

End size_by_tokens.

(** ** The applier, read on values

    What [apply_transform_spec] does to the frame it copies, without the
    store: the overwrites in list order, then the deletions in descending
    order.  [applied_replay] below proves that the store program computes
    exactly this. *)

Module replay.
Import pd perturb.

Definition overwrite_step (df : DataFrame) (op : OverwriteCell) : DataFrame :=
  if row op <? pd.len df
  then pd.loc_setitem df (row op) (col op) (new_value op)
  else df.

Definition delete_step (df : DataFrame) (delete_op : Z) : DataFrame :=
  if delete_op <? pd.len df
  then pd.reset_index_drop
         (pd.concat (pd.iloc_to df delete_op) (pd.iloc_from df (delete_op + 1)))
  else df.

Definition replay (df : DataFrame) (spec : TableDeltaSpec) : DataFrame :=
  fold_left delete_step (py.sorted_reverse (drop_rows spec))
    (fold_left overwrite_step (overwrite_cells spec) df).

(** A table as [DataTable.to_df] builds it: rows labelled by position, and
    one cell per column in every row. *)
Definition labels (df : DataFrame) : list Z := (rows df).*1.

Definition default_index (df : DataFrame) : Prop :=
  labels df = seqZ 0 (pd.len df).

Definition rectangular (df : DataFrame) : Prop :=
  Forall (fun cs => length cs = length (columns df)) (cells df).

(** Every element after the head of a descending list is at most the
    head. *)
Fixpoint descending (l : list Z) : Prop :=
  match l with
  | [] => True
  | x :: l' => Forall (fun y => y <= x) l' /\ descending l'
  end.

(** The operations of a spec whose row lies below [n]. *)
Definition in_range (n : Z) (spec : TableDeltaSpec) : TableDeltaSpec :=
  {| drop_rows := filter (fun d => d < n) (drop_rows spec);
     overwrite_cells := filter (fun op => row op < n) (overwrite_cells spec) |}.

(** The rows that survive the deletion of the positions [ds], the first
    row of [cs] standing at position [i]. *)
Fixpoint keep_from {A : Type} (i : nat) (ds : list Z) (cs : list A)
    : list A :=
  match cs with
  | [] => []
  | c :: cs' =>
      if bool_decide (Z.of_nat i ∈ ds) then keep_from (S i) ds cs'
      else c :: keep_from (S i) ds cs'
  end.

(** What the overwrites [ows], in list order, leave in the cell of row
    label [r] and column name [h] that held [x]: the value of the last
    overwrite addressed to it, or [x]. *)
Definition final_value (ows : list OverwriteCell) (r : Z) (h : string)
    (x : value) : value :=
  fold_left (fun x op =>
               if (row op =? r) && String.eqb h (col op)
               then new_value op else x) ows x.

(** A row rewritten cell by cell, each cell under its column name. *)
Fixpoint map_row (f : string -> value -> value) (cols : list string)
    (cs : list value) : list value :=
  match cols, cs with
  | h :: cols', x :: cs' => f h x :: map_row f cols' cs'
  | _, _ => cs
  end.

End replay.

(** ** A sequence matched against itself

    The notions the proof of [get_opcodes l l] runs on: where an element
    occurs, which rows of the matcher's table are scanned at all, and how
    long the run of scanned rows ending at a row is. *)

Module self_match.

(** Strictly increasing positions. *)
Fixpoint ascending (js : list nat) : Prop :=
  match js with
  | [] => True
  | j :: js' => Forall (fun j' => (j < j')%nat) js' /\ ascending js'
  end.

Section self.
Variable l : list string.

(** The positions of [x] in [l], ascending. *)
Definition indices_of (x : string) : list nat :=
  filter (fun j => l !! j = Some x) (seq 0 (length l)).

(** [b2j.get(l[i], nothing)] *)
Definition row_js (i : nat) : list nat :=
  default [] (l !! i ≫= fun elt => difflib.b2j l !! elt).

(** Row [i] is scanned: [l[i]] is still a key of [b2j]. *)
Definition scanned (i : nat) : bool :=
  match row_js i with
  | [] => false
  | _ => true
  end.

(** The number of consecutive scanned rows that end at row [i]. *)
Fixpoint run (i : nat) : nat :=
  match i with
  | O => if scanned 0 then 1 else 0
  | S i' => if scanned i then S (run i') else 0
  end%nat.

(** The same for the row before [i]. *)
Definition run_before (i : nat) : nat :=
  match i with
  | O => 0
  | S i' => run i'
  end%nat.

End self.

End self_match.

(** ** Concrete tables and specs *)

Module scenario.
Import pd perturb.

(** A two-column table of strings with the default index. *)
Definition table (data : list (list string)) : DataFrame :=
  {| columns := ["name"; "value"]%string;
     rows := RangeIndex (map (map VStr) data) |}.

Definition S : DataFrame :=
  table [["a"; "1"]; ["b"; "2"]; ["c"; "3"]]%string.

(** [S] with row "b" deleted and the second cell of row "c" changed. *)
Definition T : DataFrame :=
  table [["a"; "1"]; ["c"; "9"]]%string.

(** [S] with row "b" deleted and nothing else changed. *)
Definition T_deleted : DataFrame :=
  table [["a"; "1"]; ["c"; "3"]]%string.

Definition overwrite (r : Z) (c v : string) : OverwriteCell :=
  {| row := r; col := c; new_value := VStr v |}.

(** The spec the scenario expects. *)
Definition expected_spec : TableDeltaSpec :=
  {| drop_rows := [1]; overwrite_cells := [overwrite 2 "value" "9"] |}.

(** The lists the inferrer accumulates on [S] and [T]. *)
Definition accumulated_spec : TableDeltaSpec :=
  {| drop_rows := [2];
     overwrite_cells := [overwrite 1 "name" "c"; overwrite 1 "value" "9"] |}.

Definition empty_spec : TableDeltaSpec :=
  {| drop_rows := []; overwrite_cells := [] |}.

(** An overwrite under a column name that [S] does not have. *)
Definition unknown_column_spec : TableDeltaSpec :=
  {| drop_rows := []; overwrite_cells := [overwrite 0 "zip" "9"] |}.

(** A spec made for a table of nine rows. *)
Definition long_spec : TableDeltaSpec :=
  {| drop_rows := [5; 2; 8];
     overwrite_cells := [overwrite 7 "value" "x"; overwrite 0 "value" "y"] |}.

(** Two tables that differ in the first cell of their only row, the second
    cell being missing in both: as the text NA in one, as a missing value
    in the other. *)
Definition S_missing : DataFrame := table [["a"; "NA"]]%string.

Definition T_missing : DataFrame :=
  {| columns := ["name"; "value"]%string;
     rows := RangeIndex [[VStr "b"; VNone]] |}.

(** The legacy shape, for two recovered tables. *)
Definition legacy : list (string * list pyobj) :=
  [ ("drop_rows"%string, [PList [PInt 1]; PList []]);
    ("overwrite_cells"%string,
     [PList []; PList [PCell (overwrite 0 "value" "7")]]) ].

Definition legacy_unequal : list (string * list pyobj) :=
  [ ("drop_rows"%string, [PList [PInt 1]; PList []]);
    ("overwrite_cells"%string, [PList []]) ].

Definition stored_table : datamodel.DataTable :=
  {| datamodel.headers := ["name"; "value"]%string;
     datamodel.rows := [["a"; "1"]; ["b"; "2"]]%string |}.

End scenario.

(** * Properties *)

Section store.
Import pd perturb replay.

Lemma bind_run {A B : Type} (m : M A) (k : A -> M B) (σ : heap) :
  (m ≫= k) σ = match m σ with
                | Ok (a, σ') => k a σ'
                | Raise e => Raise e
                end.
Proof. reflexivity. Qed.

Lemma get_run (σ : heap) (r : ref) (df : DataFrame) :
  σ !! r = Some df -> get r σ = Ok (df, σ).
Proof. intros H. unfold get. by rewrite H. Qed.

Lemma len_run (σ : heap) (r : ref) (df : DataFrame) :
  σ !! r = Some df -> perturb.len r σ = Ok (pd.len df, σ).
Proof.
  intros H. unfold perturb.len. rewrite bind_run, (get_run _ _ _ H). done.
Qed.

Lemma loc_setitem_run (σ : heap) (r : ref) (df : DataFrame) rw c v :
  σ !! r = Some df ->
  perturb.loc_setitem r rw c v σ
  = Ok (tt, <[r := pd.loc_setitem df rw c v]> σ).
Proof.
  intros H. unfold perturb.loc_setitem.
  rewrite bind_run, (get_run _ _ _ H). unfold put. by rewrite H.
Qed.

Lemma iloc_to_run (σ : heap) (r : ref) (df : DataFrame) stop :
  σ !! r = Some df ->
  perturb.iloc_to r stop σ = Ok (length σ, σ ++ [pd.iloc_to df stop]).
Proof.
  intros H. unfold perturb.iloc_to. by rewrite bind_run, (get_run _ _ _ H).
Qed.

Lemma iloc_from_run (σ : heap) (r : ref) (df : DataFrame) start :
  σ !! r = Some df ->
  perturb.iloc_from r start σ = Ok (length σ, σ ++ [pd.iloc_from df start]).
Proof.
  intros H. unfold perturb.iloc_from. by rewrite bind_run, (get_run _ _ _ H).
Qed.

Lemma concat_run (σ : heap) (ra rb : ref) (dfa dfb : DataFrame) :
  σ !! ra = Some dfa -> σ !! rb = Some dfb ->
  perturb.concat ra rb σ = Ok (length σ, σ ++ [pd.concat dfa dfb]).
Proof.
  intros Ha Hb. unfold perturb.concat.
  rewrite bind_run, (get_run _ _ _ Ha), bind_run, (get_run _ _ _ Hb). done.
Qed.

Lemma reset_index_drop_run (σ : heap) (r : ref) (df : DataFrame) :
  σ !! r = Some df ->
  perturb.reset_index_drop r σ
  = Ok (length σ, σ ++ [pd.reset_index_drop df]).
Proof.
  intros H. unfold perturb.reset_index_drop.
  by rewrite bind_run, (get_run _ _ _ H).
Qed.

Lemma copy_deep_run (σ : heap) (r : ref) (df : DataFrame) :
  σ !! r = Some df -> copy_deep r σ = Ok (length σ, σ ++ [df]).
Proof.
  intros H. unfold copy_deep. by rewrite bind_run, (get_run _ _ _ H).
Qed.

Lemma lookup_snoc (σ : heap) (cur : DataFrame) :
  (σ ++ [cur]) !! length σ = Some cur.
Proof. by rewrite list_lookup_middle. Qed.

Lemma insert_snoc (σ : heap) (cur new : DataFrame) :
  <[length σ := new]> (σ ++ [cur]) = σ ++ [new].
Proof.
  rewrite insert_app_r_alt by lia. by rewrite Nat.sub_diag.
Qed.

(** The overwrite loop assigns inside the copy and touches nothing else. *)
Lemma overwrite_loop_run (ows : list OverwriteCell) :
  forall (σ : heap) (cur : DataFrame),
    for_in ows tt (fun _ overwrite_op =>
        n ← perturb.len (length σ);
        if row overwrite_op <? n
        then perturb.loc_setitem (length σ) (row overwrite_op)
               (col overwrite_op) (new_value overwrite_op)
        else mret tt) (σ ++ [cur])
    = Ok (tt, σ ++ [fold_left overwrite_step ows cur]).
Proof.
  induction ows as [|op ows IH]; intros σ cur; [done|].
  cbn [for_in fold_left].
  rewrite bind_run, bind_run, (len_run _ _ cur) by apply lookup_snoc.
  unfold overwrite_step at 2.
  destruct (row op <? pd.len cur) eqn:Hlt.
  - rewrite (loc_setitem_run _ _ cur) by apply lookup_snoc.
    rewrite insert_snoc. apply IH.
  - apply IH.
Qed.

(** The delete loop only allocates: it rebinds its local name to new
    frames and leaves every frame of the store as it was. *)
Lemma delete_loop_run (ds : list Z) :
  forall (h : heap) (r : ref) (cur : DataFrame),
    h !! r = Some cur ->
    exists (r' : ref) (extra : heap),
      for_in ds r (fun df_recovered delete_op =>
          n ← perturb.len df_recovered;
          if delete_op <? n
          then
            upper ← perturb.iloc_to df_recovered delete_op;
            lower ← perturb.iloc_from df_recovered (delete_op + 1);
            joined ← perturb.concat upper lower;
            perturb.reset_index_drop joined
          else mret df_recovered) h
      = Ok (r', h ++ extra)
      /\ (h ++ extra) !! r' = Some (fold_left delete_step ds cur)
      /\ (r' = r \/ (length h <= r')%nat).
Proof.
  induction ds as [|d ds IH]; intros h r cur Hr.
  - exists r, []. rewrite app_nil_r. by auto.
  - cbn [for_in fold_left].
    rewrite bind_run, bind_run, (len_run _ _ cur Hr).
    unfold delete_step at 2.
    destruct (d <? pd.len cur) eqn:Hlt.
    + set (up := pd.iloc_to cur d).
      set (lo := pd.iloc_from cur (d + 1)).
      set (jn := pd.concat up lo).
      set (nw := pd.reset_index_drop jn).
      assert (Hlen : (r < length h)%nat) by by eapply lookup_lt_Some.
      rewrite bind_run, (iloc_to_run _ _ cur) by done. fold up.
      rewrite bind_run, (iloc_from_run _ _ cur)
        by (by rewrite lookup_app_l). fold lo.
      rewrite bind_run, (concat_run _ _ _ up lo); cycle 1.
      { rewrite <- app_assoc. by apply list_lookup_middle. }
      { apply list_lookup_middle. by rewrite !length_app. }
      fold jn. rewrite !length_app. cbn [length].
      rewrite (reset_index_drop_run _ _ jn); cycle 1.
      { apply list_lookup_middle. rewrite !length_app. cbn. lia. }
      fold nw. rewrite !length_app. cbn [length].
      set (h' := (((h ++ [up]) ++ [lo]) ++ [jn]) ++ [nw]).
      assert (Hnw : h' !! (length h + 1 + 1 + 1)%nat = Some nw).
      { apply list_lookup_middle. rewrite !length_app. cbn. lia. }
      destruct (IH h' _ nw Hnw) as (r' & extra & Hrun & Hget & Hr').
      exists r', ([up; lo; jn; nw] ++ extra).
      replace (h ++ [up; lo; jn; nw] ++ extra) with (h' ++ extra)
        by (unfold h'; by rewrite <- !app_assoc).
      split; [done|]. split; [done|].
      right. destruct Hr' as [->|Hr']; [lia|].
      unfold h' in Hr'. rewrite !length_app in Hr'. lia.
    + destruct (IH h r cur Hr) as (r' & extra & Hrun & Hget & Hr').
      by exists r', extra.
Qed.

(** The whole call: the caller's store is extended, never changed, and the
    returned name is bound to the replayed frame. *)
Lemma apply_transform_spec_run (σ : heap) (r : ref) (df : DataFrame)
    (spec : TableDeltaSpec) :
  σ !! r = Some df ->
  exists (r' : ref) (extra : heap),
    apply_transform_spec r spec σ = Ok (r', σ ++ extra)
    /\ (σ ++ extra) !! r' = Some (replay df spec)
    /\ (length σ <= r')%nat.
Proof.
  intros Hr. unfold apply_transform_spec.
  rewrite bind_run, (copy_deep_run _ _ df Hr).
  rewrite bind_run, overwrite_loop_run.
  set (cur := fold_left overwrite_step (overwrite_cells spec) df).
  destruct (delete_loop_run (py.sorted_reverse (drop_rows spec))
              (σ ++ [cur]) (length σ) cur (lookup_snoc σ cur))
    as (r' & extra & Hrun & Hget & Hr').
  exists r', ([cur] ++ extra). rewrite app_assoc.
  split; [done|]. split; [done|].
  destruct Hr' as [->|Hr']; [lia|]. rewrite length_app in Hr'. lia.
Qed.

Lemma applied_replay (df : DataFrame) (spec : TableDeltaSpec) :
  applied df spec = Ok (replay df spec).
Proof.
  unfold applied.
  destruct (apply_transform_spec_run [df] 0%nat df spec eq_refl)
    as (r' & extra & -> & Hget & _).
  unfold deref. by rewrite Hget.
Qed.

End store.

Section sorting.
Import replay.

Ltac ltb_cases :=
  repeat match goal with
         | |- context [?a <? ?b] => destruct (Z.ltb_spec a b)
         end.

Lemma insert_desc_comm (x y : Z) (l : list Z) :
  py.insert_desc x (py.insert_desc y l) = py.insert_desc y (py.insert_desc x l).
Proof.
  induction l as [|z l IH]; cbn; ltb_cases; cbn; ltb_cases;
    try lia; try done; try (by rewrite IH);
    by replace x with y by lia.
Qed.

Lemma sorted_reverse_cons (x : Z) (l : list Z) :
  py.sorted_reverse (x :: l) = py.insert_desc x (py.sorted_reverse l).
Proof. reflexivity. Qed.

Lemma sorted_reverse_Permutation (l1 l2 : list Z) :
  l1 ≡ₚ l2 -> py.sorted_reverse l1 = py.sorted_reverse l2.
Proof.
  unfold py.sorted_reverse.
  induction 1 as [|x l1 l2 _ IH|x y l|l1 l2 l3 _ IH1 _ IH2]; cbn.
  - done.
  - by rewrite IH.
  - apply insert_desc_comm.
  - by rewrite IH1.
Qed.

Lemma insert_desc_elem (x y : Z) (l : list Z) :
  y ∈ py.insert_desc x l <-> y = x \/ y ∈ l.
Proof.
  induction l as [|z l IH]; cbn.
  - set_solver.
  - destruct (z <? x); rewrite !elem_of_cons, ?IH; tauto.
Qed.

Lemma insert_desc_descending (x : Z) (l : list Z) :
  descending l -> descending (py.insert_desc x l).
Proof.
  induction l as [|z l IH]; cbn; intros Hl.
  - by split.
  - destruct Hl as [Hz Hl]. destruct (z <? x) eqn:Hzx; cbn.
    + split; [|by split]. constructor; [lia|].
      eapply Forall_impl; [exact Hz|]. cbn. lia.
    + split; [|by apply IH].
      apply Forall_forall. intros y Hy.
      apply insert_desc_elem in Hy as [->|Hy]; [lia|].
      rewrite Forall_forall in Hz. by apply Hz.
Qed.

Lemma sorted_reverse_descending (l : list Z) :
  descending (py.sorted_reverse l).
Proof.
  induction l as [|x l IH]; [done|].
  rewrite sorted_reverse_cons. by apply insert_desc_descending.
Qed.

Lemma insert_desc_perm (x : Z) (s : list Z) : py.insert_desc x s ≡ₚ x :: s.
Proof.
  induction s as [|z s IHs]; cbn; [done|].
  destruct (z <? x); [done|]. rewrite IHs. apply Permutation_swap.
Qed.

Lemma sorted_reverse_perm (l : list Z) : py.sorted_reverse l ≡ₚ l.
Proof.
  induction l as [|x l IH]; [done|].
  rewrite sorted_reverse_cons, insert_desc_perm. by f_equiv.
Qed.

Lemma insert_desc_head (x : Z) (l : list Z) :
  Forall (fun y => y <= x) l -> py.insert_desc x l = x :: l.
Proof.
  induction 1 as [|z l Hz _ IH]; cbn; [done|].
  ltb_cases; [done|]. rewrite IH. by replace z with x by lia.
Qed.

Lemma sorted_reverse_id (l : list Z) :
  descending l -> py.sorted_reverse l = l.
Proof.
  induction l as [|x l IH]; [done|]. intros [Hx Hl].
  rewrite sorted_reverse_cons, IH by done. by apply insert_desc_head.
Qed.

Lemma filter_descending (P : Z -> Prop) `{!forall z, Decision (P z)}
    (l : list Z) :
  descending l -> descending (filter P l).
Proof.
  induction l as [|x l IH]; [done|]. intros [Hx Hl].
  rewrite filter_cons. destruct (decide (P x)); [|by apply IH].
  split; [|by apply IH].
  apply Forall_forall. intros y [_ Hy]%list_elem_of_filter.
  rewrite Forall_forall in Hx. by apply Hx.
Qed.

(** Sorting commutes with selecting. *)
Lemma sorted_reverse_filter (P : Z -> Prop) `{!forall z, Decision (P z)}
    (l : list Z) :
  py.sorted_reverse (filter P l) = filter P (py.sorted_reverse l).
Proof.
  rewrite (sorted_reverse_Permutation (filter P l)
             (filter P (py.sorted_reverse l))).
  - apply sorted_reverse_id, filter_descending, sorted_reverse_descending.
  - by rewrite sorted_reverse_perm.
Qed.

End sorting.

Section frames.
Import pd perturb replay.

Lemma has_label_elem (r : Z) (df : DataFrame) :
  has_label r df = true <-> r ∈ labels df.
Proof.
  unfold has_label, labels. rewrite existsb_exists, list_elem_of_fmap.
  split.
  - intros (rw & Hin & Heq). exists rw. split; [lia|].
    by apply list_elem_of_In.
  - intros (rw & -> & Hin). exists rw. split; [|lia].
    by apply list_elem_of_In.
Qed.

Lemma has_label_default_index (r : Z) (df : DataFrame) :
  default_index df -> 0 <= r < pd.len df -> has_label r df = true.
Proof.
  intros Hd Hr. apply has_label_elem. rewrite Hd. apply elem_of_seqZ. lia.
Qed.

Lemma has_column_false (c : string) (df : DataFrame) :
  c ∉ columns df -> has_column c df = false.
Proof.
  intros Hc. unfold has_column.
  destruct (existsb (String.eqb c) (columns df)) eqn:He; [|done].
  apply existsb_exists in He as (h & Hin & Heq).
  apply String.eqb_eq in Heq as <-. by apply list_elem_of_In in Hin.
Qed.

Lemma labels_set_cells (r : Z) (c : string) (v : value) (df : DataFrame) :
  labels (set_cells r c v df) = labels df.
Proof.
  unfold labels, set_cells. cbn. rewrite <- list_fmap_compose.
  apply list_fmap_ext. intros _ rw _. cbn. by destruct (rw.1 =? r).
Qed.

Lemma labels_add_column (c : string) (df : DataFrame) :
  labels (add_column c df) = labels df.
Proof.
  unfold labels, add_column. cbn. rewrite <- list_fmap_compose.
  by apply list_fmap_ext.
Qed.

Lemma len_labels (df : DataFrame) : pd.len df = Z.of_nat (length (labels df)).
Proof. unfold pd.len, labels. by rewrite length_fmap. Qed.

(** Assigning at a label the frame has keeps its rows and their labels. *)
Lemma loc_setitem_labels (df : DataFrame) (r : Z) (c : string) (v : value) :
  has_label r df = true -> labels (pd.loc_setitem df r c v) = labels df.
Proof.
  intros Hr. unfold pd.loc_setitem. rewrite Hr, labels_set_cells.
  destruct (has_column c df); [done|]. apply labels_add_column.
Qed.

Lemma overwrite_step_default_index (df : DataFrame) (op : OverwriteCell) :
  default_index df -> 0 <= row op ->
  default_index (overwrite_step df op)
  /\ pd.len (overwrite_step df op) = pd.len df.
Proof.
  intros Hd Hrow. unfold overwrite_step.
  destruct (row op <? pd.len df) eqn:Hlt; [|done].
  assert (Hl : labels (pd.loc_setitem df (row op) (col op) (new_value op))
               = labels df).
  { apply loc_setitem_labels, has_label_default_index; [done|lia]. }
  assert (Hn : pd.len (pd.loc_setitem df (row op) (col op) (new_value op))
               = pd.len df) by by rewrite !len_labels, Hl.
  split; [|done]. unfold default_index. by rewrite Hl, Hn.
Qed.

(** On a table with the default index, the overwrites whose row is at or
    past the end are the ones the guard skips. *)
Lemma overwrite_fold_in_range (ows : list OverwriteCell) :
  forall (df : DataFrame) (n : Z),
    default_index df -> pd.len df = n ->
    Forall (fun op => 0 <= row op) ows ->
    fold_left overwrite_step ows df
    = fold_left overwrite_step (filter (fun op => row op < n) ows) df
    /\ pd.len (fold_left overwrite_step ows df) = n.
Proof.
  induction ows as [|op ows IH]; intros df n Hd Hn Hows; [done|].
  apply Forall_cons in Hows as [Hop Hows].
  destruct (overwrite_step_default_index df op Hd Hop) as [Hd' Hn'].
  rewrite filter_cons. cbn [fold_left].
  destruct (decide (row op < n)) as [Hlt|Hge].
  - cbn [fold_left]. apply IH; [done|lia|done].
  - assert (Hskip : overwrite_step df op = df).
    { unfold overwrite_step.
      destruct (row op <? pd.len df) eqn:E; [lia|done]. }
    rewrite Hskip. by apply IH.
Qed.

Lemma filter_all_below (n : Z) (ds : list Z) :
  Forall (fun d => d < n) ds -> filter (fun d => d < n) ds = ds.
Proof.
  induction 1 as [|d ds Hd _ IH]; [done|].
  rewrite filter_cons, IH. by destruct (decide (d < n)).
Qed.

(** In descending order, the deletions at or past the end come first and
    find the frame as long as it was. *)
Lemma delete_fold_in_range (ds : list Z) :
  forall (cur : DataFrame) (n : Z),
    descending ds -> pd.len cur <= n ->
    fold_left delete_step ds cur
    = fold_left delete_step (filter (fun d => d < n) ds) cur.
Proof.
  induction ds as [|d ds IH]; intros cur n Hds Hn; [done|].
  destruct Hds as [Hd Hds]. rewrite filter_cons.
  destruct (decide (d < n)) as [Hlt|Hge].
  - rewrite filter_all_below; [done|].
    eapply Forall_impl; [exact Hd|]. cbn. lia.
  - cbn [fold_left].
    assert (Hskip : delete_step cur d = cur).
    { unfold delete_step. destruct (d <? pd.len cur) eqn:E; [lia|done]. }
    rewrite Hskip. by apply IH.
Qed.

Lemma replay_in_range (df : DataFrame) (spec : TableDeltaSpec) :
  default_index df ->
  Forall (fun op => 0 <= row op) (overwrite_cells spec) ->
  replay df spec = replay df (in_range (pd.len df) spec).
Proof.
  intros Hd Hows. unfold replay, in_range. cbn [drop_rows overwrite_cells].
  destruct (overwrite_fold_in_range (overwrite_cells spec) df (pd.len df)
              Hd eq_refl Hows) as [Heq Hlen].
  rewrite sorted_reverse_filter, <- Heq.
  apply delete_fold_in_range; [apply sorted_reverse_descending|lia].
Qed.

Lemma set_in_row_new_column (cols : list string) :
  forall (cs : list value) (c : string) (v : value),
    length cs = length cols -> c ∉ cols ->
    set_in_row (cols ++ [c]) (cs ++ [VNone]) c v = cs ++ [v].
Proof.
  induction cols as [|h cols IH]; intros cs c v Hlen Hc.
  - destruct cs; [|done]. cbn. by rewrite String.eqb_refl.
  - destruct cs as [|x cs]; [done|]. cbn.
    apply not_elem_of_cons in Hc as [Hne Hc].
    assert (String.eqb h c = false) as -> by (apply String.eqb_neq; congruence).
    f_equal. apply IH; [|done]. cbn in Hlen. lia.
Qed.

Lemma set_in_row_absent (cols : list string) :
  forall (cs : list value) (c : string) (v : value),
    c ∉ cols -> set_in_row cols cs c v = cs.
Proof.
  induction cols as [|h cols IH]; intros cs c v Hc; [by destruct cs|].
  destruct cs as [|x cs]; [done|]. cbn.
  apply not_elem_of_cons in Hc as [Hne Hc].
  assert (String.eqb h c = false) as -> by (apply String.eqb_neq; congruence).
  f_equal. by apply IH.
Qed.

(** Assigning under a column label the frame lacks appends the column. *)
Lemma loc_setitem_new_column (df : DataFrame) (r : Z) (c : string)
    (v : value) :
  rectangular df -> has_label r df = true -> c ∉ columns df ->
  pd.loc_setitem df r c v
  = {| columns := columns df ++ [c];
       rows := map (fun rw =>
                      (rw.1, rw.2 ++ [if rw.1 =? r then v else VNone]))
                 (rows df) |}.
Proof.
  intros Hrect Hr Hc. unfold pd.loc_setitem.
  rewrite Hr, (has_column_false c df Hc).
  unfold set_cells, add_column. cbn [columns rows]. f_equal.
  rewrite map_map. apply map_ext_in. intros rw Hin. cbn.
  destruct (rw.1 =? r); [|done]. f_equal.
  apply set_in_row_new_column; [|done].
  unfold rectangular, cells in Hrect. rewrite Forall_forall in Hrect.
  apply Hrect. apply list_elem_of_fmap. exists rw.
  split; [done|]. by apply list_elem_of_In.
Qed.

End frames.

Section chain_b.
Import difflib self_match.
Local Open Scope nat_scope.

Lemma filter_ext_elem {A : Type} (P1 P2 : A -> Prop)
    `{!forall x, Decision (P1 x), !forall x, Decision (P2 x)} (xs : list A) :
  (forall x, x ∈ xs -> P1 x <-> P2 x) -> filter P1 xs = filter P2 xs.
Proof.
  induction xs as [|x xs IH]; intros Hext; [done|].
  rewrite !filter_cons, IH by (intros; apply Hext; by right).
  apply decide_ext, Hext. by left.
Qed.

Lemma b2j_full_snoc (l : list string) (y : string) :
  b2j_full (l ++ [y])
  = <[y := default [] (b2j_full l !! y) ++ [length l]]> (b2j_full l).
Proof.
  unfold b2j_full. rewrite imap_app, fold_left_app. cbn.
  by rewrite Nat.add_0_r.
Qed.

Lemma indices_of_snoc (l : list string) (y x : string) :
  indices_of (l ++ [y]) x
  = indices_of l x ++ (if decide (y = x) then [length l] else []).
Proof.
  unfold indices_of. rewrite length_app. cbn [length].
  rewrite Nat.add_1_r, seq_S, filter_app. cbn [Nat.add]. f_equal.
  - apply filter_ext_elem. intros j Hj.
    apply elem_of_seq in Hj. by rewrite lookup_app_l by lia.
  - rewrite filter_cons, filter_nil, list_lookup_middle by done.
    destruct (decide (y = x)) as [->|Hne].
    + by rewrite decide_True.
    + rewrite decide_False; [done|]. congruence.
Qed.

(** [b2j] before the purge maps every element to its positions. *)
Lemma b2j_full_lookup (l : list string) (x : string) :
  default [] (b2j_full l !! x) = indices_of l x.
Proof.
  induction l as [|y l IH] using rev_ind; [done|].
  rewrite b2j_full_snoc, indices_of_snoc.
  destruct (decide (y = x)) as [->|Hne].
  - rewrite lookup_insert_eq. cbn. by rewrite IH.
  - rewrite lookup_insert_ne by done. by rewrite IH, app_nil_r.
Qed.

Lemma b2j_lookup (l : list string) (x : string) (js : list nat) :
  b2j l !! x = Some js -> js = indices_of l x.
Proof.
  intros H. rewrite <- b2j_full_lookup. unfold b2j in H.
  destruct (Nat.leb 200 (length l)).
  - apply map_lookup_filter_Some in H as [-> _]. done.
  - by rewrite H.
Qed.

Lemma row_js_cases (l : list string) (i : nat) (x : string) :
  l !! i = Some x -> row_js l i = [] \/ row_js l i = indices_of l x.
Proof.
  intros Hi. unfold row_js. rewrite Hi. cbn.
  destruct (b2j l !! x) as [js|] eqn:Hjs; [|by left].
  right. cbn. by apply b2j_lookup.
Qed.

Lemma row_js_same (l : list string) (i j : nat) :
  l !! i = l !! j -> row_js l i = row_js l j.
Proof. unfold row_js. by intros ->. Qed.

Lemma indices_of_elem (l : list string) (x : string) (j : nat) :
  j ∈ indices_of l x <-> l !! j = Some x.
Proof.
  unfold indices_of. rewrite list_elem_of_filter, elem_of_seq.
  split; [tauto|]. intros H. split; [done|].
  apply lookup_lt_Some in H. lia.
Qed.

Lemma ascending_seq (a n : nat) : ascending (seq a n).
Proof.
  revert a. induction n as [|n IH]; intros a; [done|]. cbn. split; [|done].
  apply Forall_forall. intros j Hj%elem_of_seq. lia.
Qed.

Lemma ascending_filter (P : nat -> Prop) `{!forall j, Decision (P j)}
    (js : list nat) :
  ascending js -> ascending (filter P js).
Proof.
  induction js as [|j js IH]; [done|]. intros [Hj Hjs].
  rewrite filter_cons. destruct (decide (P j)); [|by apply IH].
  split; [|by apply IH].
  apply Forall_forall. intros j' [_ Hj']%list_elem_of_filter.
  rewrite Forall_forall in Hj. by apply Hj.
Qed.

Lemma indices_of_ascending (l : list string) (x : string) :
  ascending (indices_of l x).
Proof. apply ascending_filter, ascending_seq. Qed.

End chain_b.

Section self_scan.
Import difflib self_match.
Local Open Scope nat_scope.
Variable l : list string.

Lemma run_le (i : nat) : run l i <= S i.
Proof.
  induction i as [|i IH]; cbn.
  - destruct (scanned l 0); lia.
  - destruct (scanned l (S i)); lia.
Qed.

Lemma run_scanned (i : nat) :
  scanned l i = true -> run l i = S (run_before l i).
Proof. destruct i; cbn; by intros ->. Qed.

Lemma run_unscanned (i : nat) : scanned l i = false -> run l i = 0.
Proof. destruct i; cbn; by intros ->. Qed.

(** What a row of the table inherits from the row before it. *)
Lemma j2lenget_pred_bound (J : gmap nat nat) (i j : nat) :
  (forall j' k, J !! j' = Some k -> k <= run_before l i /\ k <= run l j') ->
  j2lenget_pred J j <= run_before l i
  /\ j2lenget_pred J j <= run_before l j.
Proof.
  intros HJ. destruct j as [|j']; cbn; [lia|].
  destruct (J !! j') as [k|] eqn:Hk; cbn; [|lia]. by apply HJ.
Qed.

(** One row of the table, when [l] is matched against itself: only the
    diagonal cell can improve on the best match so far. *)
Lemma scan_row_self (i : nat) (J : gmap nat nat) :
  i < length l ->
  (forall j k, J !! j = Some k -> k <= run_before l i /\ k <= run l j) ->
  j2lenget_pred J i = run_before l i ->
  scanned l i = true ->
  forall (js : list nat) (newJ : gmap nat nat) (bi bs : nat),
    ascending js ->
    (forall j, j ∈ js -> j < length l /\ scanned l j = true) ->
    (i ∈ js \/ (run l i <= bs /\ newJ !! i = Some (run l i))) ->
    bi + bs <= length l ->
    (forall j, j < i -> run l j <= bs) ->
    (forall j k, newJ !! j = Some k -> k <= run l i /\ k <= run l j) ->
    exists (newJ' : gmap nat nat) (bi' bs' : nat),
      scan_row js i 0 (length l) J newJ (bi, bi, bs)
      = (newJ', (bi', bi', bs'))
      /\ bi' + bs' <= length l
      /\ (forall j, j < S i -> run l j <= bs')
      /\ newJ' !! i = Some (run l i)
      /\ (forall j k, newJ' !! j = Some k -> k <= run l i /\ k <= run l j).
Proof.
  intros Hi HJ Hdiag Hsi js.
  induction js as [|j js IH]; intros newJ bi bs Hasc Hjs Hphase Hfit Hbest HnewJ.
  - destruct Hphase as [Hin|[Hrun Hlook]]; [by apply elem_of_nil in Hin|].
    exists newJ, bi, bs. cbn. split; [done|]. split; [done|].
    split; [|by split].
    intros j Hj. destruct (decide (j = i)) as [->|]; [done|].
    apply Hbest. lia.
  - destruct Hasc as [Hj_lt Hasc].
    destruct (Hjs j (list_elem_of_here _ _)) as [Hjn Hsj].
    assert (Hjs' : forall j', j' ∈ js -> j' < length l /\ scanned l j' = true)
      by (intros; apply Hjs; by right).
    destruct (j2lenget_pred_bound J i j HJ) as [Hk1 Hk2].
    pose proof (run_scanned i Hsi) as Hri.
    pose proof (run_scanned j Hsj) as Hrj.
    cbn [scan_row].
    assert (Nat.ltb j 0 = false) as -> by by apply Nat.ltb_ge; lia.
    assert (Nat.leb (length l) j = false) as -> by (apply Nat.leb_gt; lia).
    cbn [snd].
    set (k := j2lenget_pred J j + 1).
    destruct (Nat.lt_trichotomy j i) as [Hlt|[Heq|Hgt]].
    + (* before the diagonal *)
      assert (Nat.ltb bs k = false) as ->.
      { apply Nat.ltb_ge. specialize (Hbest j Hlt). unfold k. lia. }
      apply IH; try done.
      * destruct Hphase as [Hin|[Hrun Hlook]].
        -- left. apply elem_of_cons in Hin as [->|]; [lia|done].
        -- right. split; [done|]. rewrite lookup_insert_ne by lia. done.
      * intros j' k' Hl. destruct (decide (j = j')) as [<-|Hne].
        -- rewrite lookup_insert_eq in Hl. injection Hl as <-. unfold k. lia.
        -- rewrite lookup_insert_ne in Hl by done. by apply HnewJ.
    + (* the diagonal *)
      subst j. assert (Hk : k = run l i) by (unfold k; lia).
      pose proof (run_le i) as Hle.
      destruct (Nat.ltb bs k) eqn:Hupd.
      * apply Nat.ltb_lt in Hupd.
        apply IH; try done.
        -- right. split; [lia|]. by rewrite lookup_insert_eq, Hk.
        -- lia.
        -- intros j' Hj'. specialize (Hbest j' Hj'). lia.
        -- intros j' k' Hl. destruct (decide (i = j')) as [<-|Hne].
           ++ rewrite lookup_insert_eq in Hl. injection Hl as <-. lia.
           ++ rewrite lookup_insert_ne in Hl by done. by apply HnewJ.
      * apply Nat.ltb_ge in Hupd.
        apply IH; try done.
        -- right. split; [lia|]. by rewrite lookup_insert_eq, Hk.
        -- intros j' k' Hl. destruct (decide (i = j')) as [<-|Hne].
           ++ rewrite lookup_insert_eq in Hl. injection Hl as <-. lia.
           ++ rewrite lookup_insert_ne in Hl by done. by apply HnewJ.
    + (* past the diagonal *)
      destruct Hphase as [Hin|[Hrun Hlook]].
      { apply elem_of_cons in Hin as [->|Hin]; [lia|].
        rewrite Forall_forall in Hj_lt. specialize (Hj_lt i Hin). lia. }
      assert (Nat.ltb bs k = false) as ->.
      { apply Nat.ltb_ge. unfold k. lia. }
      apply IH; try done.
      * right. split; [done|]. rewrite lookup_insert_ne by lia. done.
      * intros j' k' Hl. destruct (decide (j = j')) as [<-|Hne].
        -- rewrite lookup_insert_eq in Hl. injection Hl as <-. unfold k. lia.
        -- rewrite lookup_insert_ne in Hl by done. by apply HnewJ.
Qed.

(** All rows: the best match found lies on the diagonal and fits. *)
Lemma scan_rows_self (m : nat) :
  forall (i : nat) (J : gmap nat nat) (bi bs : nat),
    i + m = length l ->
    (forall j k, J !! j = Some k -> k <= run_before l i /\ k <= run l j) ->
    j2lenget_pred J i = run_before l i ->
    bi + bs <= length l ->
    (forall j, j < i -> run l j <= bs) ->
    exists bi' bs',
      scan_rows l l (seq i m) 0 (length l) J (bi, bi, bs) = (bi', bi', bs')
      /\ bi' + bs' <= length l.
Proof.
  induction m as [|m IH]; intros i J bi bs Him HJ Hdiag Hfit Hbest.
  - exists bi, bs. by split.
  - cbn [seq scan_rows]. fold (row_js l i).
    assert (Hi : i < length l) by lia.
    destruct (lookup_lt_is_Some_2 l i Hi) as [x Hx].
    destruct (scanned l i) eqn:Hsi.
    + destruct (row_js_cases l i x Hx) as [Hnil|Hjs].
      { unfold scanned in Hsi. by rewrite Hnil in Hsi. }
      rewrite Hjs.
      destruct (scan_row_self i J Hi HJ Hdiag Hsi (indices_of l x) ∅ bi bs)
        as (newJ' & bi' & bs' & -> & Hfit' & Hbest' & Hlook & HnewJ');
        try done.
      * apply indices_of_ascending.
      * intros j Hj. apply indices_of_elem in Hj. split.
        -- by eapply lookup_lt_Some.
        -- unfold scanned in *. rewrite (row_js_same l j i); [done|congruence].
      * left. by apply indices_of_elem.
      * apply IH; try done; [lia|]. cbn. by rewrite Hlook.
    + assert (Hnil : row_js l i = []).
      { unfold scanned in Hsi. by destruct (row_js l i). }
      rewrite Hnil. cbn [scan_row].
      pose proof (run_unscanned i Hsi) as Hr0.
      apply IH; try done; [lia|..].
      * intros j Hj. destruct (decide (j = i)) as [->|]; [lia|].
        apply Hbest. lia.
Qed.

End self_scan.
Section self_opcodes.
Import difflib self_match.
Local Open Scope nat_scope.
Variable l : list string.

Lemma same_refl (i : nat) : i < length l -> same (l !! i) (l !! i) = true.
Proof.
  intros Hi. destruct (lookup_lt_is_Some_2 l i Hi) as [x ->]. cbn.
  apply String.eqb_refl.
Qed.

Lemma isbjunk_false (x : option string) : isbjunk x = false.
Proof. by destruct x. Qed.

Lemma extend_back_self (bi : nat) :
  forall bs, bi <= length l ->
    extend_back l l false 0 0 bi bi bs = (0, 0, bi + bs).
Proof.
  induction bi as [|bi IH]; intros bs Hbi; [done|].
  cbn [extend_back]. rewrite isbjunk_false, same_refl by lia. cbn.
  rewrite IH by lia. do 2 f_equal. lia.
Qed.

Lemma extend_forward_self (fuel : nat) :
  forall bs, bs + fuel = length l ->
    extend_forward l l fuel false (length l) (length l) 0 0 bs = length l.
Proof.
  induction fuel as [|fuel IH]; intros bs Hbs; cbn [extend_forward]; [lia|].
  cbn [Nat.add]. rewrite isbjunk_false, same_refl by lia.
  assert (Nat.ltb bs (length l) = true) as -> by (apply Nat.ltb_lt; lia).
  cbn. apply IH. lia.
Qed.

(** The longest match of [l] with itself is all of [l]. *)
Lemma find_longest_match_self :
  find_longest_match l l 0 (length l) 0 (length l) = (0, 0, length l).
Proof.
  unfold find_longest_match, py.range. rewrite Nat.sub_0_r.
  destruct (scan_rows_self l (length l) 0 ∅ 0 0) as (bi & bs & -> & Hfit);
    try done; try lia.
  unfold extend at 2. rewrite extend_back_self by lia.
  rewrite extend_forward_self by lia.
  unfold extend. cbn [extend_back]. by rewrite Nat.sub_diag.
Qed.

Lemma get_matching_blocks_self :
  get_matching_blocks l l
  = if Nat.eqb (length l) 0 then [(0, 0, 0)]
    else [(0, 0, length l); (length l, length l, 0)].
Proof.
  unfold get_matching_blocks.
  replace (2 * length l + 1) with (S (2 * length l)) by lia.
  cbn [blocks_loop]. rewrite find_longest_match_self.
  destruct (Nat.eqb (length l) 0) eqn:Hn.
  - apply Nat.eqb_eq in Hn. rewrite Hn.
    by destruct (2 * 0).
  - rewrite Nat.ltb_irrefl. cbn [andb Nat.add].
    rewrite Nat.ltb_irrefl. cbn [andb app].
    assert (blocks_loop l l (2 * length l) [] [(0, 0, length l)]
            = ([], [(0, 0, length l)])) as -> by by destruct (2 * length l).
    cbn. by rewrite Hn.
Qed.

(** Matching [l] against itself yields one [equal] block, or nothing for
    the empty sequence. *)
Lemma get_opcodes_self :
  get_opcodes l l
  = if Nat.eqb (length l) 0 then []
    else [(tag_equal, 0, length l, 0, length l)].
Proof.
  unfold get_opcodes. rewrite get_matching_blocks_self.
  destruct (Nat.eqb (length l) 0) eqn:Hn; [done|].
  cbn [opcodes_from Nat.add]. rewrite !Nat.ltb_irrefl, Hn. done.
Qed.

End self_opcodes.

Section loops.

Lemma bind_Ok {A B : Type} (m : result A) (k : A -> result B) (b : B) :
  m ≫= k = Ok b -> exists a, m = Ok a /\ k a = Ok b.
Proof. destruct m as [a|e]; [|done]. intros H. by exists a. Qed.

(** A property the body of a loop preserves holds when the loop ends. *)
Lemma for_each_inv {A S : Type} (P : S -> Prop) (xs : list A)
    (body : S -> A -> result S) :
  (forall acc x acc', P acc -> x ∈ xs -> body acc x = Ok acc' -> P acc') ->
  forall acc acc', P acc -> for_each xs acc body = Ok acc' -> P acc'.
Proof.
  induction xs as [|x xs IH]; intros Hbody acc acc' Hacc Hrun.
  - cbn in Hrun. by injection Hrun as <-.
  - cbn [for_each] in Hrun.
    apply bind_Ok in Hrun as (acc1 & Hx & Hrun).
    eapply IH; [|eapply Hbody; [exact Hacc|by left|exact Hx]|exact Hrun].
    intros acc0 y acc0' H0 Hy. apply Hbody; [done|by right].
Qed.

Lemma mapM_Ok_map {A B : Type} (f : A -> result B) (g : B -> A)
    (ys : list B) :
  (forall y, f (g y) = Ok y) -> mapM f (map g ys) = Ok ys.
Proof.
  intros Hfg. induction ys as [|y ys IH]; [done|].
  cbn. rewrite Hfg. cbn. fold (mapM f). rewrite IH. done.
Qed.

End loops.

Section inferrer.
Import pd perturb transform_spec.
Variable to_csv : DataFrame -> string.
Variable read_csv : string -> result DataFrame.

(** The constructor drops the keyword [delete_rows], which names no field,
    and [drop_rows] keeps its default. *)
Lemma TableDeltaSpec_init_delete_rows (delete_rows : list Z)
    (overwrite_cells : list OverwriteCell) :
  TableDeltaSpec_init
    [ ("delete_rows"%string, PList (map PInt delete_rows));
      ("overwrite_cells"%string, PList (map PCell overwrite_cells)) ]
  = Ok {| drop_rows := []; overwrite_cells := overwrite_cells |}.
Proof.
  unfold TableDeltaSpec_init, field. cbn [kwarg String.eqb Ascii.eqb Bool.eqb].
  cbn. unfold as_list. by rewrite mapM_Ok_map.
Qed.

Lemma generate_eq (df df_recovered : DataFrame) :
  generate_transform_spec_delete_overwrite to_csv read_csv df df_recovered
  = acc ← delete_rows_and_overwrite_cells to_csv read_csv df df_recovered;
    Ok {| drop_rows := []; overwrite_cells := acc.2 |}.
Proof.
  unfold generate_transform_spec_delete_overwrite.
  destruct (delete_rows_and_overwrite_cells to_csv read_csv df df_recovered)
    as [[dr ows]|e]; [|done].
  cbn [mbind result_bind]. apply TableDeltaSpec_init_delete_rows.
Qed.

(** Two missing values are never an overwrite. *)
Lemma compare_cell_both_missing (i : nat) (row1 row2 : Series)
    (overwrite_cells : list OverwriteCell) (c : string) (val1 val2 : value) :
  series_getitem row1 c = Ok (Scalar val1) ->
  series_getitem row2 c = Ok (Scalar val2) ->
  isna val1 = true -> isna val2 = true ->
  compare_cell i row1 row2 overwrite_cells c = Ok overwrite_cells.
Proof.
  intros H1 H2 Hna1 Hna2. unfold compare_cell.
  rewrite H1, H2. cbn. by rewrite Hna1, Hna2.
Qed.

Lemma compare_cell_justified (lines1 lines2 : list string) (header : string)
    (i j : nat) (line1 line2 : string) (row1 row2 : Series)
    (acc acc' : list OverwriteCell) (c : string) :
  lines1 !! (i + 1)%nat = Some line1 ->
  lines2 !! (j + 1)%nat = Some line2 ->
  read_row read_csv header line1 = Ok row1 ->
  read_row read_csv header line2 = Ok row2 ->
  Forall (compared_and_different read_csv lines1 lines2 header) acc ->
  compare_cell i row1 row2 acc c = Ok acc' ->
  Forall (compared_and_different read_csv lines1 lines2 header) acc'.
Proof.
  intros Hl1 Hl2 Hr1 Hr2 Hacc Hrun. unfold compare_cell in Hrun.
  apply bind_Ok in Hrun as (sel1 & Hv1 & Hrun).
  apply bind_Ok in Hrun as (sel2 & Hv2 & Hrun).
  destruct sel1 as [val1|], sel2 as [val2|]; try done.
  destruct (isna val1 && isna val2) eqn:Hna; [by injection Hrun as <-|].
  destruct (ne val1 val2) eqn:Hne; [|by injection Hrun as <-].
  injection Hrun as <-. apply Forall_app. split; [done|].
  apply Forall_singleton.
  exists i, j, line1, line2, row1, row2, val1, val2. cbn. by repeat split.
Qed.

Lemma visit_opcode_justified (lines1 lines2 : list string) (header : string)
    (columns : list string) (acc acc' : list Z * list OverwriteCell)
    (op : difflib.opcode) :
  Forall (compared_and_different read_csv lines1 lines2 header) acc.2 ->
  visit_opcode read_csv lines1 lines2 header columns acc op = Ok acc' ->
  Forall (compared_and_different read_csv lines1 lines2 header) acc'.2.
Proof.
  destruct acc as [dr ows], op as [[[[tg i1] i2] j1] j2].
  intros Hacc Hrun. cbn [visit_opcode] in Hrun.
  destruct tg; try (by injection Hrun as <-).
  apply bind_Ok in Hrun as (ows' & Hloop & Hrun). injection Hrun as <-.
  cbn [snd] in *.
  eapply for_each_inv; [|exact Hacc|exact Hloop].
  intros ows0 offset ows1 H0 _ Hrow. unfold compare_rows in Hrow.
  apply bind_Ok in Hrow as (line1 & Hl1 & Hrow).
  apply bind_Ok in Hrow as (line2 & Hl2 & Hrow).
  apply bind_Ok in Hrow as (row1 & Hr1 & Hrow).
  apply bind_Ok in Hrow as (row2 & Hr2 & Hrow).
  unfold py.getitem in Hl1, Hl2.
  destruct (lines1 !! (i1 + offset + 1)%nat) as [s1|] eqn:E1; [|done].
  destruct (lines2 !! (j1 + offset + 1)%nat) as [s2|] eqn:E2; [|done].
  injection Hl1 as ->. injection Hl2 as ->.
  eapply for_each_inv; [|exact H0|exact Hrow].
  intros ows2 c ows3 H2 _ Hcell.
  eapply (compare_cell_justified _ _ _ (i1 + offset) (j1 + offset)); eauto.
Qed.

(** Every overwrite the inferrer returns was found by comparing two values
    that are not both missing. *)
Lemma generate_justified (df df_recovered : DataFrame)
    (spec : TableDeltaSpec) :
  generate_transform_spec_delete_overwrite to_csv read_csv df df_recovered
  = Ok spec ->
  exists header,
    str_lines to_csv df !! 0%nat = Some header
    /\ Forall (compared_and_different read_csv (str_lines to_csv df)
                 (str_lines to_csv df_recovered) header)
         (overwrite_cells spec).
Proof.
  rewrite generate_eq. intros Hrun.
  apply bind_Ok in Hrun as (acc & Hacc & Hrun). injection Hrun as <-.
  unfold delete_rows_and_overwrite_cells in Hacc.
  apply bind_Ok in Hacc as (header & Hh & Hloop).
  unfold py.getitem in Hh.
  destruct (str_lines to_csv df !! 0%nat) as [h|] eqn:E; [|done].
  injection Hh as ->. exists header. split; [done|]. cbn [overwrite_cells].
  eapply (for_each_inv (fun acc =>
            Forall (compared_and_different read_csv (str_lines to_csv df)
                      (str_lines to_csv df_recovered) header) acc.2));
    [|by apply (Forall_nil_2 _ : Forall _ ([], []).2)|exact Hloop].
  intros acc0 op acc1 H0 _ Hop. by eapply visit_opcode_justified.
Qed.

(** A table against itself: nothing to delete, nothing to overwrite. *)
Lemma generate_self (df : DataFrame) :
  str_lines to_csv df <> [] ->
  generate_transform_spec_delete_overwrite to_csv read_csv df df
  = Ok {| drop_rows := []; overwrite_cells := [] |}.
Proof.
  intros Hlines. rewrite generate_eq.
  unfold delete_rows_and_overwrite_cells.
  destruct (str_lines to_csv df) as [|header body] eqn:E; [done|].
  cbn [py.getitem lookup list_lookup mbind result_bind].
  rewrite get_opcodes_self.
  destruct (Nat.eqb (length (py.tail_from_1 (header :: body))) 0); done.
Qed.

End inferrer.

Section legacy_shape.
Import pd perturb replay utils datamodel.

Lemma for_each_check {A : Type} (ok : A -> bool) (xs : list A) :
  for_each xs tt (fun _ x => if ok x then Ok tt else Raise ValueError)
  = if forallb ok xs then Ok tt else Raise ValueError.
Proof.
  induction xs as [|x xs IH]; [done|]. cbn [for_each forallb].
  destruct (ok x); [|done]. cbn. apply IH.
Qed.

Lemma mapM_Forall2 {A B : Type} (R : A -> B -> Prop) (f : A -> result B)
    (xs : list A) :
  (forall x, x ∈ xs -> exists y, f x = Ok y /\ R x y) ->
  exists ys, mapM f xs = Ok ys /\ Forall2 R xs ys.
Proof.
  induction xs as [|x xs IH]; intros Hf.
  - exists []. by split.
  - destruct (Hf x (list_elem_of_here _ _)) as (y & Hy & HR).
    destruct IH as (ys & Hys & HRs); [intros; apply Hf; by right|].
    exists (y :: ys). split; [|by constructor].
    cbn. rewrite Hy. cbn. fold (mapM f). by rewrite Hys.
Qed.

Lemma mapM_Ok_Forall2 {A B : Type} (f : A -> result B) (xs : list A)
    (ys : list B) :
  mapM f xs = Ok ys -> Forall2 (fun x y => f x = Ok y) xs ys.
Proof.
  revert ys. induction xs as [|x xs IH]; intros ys Hm.
  - cbn in Hm. injection Hm as <-. constructor.
  - cbn in Hm. fold (mapM f) in Hm.
    apply bind_Ok in Hm as (y & Hy & Hm).
    apply bind_Ok in Hm as (ys' & Hys & Hm). injection Hm as <-.
    constructor; [done|]. by apply IH.
Qed.

Lemma dict_getitem_NoDup {V : Type} (d : list (string * V)) (k : string)
    (v : V) :
  NoDup d.*1 -> (k, v) ∈ d -> dict_getitem d k = Ok v.
Proof.
  induction d as [|[k0 v0] d IH]; intros Hnd Hin.
  - by apply elem_of_nil in Hin.
  - cbn in Hnd. apply NoDup_cons in Hnd as [Hk0 Hnd].
    apply elem_of_cons in Hin as [Heq|Hin]; cbn.
    + injection Heq as -> ->. by rewrite String.eqb_refl.
    + destruct (String.eqb k0 k) eqn:E.
      * apply String.eqb_eq in E as ->. exfalso. apply Hk0.
        apply list_elem_of_fmap. by exists (k, v).
      * by apply IH.
Qed.

Lemma convert_nonempty {A : Type} (d d' : list (string * list A))
    (k0 : string) (v0 : list A) :
  d = (k0, v0) :: d' ->
  convert_dict_of_lists_to_list_of_dicts d
  = _ ← for_each d tt (fun _ kv =>
          if Nat.eqb (length kv.2) (length v0) then Ok tt
          else Raise ValueError);
    mapM (fun i =>
            mapM (fun kv =>
                    values ← dict_getitem d kv.1;
                    x ← py.getitem values i;
                    Ok (kv.1, x))
              d)
      (py.range 0 (length v0)).
Proof.
  intros ->. unfold convert_dict_of_lists_to_list_of_dicts.
  cbn [dict_getitem]. by rewrite String.eqb_refl.
Qed.

(** Lists of unequal lengths are refused. *)
Lemma convert_unequal {A : Type} (d : list (string * list A))
    (k1 k2 : string) (v1 v2 : list A) :
  (k1, v1) ∈ d -> (k2, v2) ∈ d -> length v1 <> length v2 ->
  convert_dict_of_lists_to_list_of_dicts d = Raise ValueError.
Proof.
  intros H1 H2 Hne. destruct d as [|[k0 v0] d'] eqn:Hd.
  { by apply elem_of_nil in H1. }
  rewrite <- Hd in *. rewrite (convert_nonempty d d' k0 v0 Hd).
  rewrite for_each_check.
  destruct (forallb _ d) eqn:Hall; [|done]. exfalso.
  rewrite forallb_forall in Hall.
  pose proof (Hall (k1, v1) (proj1 (list_elem_of_In _ _) H1)) as E1.
  pose proof (Hall (k2, v2) (proj1 (list_elem_of_In _ _) H2)) as E2.
  cbn in E1, E2. apply Nat.eqb_eq in E1, E2. lia.
Qed.

(** Lists of one length [n] give [n] dicts, the [i]-th holding under each
    key the [i]-th item of that key's list. *)
Lemma convert_equal {A : Type} (d : list (string * list A)) (n : nat) :
  d <> [] -> NoDup d.*1 ->
  (forall kv, kv ∈ d -> length kv.2 = n) ->
  exists dicts,
    convert_dict_of_lists_to_list_of_dicts d = Ok dicts
    /\ Forall2 (fun i dict =>
                  Forall2 (fun kv e => e.1 = kv.1 /\ kv.2 !! i = Some e.2)
                    d dict)
         (seq 0 n) dicts.
Proof.
  intros Hne Hnd Hlen. destruct d as [|[k0 v0] d'] eqn:Hd; [done|].
  rewrite <- Hd in *. rewrite (convert_nonempty d d' k0 v0 Hd).
  assert (Hv0 : length v0 = n).
  { apply (Hlen (k0, v0)). rewrite Hd. by left. }
  rewrite Hv0, for_each_check.
  assert (forallb (fun kv : string * list A => Nat.eqb (length kv.2) n) d
          = true) as ->.
  { apply forallb_forall. intros kv Hin. apply Nat.eqb_eq, Hlen.
    by apply list_elem_of_In. }
  cbn [mbind result_bind]. unfold py.range. rewrite Nat.sub_0_r.
  apply mapM_Forall2. intros i Hi%elem_of_seq.
  apply mapM_Forall2. intros [k v] Hkv. cbn [fst snd].
  rewrite (dict_getitem_NoDup d k v Hnd Hkv). cbn [mbind result_bind].
  specialize (Hlen _ Hkv). cbn in Hlen.
  destruct (lookup_lt_is_Some_2 v i) as [x Hx]; [lia|].
  exists (k, x). unfold py.getitem. rewrite Hx. by cbn.
Qed.

(** The loop of [model_post_init]: every spec is replayed on the table as
    it was stored, whatever the earlier specs did. *)
Lemma recover_tables_run (df : DataFrame) (specs : list TableDeltaSpec) :
  forall (σ : list DataFrame) (acc : list nat) (seen : list TableDeltaSpec),
    σ !! 0%nat = Some df ->
    Forall2 (fun spec r => σ !! r = Some (replay df spec)) seen acc ->
    exists (rs : list nat) (extra : list DataFrame),
      for_in specs acc (fun recovered_table_dfs spec =>
          r ← apply_transform_spec 0%nat spec;
          mret (recovered_table_dfs ++ [r])) σ
      = Ok (rs, σ ++ extra)
      /\ Forall2 (fun spec r => (σ ++ extra) !! r = Some (replay df spec))
           (seen ++ specs) rs.
Proof.
  induction specs as [|spec specs IH]; intros σ acc seen H0 Hseen.
  - exists acc, []. rewrite !app_nil_r. by split.
  - cbn [for_in]. rewrite bind_run, bind_run.
    destruct (apply_transform_spec_run σ 0%nat df spec H0)
      as (r & extra & -> & Hr & _).
    cbn [mret M_ret].
    destruct (IH (σ ++ extra) (acc ++ [r]) (seen ++ [spec]))
      as (rs & extra' & Hrun & Hall).
    + rewrite lookup_app_l; [done|]. by eapply lookup_lt_Some.
    + apply Forall2_app; [|by repeat constructor].
      eapply Forall2_impl; [exact Hseen|]. cbn. intros s q Hq.
      rewrite lookup_app_l; [done|]. by eapply lookup_lt_Some.
    + exists rs, (extra ++ extra'). rewrite (app_assoc σ extra extra').
      split; [done|].
      by rewrite <- (app_assoc seen [spec] specs) in Hall.
Qed.

Lemma mapM_cons {A B : Type} (f : A -> result B) (x : A) (xs : list A) :
  mapM f (x :: xs) = y ← f x; ys ← mapM f xs; Ok (y :: ys).
Proof. reflexivity. Qed.

Lemma mapM_deref (σ : list DataFrame) (df : DataFrame)
    (specs : list TableDeltaSpec) (rs : list nat) :
  Forall2 (fun spec r => σ !! r = Some (replay df spec)) specs rs ->
  mapM (deref σ) rs = Ok (map (replay df) specs).
Proof.
  induction 1 as [|spec r specs rs Hr _ IH]; [done|].
  rewrite mapM_cons, IH. unfold deref. by rewrite Hr.
Qed.

Lemma model_post_init_eq (table : DataTable) (f : transform_spec_field) :
  model_post_init table f
  = specs ← normalize f;
    df ← to_df table;
    Ok {| recovered_tables_transform_spec := specs;
          table_df := df;
          recovered_table_dfs := map (replay df) specs |}.
Proof.
  unfold model_post_init.
  destruct (normalize f) as [specs|e]; [|done]. cbn [mbind result_bind].
  destruct (to_df table) as [df|e]; [|done]. cbn [mbind result_bind].
  unfold recover_tables.
  destruct (recover_tables_run df specs [df] [] [] eq_refl
              (Forall2_nil_2 _ _ _))
    as (rs & extra & -> & Hall).
  by rewrite (mapM_deref _ df specs rs Hall).
Qed.

End legacy_shape.

Section matcher_bounds.
Import difflib.
Local Open Scope nat_scope.
Variables a b : list string.

Lemma scan_row_bounds (i alo ahi blo bhi : nat) (J : gmap nat nat) :
  alo <= i < ahi ->
  (forall j k, J !! j = Some k -> blo <= j /\ k <= i - alo /\ k <= j + 1 - blo) ->
  forall (js : list nat) (newJ : gmap nat nat) (bi bj bs : nat),
    (alo <= bi /\ bi + bs <= ahi /\ blo <= bj /\ bj + bs <= bhi) ->
    (forall j k, newJ !! j = Some k ->
                 blo <= j /\ k <= i + 1 - alo /\ k <= j + 1 - blo) ->
    exists newJ' bi' bj' bs',
      scan_row js i blo bhi J newJ (bi, bj, bs) = (newJ', (bi', bj', bs'))
      /\ (alo <= bi' /\ bi' + bs' <= ahi /\ blo <= bj' /\ bj' + bs' <= bhi)
      /\ (forall j k, newJ' !! j = Some k ->
                      blo <= j /\ k <= i + 1 - alo /\ k <= j + 1 - blo).
Proof.
  intros Hi HJ js.
  induction js as [|j js IH]; intros newJ bi bj bs Hbest HnewJ.
  - by exists newJ, bi, bj, bs.
  - cbn [scan_row].
    destruct (Nat.ltb j blo) eqn:Hlo; [by apply IH|].
    destruct (Nat.leb bhi j) eqn:Hhi; [by exists newJ, bi, bj, bs|].
    apply Nat.ltb_ge in Hlo. apply Nat.leb_gt in Hhi. cbn [snd].
    set (k := j2lenget_pred J j + 1).
    assert (Hk : k <= i + 1 - alo /\ k <= j + 1 - blo).
    { unfold k. destruct j as [|j']; cbn; [lia|].
      destruct (J !! j') as [k0|] eqn:Hk0; cbn; [|lia].
      destruct (HJ j' k0 Hk0) as (? & ? & ?). lia. }
    assert (HnewJ' : forall j0 k0, <[j := k]> newJ !! j0 = Some k0 ->
               blo <= j0 /\ k0 <= i + 1 - alo /\ k0 <= j0 + 1 - blo).
    { intros j0 k0 Hl. destruct (decide (j = j0)) as [<-|Hne].
      - rewrite lookup_insert_eq in Hl. injection Hl as <-. lia.
      - rewrite lookup_insert_ne in Hl by done. by apply HnewJ. }
    destruct (Nat.ltb bs k) eqn:Hupd; apply IH; try done. lia.
Qed.

Lemma scan_rows_bounds (alo ahi blo bhi : nat) (m : nat) :
  forall (i : nat) (J : gmap nat nat) (bi bj bs : nat),
    alo <= i -> i + m = ahi ->
    (forall j k, J !! j = Some k -> blo <= j /\ k <= i - alo /\ k <= j + 1 - blo) ->
    (alo <= bi /\ bi + bs <= ahi /\ blo <= bj /\ bj + bs <= bhi) ->
    exists bi' bj' bs',
      scan_rows a b (seq i m) blo bhi J (bi, bj, bs) = (bi', bj', bs')
      /\ (alo <= bi' /\ bi' + bs' <= ahi /\ blo <= bj' /\ bj' + bs' <= bhi).
Proof.
  induction m as [|m IH]; intros i J bi bj bs Halo Him HJ Hbest.
  - by exists bi, bj, bs.
  - cbn [seq scan_rows].
    destruct (scan_row_bounds i alo ahi blo bhi J ltac:(lia) HJ
                (default [] (a !! i ≫= fun elt => b2j b !! elt))
                ∅ bi bj bs Hbest)
      as (newJ' & bi' & bj' & bs' & -> & Hbest' & HnewJ'); [done|].
    apply IH; try done; [lia|lia|].
    intros j k Hl. destruct (HnewJ' j k Hl) as (? & ? & ?). lia.
Qed.

Lemma extend_back_bounds (junk : bool) (alo ahi blo bhi : nat) (bi : nat) :
  forall bj bs,
    (alo <= bi /\ bi + bs <= ahi /\ blo <= bj /\ bj + bs <= bhi) ->
    exists bi' bj' bs',
      extend_back a b junk alo blo bi bj bs = (bi', bj', bs')
      /\ (alo <= bi' /\ bi' + bs' <= ahi /\ blo <= bj' /\ bj' + bs' <= bhi).
Proof.
  induction bi as [|bi IH]; intros bj bs Hbest.
  - by exists 0, bj, bs.
  - destruct bj as [|bj]; [by exists (S bi), 0, bs|].
    cbn [extend_back].
    destruct (Nat.ltb alo (S bi)) eqn:H1; [|by exists (S bi), (S bj), bs].
    destruct (Nat.ltb blo (S bj)) eqn:H2; [|by exists (S bi), (S bj), bs].
    apply Nat.ltb_lt in H1, H2. cbn [andb].
    destruct (_ && _); [|by exists (S bi), (S bj), bs].
    apply IH. lia.
Qed.

Lemma extend_forward_bounds (junk : bool) (ahi bhi bi bj : nat) (fuel : nat) :
  forall bs,
    bi + bs <= ahi -> bj + bs <= bhi ->
    bi + extend_forward a b fuel junk ahi bhi bi bj bs <= ahi
    /\ bj + extend_forward a b fuel junk ahi bhi bi bj bs <= bhi.
Proof.
  induction fuel as [|fuel IH]; intros bs Ha Hb; [done|].
  cbn [extend_forward].
  destruct (Nat.ltb (bi + bs) ahi) eqn:H1; [|done].
  destruct (Nat.ltb (bj + bs) bhi) eqn:H2; [|done].
  apply Nat.ltb_lt in H1, H2. cbn [andb].
  destruct (_ && _); [|done]. apply IH; lia.
Qed.

Lemma extend_bounds (junk : bool) (alo ahi blo bhi bi bj bs : nat) :
  (alo <= bi /\ bi + bs <= ahi /\ blo <= bj /\ bj + bs <= bhi) ->
  exists bi' bj' bs',
    extend a b junk alo ahi blo bhi (bi, bj, bs) = (bi', bj', bs')
    /\ (alo <= bi' /\ bi' + bs' <= ahi /\ blo <= bj' /\ bj' + bs' <= bhi).
Proof.
  intros Hbest. unfold extend.
  destruct (extend_back_bounds junk alo ahi blo bhi bi bj bs Hbest)
    as (bi' & bj' & bs' & -> & Hb').
  eexists _, _, _. split; [done|].
  pose proof (extend_forward_bounds junk ahi bhi bi' bj'
                (ahi - (bi' + bs')) bs') as Hf.
  lia.
Qed.

(** The longest match lies inside the region it is looked for in. *)
Lemma find_longest_match_bounds (alo ahi blo bhi : nat) :
  alo <= ahi -> blo <= bhi ->
  exists i j k,
    find_longest_match a b alo ahi blo bhi = (i, j, k)
    /\ alo <= i /\ i + k <= ahi /\ blo <= j /\ j + k <= bhi.
Proof.
  intros Ha Hb. unfold find_longest_match, py.range.
  destruct (scan_rows_bounds alo ahi blo bhi (ahi - alo) alo ∅ alo blo 0)
    as (bi & bj & bs & -> & Hbest); try done; try lia.
  destruct (extend_bounds false alo ahi blo bhi bi bj bs Hbest)
    as (bi1 & bj1 & bs1 & -> & Hbest1).
  destruct (extend_bounds true alo ahi blo bhi bi1 bj1 bs1 Hbest1)
    as (bi2 & bj2 & bs2 & -> & Hbest2).
  by exists bi2, bj2, bs2.
Qed.

(** With [2 * (ahi - alo) + 1] turns for every queued region, the loop of
    [get_matching_blocks] ends with an empty queue. *)
Lemma blocks_loop_completes (fuel : nat) :
  forall (queue : list (nat * nat * nat * nat)) (blocks : list (nat * nat * nat)),
    Forall (fun r => r.1.1.1 <= r.1.1.2 /\ r.1.2 <= r.2) queue ->
    foldr (fun r w => 2 * (r.1.1.2 - r.1.1.1) + 1 + w) 0 queue <= fuel ->
    (blocks_loop a b fuel queue blocks).1 = [].
Proof.
  induction fuel as [|fuel IH]; intros queue blocks Hwf Hw.
  - destruct queue as [|[[[alo ahi] blo] bhi] queue]; [done|].
    cbn [foldr fst snd] in Hw. lia.
  - destruct queue as [|[[[alo ahi] blo] bhi] queue]; [done|].
    apply Forall_cons in Hwf as [[Ha Hb] Hwf].
    cbn [foldr fst snd] in Ha, Hb, Hw.
    cbn [blocks_loop].
    destruct (find_longest_match_bounds alo ahi blo bhi Ha Hb)
      as (i & j & k & -> & Hi1 & Hi2 & Hj1 & Hj2).
    destruct (Nat.eqb k 0) eqn:Hk.
    + apply IH; [done|lia].
    + apply Nat.eqb_neq in Hk.
      destruct (Nat.ltb alo i && Nat.ltb blo j) eqn:H1;
        destruct (Nat.ltb (i + k) ahi && Nat.ltb (j + k) bhi) eqn:H2;
        try (apply andb_true_iff in H1 as [H1a H1b];
             apply Nat.ltb_lt in H1a, H1b);
        try (apply andb_true_iff in H2 as [H2a H2b];
             apply Nat.ltb_lt in H2a, H2b);
        apply IH; repeat (apply Forall_cons; split); try done;
        cbn [foldr fst snd]; lia.
Qed.

Lemma get_matching_blocks_completes :
  (blocks_loop a b (2 * length a + 1) [(0, length a, 0, length b)] []).1 = [].
Proof.
  apply blocks_loop_completes.
  - repeat constructor; cbn [fst snd]; lia.
  - cbn [foldr fst snd]. lia.
Qed.

End matcher_bounds.

Section csv_text.
Import pd.

Lemma lstrip_chars_snoc (s : list ascii) (c : ascii) :
  py.isspace c = false ->
  exists s', py.lstrip_chars (s ++ [c]) = s' ++ [c].
Proof.
  intros Hc. induction s as [|x s IH]; cbn.
  - rewrite Hc. by exists [].
  - destruct (py.isspace x); [done|]. by exists (x :: s).
Qed.

(** Stripping keeps a first character that is not white space. *)
Lemma strip_head (c : ascii) (s : string) :
  py.isspace c = false ->
  exists s', py.strip (String c s) = String c s'.
Proof.
  intros Hc. unfold py.strip. cbn [list_ascii_of_string py.lstrip_chars].
  rewrite Hc. cbn [rev].
  destruct (lstrip_chars_snoc (rev (list_ascii_of_string s)) c Hc)
    as (s' & ->).
  rewrite rev_app_distr. cbn. by eexists.
Qed.

Lemma splitlines_from_nonempty (s cur : list ascii) :
  cur <> [] -> py.splitlines_from cur s <> [].
Proof.
  revert cur. induction s as [|c s IH]; intros cur Hcur; cbn.
  - by destruct cur.
  - destruct (py.is_linebreak c); [done|]. by apply IH.
Qed.

Lemma linebreak_isspace (c : ascii) :
  py.isspace c = false -> py.is_linebreak c = false.
Proof.
  destruct c as [b0 b1 b2 b3 b4 b5 b6 b7].
  by destruct b0, b1, b2, b3, b4, b5, b6, b7.
Qed.

Lemma splitlines_head (c : ascii) (s : string) :
  py.isspace c = false -> py.splitlines (String c s) <> [].
Proof.
  intros Hc. unfold py.splitlines. cbn [list_ascii_of_string py.splitlines_from].
  rewrite (linebreak_isspace c Hc). by apply splitlines_from_nonempty.
Qed.

Lemma fold_append_head (xs : list string) (c : ascii) (s : string) :
  exists s', fold_left String.append xs (String c s) = String c s'.
Proof.
  revert s. induction xs as [|x xs IH]; intros s; cbn; [by eexists|].
  apply IH.
Qed.

Lemma join_head (sep : string) (xs : list string) (c : ascii) (s : string) :
  exists s', pd_io.join sep (String c s :: xs) = String c s'.
Proof.
  unfold pd_io.join. revert s.
  induction xs as [|x xs IH]; intros s; cbn [fold_left]; [by eexists|].
  apply (IH (s +:+ sep +:+ x)).
Qed.

Lemma write_row_head (c : ascii) (name : string) (more : list string) :
  py.isspace c = false ->
  exists (c' : ascii) (s' : string),
    pd_io.write_row (String c name :: more) = String c' s'
    /\ py.isspace c' = false.
Proof.
  intros Hc. unfold pd_io.write_row. cbn [map].
  unfold pd_io.write_field at 1.
  destruct (pd_io.needs_quote (String c name)).
  - change (String pd_io.DQUOTE (pd_io.double_quotes (String c name))
            +:+ String pd_io.DQUOTE EmptyString)
      with (String pd_io.DQUOTE
              (pd_io.double_quotes (String c name)
               +:+ String pd_io.DQUOTE EmptyString)).
    destruct (join_head (String pd_io.COMMA EmptyString)
                (map pd_io.write_field more) pd_io.DQUOTE
                (pd_io.double_quotes (String c name)
                 +:+ String pd_io.DQUOTE EmptyString)) as (s' & ->).
    exists pd_io.DQUOTE. eexists. split; [|done]. reflexivity.
  - destruct (join_head (String pd_io.COMMA EmptyString)
                (map pd_io.write_field more) c name) as (s' & ->).
    exists c. eexists. split; [|done]. reflexivity.
Qed.

(** A table whose first column name starts with a visible character has a
    header line in its CSV text. *)
Lemma visible_header_str_lines (df : DataFrame) :
  pd_io.visible_header df ->
  transform_spec.str_lines pd_io.to_csv df <> [].
Proof.
  intros (c & name & more & Hcols & Hc).
  unfold transform_spec.str_lines, pd_io.to_csv. rewrite Hcols.
  destruct (write_row_head c name more Hc) as (c' & s' & -> & Hc').
  destruct (fold_append_head
              (map (fun cs => pd_io.write_row (map pd_io.render cs))
                 (cells df)) c' s') as (s'' & ->).
  destruct (strip_head c' s'' Hc') as (s3 & ->).
  by apply splitlines_head.
Qed.

(** The identity on CSV text: a table with a visible header, inferred
    against itself, gives the empty spec. *)
Lemma generate_self_csv (df : DataFrame) :
  pd_io.visible_header df ->
  transform_spec.generate_transform_spec_delete_overwrite
    pd_io.to_csv pd_io.read_csv df df
  = Ok {| perturb.drop_rows := []; perturb.overwrite_cells := [] |}.
Proof.
  intros Hv. by apply generate_self, visible_header_str_lines.
Qed.

End csv_text.

(** * The claims *)

Section claims.
Import pd perturb replay transform_spec utils.

(** C1 (round-trip law), evaluated where it fails.  The target drops row
    "b" of [S] and changes nothing else.  The inferrer does accumulate
    [delete_rows = [1]], but the spec it returns has no deletion, so
    replaying that spec on [S] gives [S] back, three rows, and not the
    two rows of the target. *)
Theorem round_trip_lost_deletion :
  delete_rows_and_overwrite_cells pd_io.to_csv pd_io.read_csv
    scenario.S scenario.T_deleted = Ok ([1], [])
  /\ generate_transform_spec_delete_overwrite pd_io.to_csv pd_io.read_csv
       scenario.S scenario.T_deleted = Ok scenario.empty_spec
  /\ applied scenario.S scenario.empty_spec = Ok scenario.S
  /\ scenario.S <> scenario.T_deleted.
Proof.
  split; [by vm_compute|]. split; [by vm_compute|].
  split; [by vm_compute|]. by vm_compute.
Qed.

(** C2, as stated, fails: on the scenario's [S] and [T] the inferrer does
    not return [drop_rows=[1]] with the single overwrite of row 2. *)
Lemma scenario_spec_not_returned :
  ~ (generate_transform_spec_delete_overwrite pd_io.to_csv pd_io.read_csv
       scenario.S scenario.T = Ok scenario.expected_spec
     /\ applied scenario.S scenario.expected_spec = Ok scenario.T).
Proof. intros [H _]. vm_compute in H. discriminate. Qed.

(** C2 amended: on the scenario's [S] and [T] the aligner pairs source row
    1 with target row 1 and leaves source row 2 over, so the inferrer
    accumulates the deletion of row 2 and two overwrites of row 1, and
    returns exactly these overwrites; replaying the accumulated lists on
    [S] reproduces [T], and so does replaying the spec the scenario
    names. *)
Theorem scenario_amended :
  delete_rows_and_overwrite_cells pd_io.to_csv pd_io.read_csv
    scenario.S scenario.T
  = Ok (drop_rows scenario.accumulated_spec,
        overwrite_cells scenario.accumulated_spec)
  /\ (exists spec,
        generate_transform_spec_delete_overwrite pd_io.to_csv
          pd_io.read_csv scenario.S scenario.T = Ok spec
        /\ overwrite_cells spec = overwrite_cells scenario.accumulated_spec)
  /\ applied scenario.S scenario.accumulated_spec = Ok scenario.T
  /\ applied scenario.S scenario.expected_spec = Ok scenario.T.
Proof.
  split; [by vm_compute|]. split.
  - eexists. split; [by vm_compute|done].
  - split; by vm_compute.
Qed.

(** C3, as stated, fails: an overwrite under a column name the table does
    not have is not refused; the call returns the table with that column
    appended. *)
Lemma unknown_column_not_refused :
  ("zip"%string ∉ columns scenario.S)
  /\ applied scenario.S scenario.unknown_column_spec
     = Ok {| columns := ["name"; "value"; "zip"]%string;
             rows := RangeIndex
                       [ [VStr "a"; VStr "1"; VStr "9"];
                         [VStr "b"; VStr "2"; VNone];
                         [VStr "c"; VStr "3"; VNone] ] |}.
Proof.
  split; [|by vm_compute].
  cbn. rewrite !not_elem_of_cons. repeat split; try done.
  apply not_elem_of_nil.
Qed.

(** C3 amended: on a table with the default index and one cell per column
    in every row, an overwrite whose column is not among the headers and
    whose row is in range raises nothing: the table comes back with that
    column appended, holding the new value in that row and a missing value
    in every other row; when the row is at or past the end the overwrite
    is skipped and the table comes back as it was. *)
Theorem unknown_column_appended (df : DataFrame) (op : OverwriteCell) :
  default_index df -> rectangular df -> col op ∉ columns df ->
  0 <= row op ->
  applied df {| drop_rows := []; overwrite_cells := [op] |}
  = Ok (if row op <? pd.len df
        then {| columns := columns df ++ [col op];
                rows := map (fun rw =>
                               (rw.1, rw.2 ++ [if rw.1 =? row op
                                               then new_value op
                                               else VNone]))
                          (rows df) |}
        else df).
Proof.
  intros Hd Hrect Hc Hrow. rewrite applied_replay. f_equal.
  unfold replay. cbn. unfold overwrite_step.
  destruct (row op <? pd.len df) eqn:Hlt; [|done].
  apply loc_setitem_new_column; [done| |done].
  apply has_label_default_index; [done|lia].
Qed.

Lemma unknown_column_appended_witness :
  applied scenario.S scenario.unknown_column_spec
  = Ok (if 0 <? pd.len scenario.S
        then {| columns := columns scenario.S ++ ["zip"%string];
                rows := map (fun rw =>
                               (rw.1, rw.2 ++ [if rw.1 =? 0
                                               then VStr "9"
                                               else VNone]))
                          (rows scenario.S) |}
        else scenario.S).
Proof.
  apply (unknown_column_appended scenario.S (scenario.overwrite 0 "zip" "9")).
  - reflexivity.
  - unfold rectangular. cbn. repeat constructor.
  - cbn. rewrite !not_elem_of_cons. repeat split; try done.
    apply not_elem_of_nil.
  - cbn. lia.
Defined.

(** C4: whenever the inferrer returns a spec, its [drop_rows] is empty.
    The row indices accumulated for deletion go to the constructor under
    the keyword [delete_rows], which names no field of [TableDeltaSpec];
    the constructor drops it and [drop_rows] keeps its default.  The
    accumulated overwrites are returned as they are. *)
Theorem generated_drop_rows_empty
    (to_csv : DataFrame -> string) (read_csv : string -> result DataFrame)
    (df df_recovered : DataFrame) (spec : TableDeltaSpec) :
  generate_transform_spec_delete_overwrite to_csv read_csv df df_recovered
  = Ok spec ->
  drop_rows spec = []
  /\ (exists delete_rows,
        delete_rows_and_overwrite_cells to_csv read_csv df df_recovered
        = Ok (delete_rows, overwrite_cells spec)
        /\ TableDeltaSpec_init
             [ ("delete_rows"%string, PList (map PInt delete_rows));
               ("overwrite_cells"%string,
                PList (map PCell (overwrite_cells spec))) ]
           = Ok spec).
Proof.
  rewrite generate_eq. intros Hrun.
  apply bind_Ok in Hrun as ([dr ows] & Hacc & Hspec).
  injection Hspec as <-. split; [done|]. exists dr. split; [done|].
  apply TableDeltaSpec_init_delete_rows.
Qed.

Lemma generated_drop_rows_empty_witness :
  drop_rows scenario.empty_spec = []
  /\ (exists delete_rows,
        delete_rows_and_overwrite_cells pd_io.to_csv pd_io.read_csv
          scenario.S scenario.T_deleted
        = Ok (delete_rows, overwrite_cells scenario.empty_spec)
        /\ TableDeltaSpec_init
             [ ("delete_rows"%string, PList (map PInt delete_rows));
               ("overwrite_cells"%string,
                PList (map PCell (overwrite_cells scenario.empty_spec))) ]
           = Ok scenario.empty_spec).
Proof.
  apply (generated_drop_rows_empty pd_io.to_csv pd_io.read_csv
           scenario.S scenario.T_deleted scenario.empty_spec).
  vm_compute. reflexivity.
Defined.

(** C5 (tolerant replay): on a table with the default index, a spec whose
    overwrite rows are non-negative is replayed without raising, and the
    result is the one obtained from the in-range part of the spec alone:
    every deletion and every overwrite whose row is at or past the table's
    row count is skipped. *)
Theorem tolerant_replay (df : DataFrame) (spec : TableDeltaSpec) :
  default_index df ->
  Forall (fun op => 0 <= row op) (overwrite_cells spec) ->
  applied df spec = Ok (replay df (in_range (pd.len df) spec))
  /\ applied df spec = applied df (in_range (pd.len df) spec).
Proof.
  intros Hd Hrows. rewrite !applied_replay.
  by rewrite <- (replay_in_range df spec Hd Hrows).
Qed.

Lemma tolerant_replay_witness :
  applied scenario.S scenario.long_spec
  = Ok (replay scenario.S (in_range (pd.len scenario.S) scenario.long_spec))
  /\ applied scenario.S scenario.long_spec
     = applied scenario.S (in_range (pd.len scenario.S) scenario.long_spec).
Proof.
  apply (tolerant_replay scenario.S scenario.long_spec).
  - reflexivity.
  - cbn. repeat constructor; cbn; lia.
Defined.

(** C6 (missing-value equivalence): when the two values compared at a
    column are both missing, whatever text they were read from, no
    overwrite is emitted for that cell; and every overwrite of a returned
    spec goes back to a source line and a target line whose values at its
    column, read under the header, are not both missing and differ. *)
Theorem both_missing_no_overwrite
    (to_csv : DataFrame -> string) (read_csv : string -> result DataFrame) :
  (forall (i : nat) (row1 row2 : Series) (acc : list OverwriteCell)
          (c : string) (val1 val2 : value),
      series_getitem row1 c = Ok (Scalar val1) ->
      series_getitem row2 c = Ok (Scalar val2) ->
      isna val1 = true -> isna val2 = true ->
      compare_cell i row1 row2 acc c = Ok acc)
  /\ (forall (df df_recovered : DataFrame) (spec : TableDeltaSpec),
        generate_transform_spec_delete_overwrite to_csv read_csv
          df df_recovered = Ok spec ->
        exists header,
          str_lines to_csv df !! 0%nat = Some header
          /\ Forall (compared_and_different read_csv (str_lines to_csv df)
                       (str_lines to_csv df_recovered) header)
               (overwrite_cells spec)).
Proof.
  split.
  - intros. by eapply compare_cell_both_missing.
  - intros. by apply generate_justified.
Qed.

Lemma both_missing_no_overwrite_witness :
  generate_transform_spec_delete_overwrite pd_io.to_csv pd_io.read_csv
    scenario.S_missing scenario.T_missing
  = Ok {| drop_rows := [];
          overwrite_cells := [scenario.overwrite 0 "name" "b"] |}
  /\ compare_cell 0 [("name", VStr "a"); ("value", VNone)]%string
       [("name", VStr "b"); ("value", VNone)]%string [] "value"
     = Ok []
  /\ exists header,
       str_lines pd_io.to_csv scenario.S_missing !! 0%nat = Some header
       /\ Forall (compared_and_different pd_io.read_csv
                    (str_lines pd_io.to_csv scenario.S_missing)
                    (str_lines pd_io.to_csv scenario.T_missing) header)
            [scenario.overwrite 0 "name" "b"].
Proof.
  split; [by vm_compute|].
  destruct (both_missing_no_overwrite pd_io.to_csv pd_io.read_csv)
    as [Hcell Hspec].
  split.
  - apply (Hcell 0%nat _ _ [] "value"%string VNone VNone); reflexivity.
  - apply (Hspec scenario.S_missing scenario.T_missing
             {| drop_rows := [];
                overwrite_cells := [scenario.overwrite 0 "name" "b"] |}).
    vm_compute. reflexivity.
Defined.

(** C7 (identity): for a table whose CSV text has a header line, inferring
    the spec of the table against itself gives the empty spec, and
    replaying the empty spec on any table gives the table back. *)
Theorem identity_spec
    (to_csv : DataFrame -> string) (read_csv : string -> result DataFrame)
    (df : DataFrame) :
  str_lines to_csv df <> [] ->
  generate_transform_spec_delete_overwrite to_csv read_csv df df
  = Ok {| drop_rows := []; overwrite_cells := [] |}
  /\ applied df {| drop_rows := []; overwrite_cells := [] |} = Ok df.
Proof.
  intros Hlines. split; [by apply generate_self|].
  by rewrite applied_replay.
Qed.

Lemma identity_spec_witness :
  generate_transform_spec_delete_overwrite pd_io.to_csv pd_io.read_csv
    scenario.S scenario.S
  = Ok {| drop_rows := []; overwrite_cells := [] |}
  /\ applied scenario.S {| drop_rows := []; overwrite_cells := [] |}
     = Ok scenario.S.
Proof.
  apply (identity_spec pd_io.to_csv pd_io.read_csv scenario.S).
  vm_compute. discriminate.
Defined.

(** C8 (delete-order independence): two specs that differ only in the
    order of [drop_rows] are replayed alike, in every store: the applier
    sorts the deletions in descending order, and the sorted list does not
    depend on the order of the input. *)
Theorem drop_rows_order_irrelevant (drops1 drops2 : list Z)
    (ows : list OverwriteCell) :
  drops1 ≡ₚ drops2 ->
  py.sorted_reverse drops1 = py.sorted_reverse drops2
  /\ descending (py.sorted_reverse drops1)
  /\ py.sorted_reverse drops1 ≡ₚ drops1
  /\ (forall (r : nat) (σ : list DataFrame),
        apply_transform_spec r
          {| drop_rows := drops1; overwrite_cells := ows |} σ
        = apply_transform_spec r
            {| drop_rows := drops2; overwrite_cells := ows |} σ)
  /\ (forall df : DataFrame,
        applied df {| drop_rows := drops1; overwrite_cells := ows |}
        = applied df {| drop_rows := drops2; overwrite_cells := ows |}).
Proof.
  intros Hperm.
  pose proof (sorted_reverse_Permutation drops1 drops2 Hperm) as Hsort.
  split; [done|]. split; [apply sorted_reverse_descending|].
  split; [apply sorted_reverse_perm|].
  assert (Hrun : forall (r : nat) (σ : list DataFrame),
            apply_transform_spec r
              {| drop_rows := drops1; overwrite_cells := ows |} σ
            = apply_transform_spec r
                {| drop_rows := drops2; overwrite_cells := ows |} σ).
  { intros r σ. unfold apply_transform_spec. cbn [drop_rows overwrite_cells].
    by rewrite Hsort. }
  split; [done|]. intros df. unfold applied. by rewrite Hrun.
Qed.

Lemma drop_rows_order_irrelevant_witness :
  applied (scenario.table (replicate 9 ["r"; "0"]%string))
    {| drop_rows := [5; 2; 8]; overwrite_cells := [] |}
  = applied (scenario.table (replicate 9 ["r"; "0"]%string))
      {| drop_rows := [8; 5; 2]; overwrite_cells := [] |}.
Proof.
  refine (proj2 (proj2 (proj2 (proj2
    (drop_rows_order_irrelevant [5; 2; 8] [8; 5; 2] [] _)))) _).
  change [5; 2; 8] with ([5; 2] ++ [8]).
  symmetry. apply Permutation_cons_append.
Defined.

(** C9 (no aliasing): in any store, a call on the frame bound to [r]
    returns a name other than [r], leaves [r] bound to the very frame it
    was bound to, and changes no other frame the store held; the returned
    name is bound to the replayed frame. *)
Theorem apply_transform_spec_leaves_source (σ : list DataFrame) (r : nat)
    (df : DataFrame) (spec : TableDeltaSpec) :
  σ !! r = Some df ->
  exists (r' : nat) (σ' : list DataFrame),
    apply_transform_spec r spec σ = Ok (r', σ')
    /\ σ' !! r = Some df
    /\ r' <> r
    /\ (forall (q : nat) (other : DataFrame),
          σ !! q = Some other -> σ' !! q = Some other)
    /\ σ' !! r' = Some (replay df spec).
Proof.
  intros Hr.
  destruct (apply_transform_spec_run σ r df spec Hr)
    as (r' & extra & Hrun & Hget & Hfresh).
  exists r', (σ ++ extra). split; [done|].
  assert (Hkeep : forall (q : nat) (other : DataFrame),
            σ !! q = Some other -> (σ ++ extra) !! q = Some other).
  { intros q other Hq. rewrite lookup_app_l; [done|].
    by eapply lookup_lt_Some. }
  split; [by apply Hkeep|]. split; [|by split].
  apply lookup_lt_Some in Hr. lia.
Qed.

Lemma apply_transform_spec_leaves_source_witness :
  exists (r' : nat) (σ' : list DataFrame),
    apply_transform_spec 0%nat scenario.accumulated_spec [scenario.S]
    = Ok (r', σ')
    /\ σ' !! 0%nat = Some scenario.S
    /\ r' <> 0%nat
    /\ (forall (q : nat) (other : DataFrame),
          [scenario.S] !! q = Some other -> σ' !! q = Some other)
    /\ σ' !! r' = Some (replay scenario.S scenario.accumulated_spec).
Proof.
  apply (apply_transform_spec_leaves_source [scenario.S] 0%nat scenario.S
           scenario.accumulated_spec).
  reflexivity.
Defined.

(** C10 (legacy shape): [model_post_init] turns a dict of lists into the
    list of specs before it replays any of them.
    The empty dict gives the empty list.  A dict holding lists of unequal
    lengths makes the conversion, and with it the construction, raise.  A
    dict whose lists all have length [n] gives [n] dicts, the [i]-th
    holding under every key the [i]-th item of that key's list.  When the
    construction succeeds, the stored specs are the [TableDeltaSpec]s
    built from these dicts, one per dict, and the recovered tables are
    the replays of these specs on the stored table. *)
Theorem legacy_shape_normalized :
  (convert_dict_of_lists_to_list_of_dicts
     ([] : list (string * list pyobj)) = Ok []
   /\ datamodel.normalize (datamodel.SpecDict []) = Ok [])
  /\ (forall (d : list (string * list pyobj)) (k1 k2 : string)
             (v1 v2 : list pyobj) (table : datamodel.DataTable),
        (k1, v1) ∈ d -> (k2, v2) ∈ d -> length v1 <> length v2 ->
        convert_dict_of_lists_to_list_of_dicts d = Raise ValueError
        /\ datamodel.normalize (datamodel.SpecDict d) = Raise ValueError
        /\ datamodel.model_post_init table (datamodel.SpecDict d)
           = Raise ValueError)
  /\ (forall (d : list (string * list pyobj)) (n : nat),
        d <> [] -> NoDup d.*1 ->
        (forall kv, kv ∈ d -> length kv.2 = n) ->
        exists dicts,
          convert_dict_of_lists_to_list_of_dicts d = Ok dicts
          /\ Forall2 (fun i dict =>
                        Forall2 (fun kv e =>
                                   e.1 = kv.1 /\ kv.2 !! i = Some e.2)
                          d dict)
               (seq 0 n) dicts)
  /\ (forall (table : datamodel.DataTable) (d : list (string * list pyobj))
             (m : datamodel.materialized),
        datamodel.model_post_init table (datamodel.SpecDict d) = Ok m ->
        exists dicts,
          convert_dict_of_lists_to_list_of_dicts d = Ok dicts
          /\ Forall2 (fun dict spec => TableDeltaSpec_init dict = Ok spec)
               dicts (datamodel.recovered_tables_transform_spec m)
          /\ datamodel.recovered_table_dfs m
             = map (replay (datamodel.table_df m))
                 (datamodel.recovered_tables_transform_spec m)).
Proof.
  split; [by split|]. split; [|split].
  - intros d k1 k2 v1 v2 table H1 H2 Hne.
    pose proof (convert_unequal d k1 k2 v1 v2 H1 H2 Hne) as Hc.
    split; [done|].
    assert (Hn : datamodel.normalize (datamodel.SpecDict d)
                 = Raise ValueError).
    { unfold datamodel.normalize. by rewrite Hc. }
    split; [done|]. by rewrite model_post_init_eq, Hn.
  - intros d n. apply convert_equal.
  - intros table d m Hm. rewrite model_post_init_eq in Hm.
    apply bind_Ok in Hm as (specs & Hn & Hm).
    apply bind_Ok in Hm as (df & Hdf & Hm). injection Hm as <-.
    unfold datamodel.normalize in Hn.
    apply bind_Ok in Hn as (dicts & Hc & Hspecs).
    exists dicts. split; [done|]. split; [|done].
    by apply mapM_Ok_Forall2.
Qed.

Lemma legacy_shape_normalized_witness :
  (convert_dict_of_lists_to_list_of_dicts scenario.legacy_unequal
   = Raise ValueError
   /\ datamodel.normalize (datamodel.SpecDict scenario.legacy_unequal)
      = Raise ValueError
   /\ datamodel.model_post_init scenario.stored_table
        (datamodel.SpecDict scenario.legacy_unequal)
      = Raise ValueError)
  /\ (exists dicts,
        convert_dict_of_lists_to_list_of_dicts scenario.legacy = Ok dicts
        /\ Forall2 (fun i dict =>
                      Forall2 (fun kv e =>
                                 e.1 = kv.1 /\ kv.2 !! i = Some e.2)
                        scenario.legacy dict)
             (seq 0 2) dicts).
Proof.
  destruct legacy_shape_normalized as (_ & Hunequal & Hequal & _).
  split.
  - apply (Hunequal scenario.legacy_unequal "drop_rows"%string
             "overwrite_cells"%string [PList [PInt 1]; PList []]
             [PList []] scenario.stored_table).
    + unfold scenario.legacy_unequal. apply list_elem_of_here.
    + unfold scenario.legacy_unequal. apply list_elem_of_further,
        list_elem_of_here.
    + cbn. lia.
  - apply (Hequal scenario.legacy 2%nat).
    + discriminate.
    + cbn. apply NoDup_cons. split.
      * rewrite elem_of_cons. intros [H|H]; [discriminate H|].
        by apply elem_of_nil in H.
      * apply NoDup_singleton.
    + intros kv Hkv. unfold scenario.legacy in Hkv.
      apply elem_of_cons in Hkv as [->|Hkv]; [done|].
      apply elem_of_cons in Hkv as [->|Hkv]; [done|].
      by apply elem_of_nil in Hkv.
Defined.

End claims.

Section shape.
Import pd perturb replay.

Lemma set_in_row_length (cols : list string) :
  forall (cs : list value) (c : string) (v : value),
    length (set_in_row cols cs c v) = length cs.
Proof.
  induction cols as [|h cols IH]; intros cs c v; [by destruct cs|].
  destruct cs as [|x cs]; [done|]. cbn. by rewrite IH.
Qed.

Lemma rectangular_alt (df : DataFrame) :
  rectangular df
  <-> forall rw, rw ∈ rows df -> length rw.2 = length (columns df).
Proof.
  unfold rectangular, cells. rewrite Forall_fmap, Forall_forall. done.
Qed.

Lemma add_row_rectangular (r : Z) (df : DataFrame) :
  rectangular df -> rectangular (add_row r df).
Proof.
  rewrite !rectangular_alt. intros H rw Hin. cbn in *.
  apply elem_of_app in Hin as [Hin|Hin]; [by apply H|].
  apply list_elem_of_singleton in Hin as ->. cbn. apply length_replicate.
Qed.

Lemma add_column_rectangular (c : string) (df : DataFrame) :
  rectangular df -> rectangular (add_column c df).
Proof.
  rewrite !rectangular_alt. intros H rw Hin. cbn in *.
  apply list_elem_of_fmap in Hin as (rw0 & -> & Hin0). cbn.
  rewrite !length_app. cbn. rewrite (H rw0 Hin0). done.
Qed.

Lemma set_cells_rectangular (r : Z) (c : string) (v : value)
    (df : DataFrame) :
  rectangular df -> rectangular (set_cells r c v df).
Proof.
  rewrite !rectangular_alt. intros H rw Hin. cbn in *.
  apply list_elem_of_fmap in Hin as (rw0 & -> & Hin0).
  destruct (rw0.1 =? r); cbn; [|by apply H].
  rewrite set_in_row_length. by apply H.
Qed.

Lemma loc_setitem_rectangular (df : DataFrame) (r : Z) (c : string)
    (v : value) :
  rectangular df -> rectangular (pd.loc_setitem df r c v).
Proof.
  intros H. unfold pd.loc_setitem. apply set_cells_rectangular.
  destruct (has_label r df).
  - destruct (has_column c df); [done|by apply add_column_rectangular].
  - destruct (has_column c (add_row r df)).
    + by apply add_row_rectangular.
    + by apply add_column_rectangular, add_row_rectangular.
Qed.

Lemma cells_RangeIndex (cs : list (list value)) :
  (RangeIndex cs).*2 = cs.
Proof.
  unfold RangeIndex. apply snd_zip. rewrite length_seqZ. lia.
Qed.

Lemma labels_RangeIndex (cs : list (list value)) :
  (RangeIndex cs).*1 = seqZ 0 (Z.of_nat (length cs)).
Proof.
  unfold RangeIndex. apply fst_zip. rewrite length_seqZ. lia.
Qed.

Lemma length_RangeIndex (cs : list (list value)) :
  length (RangeIndex cs) = length cs.
Proof. by rewrite <- (length_fmap snd), cells_RangeIndex. Qed.

Lemma reset_index_drop_cells (df : DataFrame) :
  cells (pd.reset_index_drop df) = cells df.
Proof. unfold pd.reset_index_drop, cells. cbn. apply cells_RangeIndex. Qed.

Lemma reset_index_drop_default (df : DataFrame) :
  default_index (pd.reset_index_drop df).
Proof.
  unfold default_index, labels, pd.len, pd.reset_index_drop. cbn [rows].
  by rewrite labels_RangeIndex, length_RangeIndex.
Qed.

(** One deletion in range removes the row at that position. *)
Lemma delete_step_cells (df : DataFrame) (d : Z) :
  0 <= d < pd.len df ->
  cells (delete_step df d)
  = take (Z.to_nat d) (cells df) ++ drop (S (Z.to_nat d)) (cells df)
  /\ columns (delete_step df d) = columns df
  /\ default_index (delete_step df d).
Proof.
  intros Hd. unfold delete_step.
  assert ((d <? pd.len df) = true) as -> by lia.
  split; [|split; [done|apply reset_index_drop_default]].
  rewrite reset_index_drop_cells.
  unfold pd.concat, pd.iloc_to, pd.iloc_from, cells, pd.len in *.
  cbn [rows]. rewrite fmap_app, fmap_take, fmap_drop.
  unfold slice_bound.
  assert ((d <? 0) = false) as -> by lia.
  assert ((d + 1 <? 0) = false) as -> by lia.
  do 2 f_equal; lia.
Qed.

Lemma delete_step_rectangular (df : DataFrame) (d : Z) :
  rectangular df -> rectangular (delete_step df d).
Proof.
  intros H. unfold delete_step. destruct (d <? pd.len df); [|done].
  unfold rectangular in *. rewrite reset_index_drop_cells.
  cbn [columns pd.reset_index_drop pd.concat pd.iloc_to].
  unfold cells in *. cbn [rows pd.concat pd.iloc_to pd.iloc_from].
  rewrite fmap_app, fmap_take, fmap_drop. apply Forall_app.
  split; [by apply Forall_take|by apply Forall_drop].
Qed.

Lemma delete_step_columns (df : DataFrame) (d : Z) :
  columns (delete_step df d) = columns df.
Proof. unfold delete_step. by destruct (d <? pd.len df). Qed.

Lemma overwrite_step_rectangular (df : DataFrame) (op : OverwriteCell) :
  rectangular df -> rectangular (overwrite_step df op).
Proof.
  intros H. unfold overwrite_step. destruct (row op <? pd.len df); [|done].
  by apply loc_setitem_rectangular.
Qed.

Lemma fold_overwrite_rectangular (ows : list OverwriteCell) :
  forall df, rectangular df -> rectangular (fold_left overwrite_step ows df).
Proof.
  induction ows as [|op ows IH]; intros df H; [done|].
  cbn. by apply IH, overwrite_step_rectangular.
Qed.

Lemma fold_delete_rectangular (ds : list Z) :
  forall df, rectangular df -> rectangular (fold_left delete_step ds df).
Proof.
  induction ds as [|d ds IH]; intros df H; [done|].
  cbn. by apply IH, delete_step_rectangular.
Qed.

Lemma fold_delete_columns (ds : list Z) :
  forall df, columns (fold_left delete_step ds df) = columns df.
Proof.
  induction ds as [|d ds IH]; intros df; [done|].
  cbn. by rewrite IH, delete_step_columns.
Qed.

Lemma has_column_true (c : string) (df : DataFrame) :
  has_column c df = true <-> c ∈ columns df.
Proof.
  unfold has_column. rewrite existsb_exists. split.
  - intros (h & Hin & Heq). apply String.eqb_eq in Heq as <-.
    by apply list_elem_of_In.
  - intros Hin. exists c. split; [by apply list_elem_of_In|].
    apply String.eqb_refl.
Qed.

(** An assignment keeps the header, or appends the one name it lacked. *)
Lemma loc_setitem_columns (df : DataFrame) (r : Z) (c : string) (v : value) :
  columns (pd.loc_setitem df r c v)
  = columns df ++ (if has_column c df then [] else [c]).
Proof.
  unfold pd.loc_setitem. cbn [columns set_cells].
  assert (Hrow : has_column c (add_row r df) = has_column c df) by done.
  destruct (has_label r df).
  - destruct (has_column c df); [by rewrite app_nil_r|done].
  - rewrite Hrow. destruct (has_column c df); [by rewrite app_nil_r|done].
Qed.

Lemma fold_overwrite_columns (ows : list OverwriteCell) :
  forall df, exists added,
    columns (fold_left overwrite_step ows df) = columns df ++ added
    /\ Forall (fun c => c ∈ map col ows /\ c ∉ columns df) added.
Proof.
  induction ows as [|op ows IH]; intros df.
  - exists []. by rewrite app_nil_r.
  - cbn [fold_left map].
    destruct (IH (overwrite_step df op)) as (added & Heq & Hadded).
    unfold overwrite_step in *.
    destruct (row op <? pd.len df).
    + rewrite loc_setitem_columns in Heq, Hadded.
      destruct (has_column (col op) df) eqn:Hc.
      * rewrite app_nil_r in Heq, Hadded. exists added. split; [done|].
        eapply Forall_impl; [exact Hadded|]. cbn. intros c [H1 H2].
        split; [by right|done].
      * exists (col op :: added). rewrite <- app_assoc in Heq.
        split; [done|]. constructor.
        -- split; [by left|]. intros Hin%has_column_true. congruence.
        -- eapply Forall_impl; [exact Hadded|]. cbn. intros c [H1 H2].
           split; [by right|]. intros Hin. apply H2.
           apply elem_of_app. by left.
    + exists added. split; [done|].
      eapply Forall_impl; [exact Hadded|]. cbn. intros c [H1 H2].
      split; [by right|done].
Qed.

End shape.
Section positions.
Import pd perturb replay.

Lemma keep_from_Permutation {A : Type} (ds ds' : list Z) (cs : list A) :
  ds ≡ₚ ds' -> forall i, keep_from i ds cs = keep_from i ds' cs.
Proof.
  intros Hp. induction cs as [|c cs IH]; intros i; [done|]. cbn.
  rewrite IH. rewrite (bool_decide_ext (Z.of_nat i ∈ ds) (Z.of_nat i ∈ ds'));
    [done|]. by rewrite Hp.
Qed.

Lemma keep_from_app {A : Type} (ds : list Z) (xs ys : list A) :
  forall i,
    keep_from i ds (xs ++ ys)
    = keep_from i ds xs ++ keep_from (i + length xs) ds ys.
Proof.
  induction xs as [|x xs IH]; intros i; cbn.
  - by rewrite Nat.add_0_r.
  - rewrite IH. replace (S i + length xs)%nat with (i + S (length xs))%nat
      by lia. by destruct (bool_decide _).
Qed.

Lemma keep_from_none {A : Type} (ds : list Z) (cs : list A) :
  forall i,
    (forall k, (i <= k < i + length cs)%nat -> Z.of_nat k ∉ ds) ->
    keep_from i ds cs = cs.
Proof.
  induction cs as [|c cs IH]; intros i H; [done|]. cbn.
  rewrite bool_decide_eq_false_2 by (apply H; cbn; lia).
  rewrite IH; [done|]. intros k Hk. apply H. cbn. lia.
Qed.

Lemma keep_from_other {A : Type} (d : Z) (ds : list Z) (cs : list A) :
  forall i,
    (forall k, (i <= k < i + length cs)%nat -> Z.of_nat k <> d) ->
    keep_from i (d :: ds) cs = keep_from i ds cs.
Proof.
  induction cs as [|c cs IH]; intros i H; [done|]. cbn.
  rewrite IH by (intros k Hk; apply H; cbn; lia).
  rewrite (bool_decide_ext (Z.of_nat i ∈ d :: ds) (Z.of_nat i ∈ ds));
    [done|].
  rewrite elem_of_cons. specialize (H i). cbn in H.
  split; [|by right]. intros [Heq|Hin]; [|done]. exfalso. apply H; [lia|done].
Qed.

(** Removing position [d] and then the smaller positions [s], or all of
    them from the list as it was, leaves the same rows. *)
Lemma keep_from_delete {A : Type} (d : nat) (s : list Z) (cs : list A) :
  (d < length cs)%nat ->
  Forall (fun d' => d' < Z.of_nat d) s ->
  keep_from 0 s (take d cs ++ drop (S d) cs)
  = keep_from 0 (Z.of_nat d :: s) cs.
Proof.
  intros Hd Hs. rewrite Forall_forall in Hs.
  destruct (lookup_lt_is_Some_2 cs d Hd) as [x Hx].
  rewrite <- (take_drop_middle cs d x Hx) at 3.
  rewrite !keep_from_app. cbn [Nat.add keep_from].
  rewrite length_take, Nat.min_l by lia.
  rewrite bool_decide_eq_true_2 by by left.
  rewrite (keep_from_other (Z.of_nat d) s (take d cs)); cycle 1.
  { intros k Hk. rewrite length_take in Hk. lia. }
  f_equal. rewrite !keep_from_none; [done|..].
  - intros k Hk Hin. apply elem_of_cons in Hin as [Heq|Hin]; [lia|].
    specialize (Hs _ Hin). lia.
  - intros k Hk Hin. specialize (Hs _ Hin). lia.
Qed.

Lemma fold_delete_keep (s : list Z) :
  forall cur : DataFrame,
    descending s -> NoDup s -> Forall (fun d => 0 <= d) s ->
    cells (fold_left delete_step s cur) = keep_from 0 s (cells cur).
Proof.
  induction s as [|d s IH]; intros cur Hdesc Hnd Hpos.
  - cbn. symmetry. apply keep_from_none. intros k _. apply not_elem_of_nil.
  - destruct Hdesc as [Hle Hdesc]. apply NoDup_cons in Hnd as [Hd Hnd].
    apply Forall_cons in Hpos as [Hd0 Hpos]. cbn [fold_left].
    assert (Hlt : Forall (fun d' => d' < d) s).
    { apply Forall_forall. intros d' Hin. rewrite Forall_forall in Hle.
      specialize (Hle d' Hin). assert (d' <> d) by congruence. lia. }
    rewrite IH by done.
    destruct (decide (d < pd.len cur)) as [Hin|Hout].
    + destruct (delete_step_cells cur d) as (-> & _); [lia|].
      rewrite <- (Z2Nat.id d) at 3 by done.
      apply keep_from_delete.
      * unfold pd.len, cells in *. rewrite length_fmap. lia.
      * by rewrite Z2Nat.id.
    + assert (delete_step cur d = cur) as ->.
      { unfold delete_step. destruct (d <? pd.len cur) eqn:E; [lia|done]. }
      symmetry. apply keep_from_other. intros k Hk.
      unfold pd.len, cells in *. rewrite length_fmap in Hk. lia.
Qed.

Lemma delete_step_default (df : DataFrame) (d : Z) :
  default_index df -> default_index (delete_step df d).
Proof.
  intros H. unfold delete_step. destruct (d <? pd.len df); [|done].
  apply reset_index_drop_default.
Qed.

Lemma fold_delete_default (ds : list Z) :
  forall df,
    default_index df -> default_index (fold_left delete_step ds df).
Proof.
  induction ds as [|d ds IH]; intros df H; [done|].
  cbn. by apply IH, delete_step_default.
Qed.

End positions.
Section cells_after.
Import pd perturb replay.

Lemma set_in_row_map_row (cols : list string) :
  forall (cs : list value) (c : string) (v : value),
    set_in_row cols cs c v
    = map_row (fun h x => if String.eqb h c then v else x) cols cs.
Proof.
  induction cols as [|h cols IH]; intros cs c v; [by destruct cs|].
  destruct cs as [|x cs]; [done|]. cbn. by rewrite IH.
Qed.

Lemma map_row_compose (f g : string -> value -> value) (cols : list string) :
  forall cs,
    map_row g cols (map_row f cols cs)
    = map_row (fun h x => g h (f h x)) cols cs.
Proof.
  induction cols as [|h cols IH]; intros cs; [by destruct cs|].
  destruct cs as [|x cs]; [done|]. cbn. by rewrite IH.
Qed.

Lemma map_row_ext (f g : string -> value -> value) (cols : list string) :
  (forall h x, f h x = g h x) ->
  forall cs, map_row f cols cs = map_row g cols cs.
Proof.
  intros Hfg. induction cols as [|h cols IH]; intros cs; [by destruct cs|].
  destruct cs as [|x cs]; [done|]. cbn. by rewrite IH, Hfg.
Qed.

Lemma map_row_id (f : string -> value -> value) (cols : list string) :
  (forall h x, f h x = x) -> forall cs, map_row f cols cs = cs.
Proof.
  intros Hf. induction cols as [|h cols IH]; intros cs; [by destruct cs|].
  destruct cs as [|x cs]; [done|]. cbn. by rewrite IH, Hf.
Qed.

Lemma final_value_snoc (ows : list OverwriteCell) (op : OverwriteCell)
    (r : Z) (h : string) (x : value) :
  final_value (ows ++ [op]) r h x
  = if (row op =? r) && String.eqb h (col op)
    then new_value op else final_value ows r h x.
Proof. unfold final_value. by rewrite fold_left_app. Qed.

(** Over a cell, the overwrites act as the identity or as a constant. *)
Lemma final_value_id_or_const (ows : list OverwriteCell) (r : Z)
    (h : string) :
  (forall x, final_value ows r h x = x)
  \/ (exists v, forall x, final_value ows r h x = v).
Proof.
  induction ows as [|op ows IH] using rev_ind; [by left|].
  destruct ((row op =? r) && String.eqb h (col op)) eqn:E.
  - right. exists (new_value op). intros x.
    by rewrite final_value_snoc, E.
  - destruct IH as [Hid|[v Hv]].
    + left. intros x. by rewrite final_value_snoc, E.
    + right. exists v. intros x. by rewrite final_value_snoc, E.
Qed.

Lemma final_value_idem (ows : list OverwriteCell) (r : Z) (h : string)
    (x : value) :
  final_value ows r h (final_value ows r h x) = final_value ows r h x.
Proof.
  destruct (final_value_id_or_const ows r h) as [Hid|[v Hv]].
  - by rewrite !Hid.
  - by rewrite !Hv.
Qed.

(** The frame in which every cell holds what the overwrites leave in it. *)
Lemma fold_overwrite_cells (ows : list OverwriteCell) (df : DataFrame) :
  default_index df ->
  Forall (fun op => 0 <= row op /\ col op ∈ columns df) ows ->
  fold_left overwrite_step ows df
  = {| columns := columns df;
       rows := map (fun rw =>
                      (rw.1, map_row (final_value ows rw.1) (columns df) rw.2))
                 (rows df) |}.
Proof.
  intros Hd. induction ows as [|op ows IH] using rev_ind; intros Hows.
  - cbn. destruct df as [cols rws]. cbn. f_equal.
    rewrite <- (map_id rws) at 1. apply map_ext. intros [l cs]. cbn.
    by rewrite map_row_id.
  - apply Forall_app in Hows as [Hows Hop].
    apply Forall_singleton in Hop as [Hrow Hcol].
    rewrite fold_left_app, IH by done. cbn [fold_left].
    set (mid := {| columns := columns df; rows := _ |}).
    assert (Hlen : pd.len mid = pd.len df).
    { unfold pd.len, mid. cbn. by rewrite length_map. }
    assert (Hlab : labels mid = labels df).
    { unfold labels, mid. cbn. rewrite <- list_fmap_compose.
      by apply list_fmap_ext. }
    unfold overwrite_step. rewrite Hlen.
    destruct (row op <? pd.len df) eqn:Hin.
    + unfold pd.loc_setitem.
      assert (has_label (row op) mid = true) as ->.
      { apply has_label_elem. rewrite Hlab, Hd. apply elem_of_seqZ. lia. }
      assert (has_column (col op) mid = true) as ->
        by by apply has_column_true.
      unfold set_cells, mid. cbn [columns rows]. f_equal.
      rewrite map_map. apply map_ext. intros [l cs]. cbn [fst snd].
      destruct (l =? row op) eqn:El.
      * f_equal. rewrite set_in_row_map_row, map_row_compose.
        apply map_row_ext. intros h x. rewrite final_value_snoc.
        assert ((row op =? l) = true) as -> by lia. done.
      * f_equal. apply map_row_ext. intros h x. rewrite final_value_snoc.
        assert ((row op =? l) = false) as -> by lia. done.
    + unfold mid. f_equal. apply map_ext_in. intros [l cs] Hrw.
      cbn [fst snd]. f_equal. apply map_row_ext. intros h x.
      rewrite final_value_snoc.
      assert (Hl : l ∈ labels df).
      { unfold labels. apply list_elem_of_fmap. exists (l, cs).
        split; [done|]. by apply list_elem_of_In. }
      rewrite Hd in Hl. apply elem_of_seqZ in Hl.
      assert ((row op =? l) = false) as -> by lia. done.
Qed.

End cells_after.
(** * Further properties of the applier *)

Section applier_extras.
Import pd perturb replay.

(** X1 (shape): replaying any spec on a table that has one cell per column
    in every row returns a table that again has one cell per column in
    every row, whatever rows and columns the spec names. *)
Theorem applied_rectangular (df : DataFrame) (spec : TableDeltaSpec) :
  rectangular df ->
  exists out, applied df spec = Ok out /\ rectangular out.
Proof.
  intros H. exists (replay df spec). split; [apply applied_replay|].
  unfold replay. by apply fold_delete_rectangular, fold_overwrite_rectangular.
Qed.

Lemma applied_rectangular_witness :
  exists out,
    applied scenario.S scenario.unknown_column_spec = Ok out
    /\ rectangular out.
Proof.
  apply (applied_rectangular scenario.S scenario.unknown_column_spec).
  unfold rectangular. cbn. repeat constructor.
Defined.

(** X2 (header): replaying a spec never removes, renames or reorders a
    column: the header of the result is the header of the source followed
    by column names that some overwrite carries and the source lacked;
    when every overwrite names a column of the source, the header is
    unchanged. *)
Theorem applied_header (df : DataFrame) (spec : TableDeltaSpec) :
  exists out added,
    applied df spec = Ok out
    /\ columns out = columns df ++ added
    /\ Forall (fun c => c ∈ map col (overwrite_cells spec)
                        /\ c ∉ columns df) added
    /\ (Forall (fun op => col op ∈ columns df) (overwrite_cells spec) ->
        columns out = columns df).
Proof.
  destruct (fold_overwrite_columns (overwrite_cells spec) df)
    as (added & Heq & Hadded).
  exists (replay df spec), added. split; [apply applied_replay|].
  assert (Hcols : columns (replay df spec) = columns df ++ added).
  { unfold replay. by rewrite fold_delete_columns. }
  split; [done|]. split; [done|]. intros Hknown. rewrite Hcols.
  destruct added as [|c added]; [by rewrite app_nil_r|].
  apply Forall_cons in Hadded as [[Hin Hnot] _]. exfalso. apply Hnot.
  apply list_elem_of_fmap in Hin as (op & -> & Hop).
  rewrite Forall_forall in Hknown. by apply Hknown.
Qed.

Lemma applied_header_witness :
  exists out, applied scenario.S scenario.accumulated_spec = Ok out
              /\ columns out = columns scenario.S.
Proof.
  destruct (applied_header scenario.S scenario.accumulated_spec)
    as (out & added & Hout & _ & _ & Hsame).
  exists out. split; [done|]. apply Hsame.
  cbn. repeat constructor; cbn; set_solver.
Defined.

(** X3 (deletions address original positions): with distinct, non-negative
    [drop_rows], the rows of the result are the rows of the overwritten
    table whose position is not listed, in their order; the header is
    that of the overwritten table, and the result has the default index
    when the overwritten table has. *)
Theorem deletions_by_position (df : DataFrame) (drops : list Z)
    (ows : list OverwriteCell) :
  NoDup drops -> Forall (fun d => 0 <= d) drops ->
  exists mid out,
    applied df {| drop_rows := []; overwrite_cells := ows |} = Ok mid
    /\ applied df {| drop_rows := drops; overwrite_cells := ows |} = Ok out
    /\ cells out = keep_from 0 drops (cells mid)
    /\ columns out = columns mid
    /\ (default_index mid -> default_index out).
Proof.
  intros Hnd Hpos.
  exists (fold_left overwrite_step ows df),
    (replay df {| drop_rows := drops; overwrite_cells := ows |}).
  split; [by rewrite applied_replay|]. split; [apply applied_replay|].
  unfold replay. cbn [drop_rows overwrite_cells].
  split; [|split].
  - rewrite fold_delete_keep.
    + apply keep_from_Permutation, sorted_reverse_perm.
    + apply sorted_reverse_descending.
    + by rewrite sorted_reverse_perm.
    + by rewrite sorted_reverse_perm.
  - apply fold_delete_columns.
  - apply fold_delete_default.
Qed.

Lemma deletions_by_position_witness :
  exists mid out,
    applied scenario.S {| drop_rows := []; overwrite_cells := [] |} = Ok mid
    /\ applied scenario.S {| drop_rows := [0; 2]; overwrite_cells := [] |}
       = Ok out
    /\ cells out = keep_from 0 [0; 2] (cells mid)
    /\ columns out = columns mid
    /\ (default_index mid -> default_index out).
Proof.
  apply (deletions_by_position scenario.S [0; 2] []).
  - apply NoDup_cons. split; [|apply NoDup_singleton].
    intros H. apply list_elem_of_singleton in H. lia.
  - repeat constructor; lia.
Defined.

(** X4 (last write wins): on a table with the default index, overwrites
    with non-negative rows and column names of the table change no label
    and no header, and leave in every cell the value of the last
    overwrite addressed to its row and column, or the value the cell had
    when no overwrite is addressed to it. *)
Theorem overwrites_last_write_wins (df : DataFrame)
    (ows : list OverwriteCell) :
  default_index df ->
  Forall (fun op => 0 <= row op /\ col op ∈ columns df) ows ->
  applied df {| drop_rows := []; overwrite_cells := ows |}
  = Ok {| columns := columns df;
          rows := map (fun rw =>
                         (rw.1,
                          map_row (final_value ows rw.1) (columns df) rw.2))
                    (rows df) |}.
Proof.
  intros Hd Hows. rewrite applied_replay. f_equal.
  unfold replay. cbn. by apply fold_overwrite_cells.
Qed.

Lemma overwrites_last_write_wins_witness :
  applied scenario.S
    {| drop_rows := [];
       overwrite_cells := [scenario.overwrite 1 "value" "x";
                           scenario.overwrite 1 "value" "y"] |}
  = Ok {| columns := columns scenario.S;
          rows := map (fun rw =>
                         (rw.1,
                          map_row
                            (final_value
                               [scenario.overwrite 1 "value" "x";
                                scenario.overwrite 1 "value" "y"] rw.1)
                            (columns scenario.S) rw.2))
                    (rows scenario.S) |}.
Proof.
  apply (overwrites_last_write_wins scenario.S).
  - reflexivity.
  - repeat constructor; cbn; try lia; set_solver.
Defined.

(** X5 (idempotence): on a table with the default index, a spec without
    deletions whose overwrites have non-negative rows and column names of
    the table can be replayed on its own result without changing it. *)
Theorem overwrites_idempotent (df : DataFrame) (ows : list OverwriteCell) :
  default_index df ->
  Forall (fun op => 0 <= row op /\ col op ∈ columns df) ows ->
  exists out,
    applied df {| drop_rows := []; overwrite_cells := ows |} = Ok out
    /\ applied out {| drop_rows := []; overwrite_cells := ows |} = Ok out.
Proof.
  intros Hd Hows. eexists. split.
  - rewrite applied_replay. unfold replay. cbn.
    by rewrite fold_overwrite_cells.
  - rewrite applied_replay. unfold replay. cbn.
    rewrite fold_overwrite_cells; cbn [columns rows]; [|..|done].
    + f_equal. f_equal. rewrite map_map. apply map_ext. intros [l cs].
      cbn [fst snd]. f_equal. rewrite map_row_compose.
      apply map_row_ext. intros h x. apply final_value_idem.
    + unfold default_index, labels, pd.len in *. cbn [rows].
      rewrite length_map, <- list_fmap_compose.
      rewrite <- Hd. by apply list_fmap_ext.
Qed.

Lemma overwrites_idempotent_witness :
  exists out,
    applied scenario.S
      {| drop_rows := [];
         overwrite_cells := overwrite_cells scenario.accumulated_spec |}
    = Ok out
    /\ applied out
         {| drop_rows := [];
            overwrite_cells := overwrite_cells scenario.accumulated_spec |}
       = Ok out.
Proof.
  apply (overwrites_idempotent scenario.S).
  - reflexivity.
  - repeat constructor; cbn; try lia; set_solver.
Defined.

End applier_extras.

Section datatable.
Import pd perturb replay.

Lemma str_of_VStr (missing s : string) : str_of missing (VStr s) = s.
Proof. reflexivity. Qed.

Lemma mapM_as_str (ss : list string) :
  mapM datamodel.as_str (map VStr ss) = Ok ss.
Proof. by apply mapM_Ok_map. Qed.

Lemma cells_astype_str (missing : string) (df : DataFrame) :
  cells (astype_str missing df)
  = map (map (fun v => VStr (str_of missing v))) (cells df).
Proof.
  unfold cells, astype_str. cbn [rows].
  induction (rows df) as [|[l cs] rs IH]; [done|]. cbn. by rewrite <- IH.
Qed.

Lemma DataTable_init_astype (missing : string) (hs : list string)
    (df : DataFrame) :
  datamodel.DataTable_init hs (values_tolist (astype_str missing df))
  = Ok {| datamodel.headers := hs;
          datamodel.rows := map (map (str_of missing)) (cells df) |}.
Proof.
  unfold datamodel.DataTable_init, values_tolist.
  rewrite cells_astype_str.
  replace (map (map (fun v => VStr (str_of missing v))) (cells df))
    with (map (map VStr) (map (map (str_of missing)) (cells df))).
  - rewrite (mapM_Ok_map (mapM datamodel.as_str) (map VStr)); [done|].
    apply mapM_as_str.
  - rewrite map_map. apply map_ext. intros cs. apply map_map.
Qed.

Lemma from_df_run (missing : string) (df : DataFrame) :
  datamodel.from_df missing df
  = Ok {| datamodel.headers := columns df;
          datamodel.rows := map (map (str_of missing)) (cells df) |}.
Proof. apply DataTable_init_astype. Qed.

Lemma width_uniform {A : Type} (w : nat) (data : list (list A)) :
  data <> [] -> Forall (fun r => length r = w) data ->
  foldr Nat.max 0%nat (map (@length A) data) = w.
Proof.
  induction data as [|r data IH]; [done|]. intros _ Hall.
  apply Forall_cons in Hall as [Hr Hall]. cbn.
  destruct data as [|r' data]; [cbn; lia|].
  rewrite IH by done. lia.
Qed.

Lemma width_bound {A : Type} (data : list (list A)) (r : list A) :
  r ∈ data ->
  (length r <= foldr Nat.max 0%nat (map (@length A) data))%nat.
Proof.
  induction data as [|r' data IH]; [by intros ?%elem_of_nil|].
  intros [->|Hin]%elem_of_cons; cbn; [lia|].
  specialize (IH Hin). lia.
Qed.

Lemma pad_to_full (w : nat) (cs : list value) :
  length cs = w -> pad_to w cs = cs.
Proof.
  intros <-. unfold pad_to. rewrite Nat.sub_diag. cbn. apply app_nil_r.
Qed.

Lemma to_df_uniform (t : datamodel.DataTable) :
  Forall (fun r => length r = length (datamodel.headers t))
    (datamodel.rows t) ->
  datamodel.to_df t
  = Ok {| columns := datamodel.headers t;
          rows := RangeIndex (map (map VStr) (datamodel.rows t)) |}.
Proof.
  intros Hall. unfold datamodel.to_df, DataFrame_of_rows.
  destruct (datamodel.rows t) as [|r data] eqn:E; [done|].
  rewrite (width_uniform (length (datamodel.headers t))) by done.
  rewrite Nat.eqb_refl. do 3 f_equal.
  apply map_ext_Forall. eapply Forall_impl; [exact Hall|].
  intros r0 Hr0. cbn. apply pad_to_full. by rewrite length_map.
Qed.

(** What [to_df] builds when it succeeds. *)
Lemma to_df_shape (t : datamodel.DataTable) (df : DataFrame) :
  datamodel.to_df t = Ok df ->
  columns df = datamodel.headers t
  /\ default_index df
  /\ pd.len df = Z.of_nat (length (datamodel.rows t))
  /\ rectangular df.
Proof.
  unfold datamodel.to_df, DataFrame_of_rows.
  destruct (datamodel.rows t) as [|r data] eqn:E.
  - intros [= <-]. repeat split; try done. constructor.
  - destruct (Nat.eqb_spec
                (foldr Nat.max 0%nat (map (@length string) (r :: data)))
                (length (datamodel.headers t))) as [Hw|]; [|done].
    set (l := r :: data) in *. intros Hdf.
    assert (df = {| columns := datamodel.headers t;
                    rows := RangeIndex
                      (map (fun r => pad_to
                              (foldr Nat.max 0%nat (map (@length string) l))
                              (map VStr r)) l) |}) as -> by congruence.
    clear Hdf. split; [done|]. split; [|split].
    + unfold default_index, labels, pd.len. cbn [rows].
      by rewrite labels_RangeIndex, length_RangeIndex.
    + unfold pd.len. cbn [rows].
      by rewrite length_RangeIndex, length_map.
    + unfold rectangular, cells. cbn [rows columns].
      rewrite cells_RangeIndex. apply Forall_map.
      rewrite <- Hw. apply Forall_forall. intros x Hx.
      pose proof (width_bound _ _ Hx) as Hle.
      unfold pad_to. rewrite length_app, length_replicate, length_map. lia.
Qed.

End datatable.

Section pipeline.
Import pd perturb replay transform_spec.
Variable to_csv : DataFrame -> string.
Variable read_csv : string -> result DataFrame.
Variable missing : string.

(** A spec the inferrer returns deletes nothing, and its overwrites
    bear positions of source lines. *)
Lemma generate_rows (df df_recovered : DataFrame) (spec : TableDeltaSpec) :
  generate_transform_spec_delete_overwrite to_csv read_csv df df_recovered
  = Ok spec ->
  drop_rows spec = []
  /\ Forall (fun op => 0 <= row op) (overwrite_cells spec).
Proof.
  intros Hgen. split.
  - rewrite generate_eq in Hgen.
    apply bind_Ok in Hgen as (acc & _ & Hgen). by injection Hgen as <-.
  - destruct (generate_justified _ _ _ _ _ Hgen) as (header & _ & Hall).
    eapply Forall_impl; [exact Hall|].
    intros op (i & j & l1 & l2 & r1 & r2 & v1 & v2 & -> & _). lia.
Qed.

Lemma replay_overwrites_len (df : DataFrame) (spec : TableDeltaSpec) :
  default_index df -> drop_rows spec = [] ->
  Forall (fun op => 0 <= row op) (overwrite_cells spec) ->
  pd.len (replay df spec) = pd.len df.
Proof.
  intros Hd Hdrop Hrows. unfold replay. rewrite Hdrop.
  change (py.sorted_reverse []) with (@nil Z). cbn [fold_left].
  by destruct (overwrite_fold_in_range (overwrite_cells spec) df
                 (pd.len df) Hd eq_refl Hrows) as [_ ->].
Qed.

Lemma create_perturbation_return_run (df_perturbed : DataFrame)
    (df_recovered : DataFrame + list DataFrame)
    (a_type a_scope : string) (cols : list string) (note : option string)
    (pr : tasks.PerturbationReturn) :
  tasks.create_perturbation_return to_csv read_csv missing df_perturbed
    df_recovered a_type a_scope cols note = Ok pr ->
  tasks.table pr
  = {| datamodel.headers := columns df_perturbed;
       datamodel.rows := map (map (str_of missing)) (cells df_perturbed) |}
  /\ tasks.recovered_tables pr
     = match df_recovered with inl df => [df] | inr dfs => dfs end
  /\ Forall2 (fun df spec =>
                generate_transform_spec_delete_overwrite to_csv read_csv
                  (astype_str missing df_perturbed) (astype_str missing df)
                = Ok spec)
       (tasks.recovered_tables pr) (tasks.recovered_delta_specs pr).
Proof.
  unfold tasks.create_perturbation_return, round_.
  rewrite DataTable_init_astype. cbn [mbind result_bind].
  intros Hrun. apply bind_Ok in Hrun as (specs & Hspecs & Hinit).
  unfold tasks.PerturbationReturn_init in Hinit.
  destruct (_ && _); [|done]. injection Hinit as <-.
  cbn [tasks.table tasks.recovered_tables tasks.recovered_delta_specs].
  split; [done|].
  assert (match df_recovered with
          | inl df => [df]
          | inr dfs => map (fun df => df) dfs
          end
          = match df_recovered with inl df => [df] | inr dfs => dfs end)
    as Heq by (destruct df_recovered; [done|apply map_id]).
  rewrite Heq in *. split; [done|].
  by apply mapM_Ok_Forall2 in Hspecs.
Qed.

(** X8 (pipeline): for a perturbed table with one cell per column in
    every row, whatever recovered tables [create_perturbation_return]
    is given, the task instance built from its table and its specs
    materialises one recovered table per recovered table given, each
    with exactly as many rows as the perturbed table. *)
Theorem recovered_tables_keep_row_count (df_perturbed : DataFrame)
    (df_recovered : DataFrame + list DataFrame)
    (a_type a_scope : string) (cols : list string) (note : option string)
    (pr : tasks.PerturbationReturn) :
  rectangular df_perturbed ->
  tasks.create_perturbation_return to_csv read_csv missing df_perturbed
    df_recovered a_type a_scope cols note = Ok pr ->
  exists m,
    datamodel.model_post_init (tasks.table pr)
      (datamodel.SpecList (tasks.recovered_delta_specs pr)) = Ok m
    /\ length (datamodel.recovered_table_dfs m)
       = length (tasks.recovered_tables pr)
    /\ Forall (fun df => pd.len df = pd.len df_perturbed)
         (datamodel.recovered_table_dfs m).
Proof.
  intros Hrect Hrun.
  destruct (create_perturbation_return_run _ _ _ _ _ _ _ Hrun)
    as (Htable & _ & Hspecs).
  rewrite model_post_init_eq. cbn [datamodel.normalize mbind result_bind].
  assert (exists df, datamodel.to_df (tasks.table pr) = Ok df) as [df Hdf].
  { rewrite to_df_uniform; [by eexists|]. rewrite Htable.
    cbn [datamodel.rows datamodel.headers]. apply Forall_map.
    eapply Forall_impl; [exact Hrect|]. intros cs Hcs. cbn.
    by rewrite length_map. }
  rewrite Hdf. cbn [mbind result_bind]. eexists. split; [done|].
  cbn [datamodel.recovered_table_dfs].
  destruct (to_df_shape _ _ Hdf) as (_ & Hd & Hlen & _).
  rewrite Htable in Hlen. cbn [datamodel.rows] in Hlen.
  rewrite length_map in Hlen. fold (cells df_perturbed) in Hlen.
  split.
  - rewrite length_map. symmetry. by eapply Forall2_length.
  - apply Forall_map. apply Forall_forall. intros spec Hin. cbn.
    apply list_elem_of_lookup in Hin as [k Hk].
    destruct (Forall2_lookup_r _ _ _ _ _ Hspecs Hk) as (d & _ & Hgen).
    destruct (generate_rows _ _ _ Hgen) as [Hdrop Hrows].
    rewrite replay_overwrites_len by done. rewrite Hlen.
    unfold pd.len, cells. by rewrite length_fmap.
Qed.

End pipeline.

Section datatable_extras.
Import pd perturb replay.

(** X6 (table round trip): a stored table whose rows all have one cell
    per header turns into a frame, and [from_df] on that frame gives the
    stored table back, whatever the text of a missing cell. *)
Theorem to_df_from_df (missing : string) (t : datamodel.DataTable) :
  Forall (fun r => length r = length (datamodel.headers t))
    (datamodel.rows t) ->
  exists df,
    datamodel.to_df t = Ok df
    /\ default_index df
    /\ datamodel.from_df missing df = Ok t.
Proof.
  intros Hall. rewrite to_df_uniform by done. eexists. split; [done|].
  split.
  - unfold default_index, labels, pd.len. cbn [rows].
    by rewrite labels_RangeIndex, length_RangeIndex.
  - rewrite from_df_run. unfold cells. cbn [rows columns].
    rewrite cells_RangeIndex. destruct t as [hs rs]. cbn. do 2 f_equal.
    rewrite map_map. rewrite <- (map_id rs) at 2. apply map_ext.
    intros r. rewrite map_map. rewrite <- (map_id r) at 2. by apply map_ext.
Qed.

Lemma to_df_from_df_witness :
  exists df,
    datamodel.to_df {| datamodel.headers := ["name"; "value"]%string;
                       datamodel.rows := [["a"; "1"]; ["b"; "2"]]%string |}
    = Ok df
    /\ default_index df
    /\ datamodel.from_df "nan" df
       = Ok {| datamodel.headers := ["name"; "value"]%string;
               datamodel.rows := [["a"; "1"]; ["b"; "2"]]%string |}.
Proof.
  apply (to_df_from_df "nan"
           {| datamodel.headers := ["name"; "value"]%string;
              datamodel.rows := [["a"; "1"]; ["b"; "2"]]%string |}).
  cbn. repeat constructor.
Defined.

(** X7 (frame round trip): a frame with one cell per column in every row
    is stored by [from_df] without failure, and [to_df] on the stored
    table gives the frame with every cell turned into its text and the
    rows labelled anew from 0. *)
Theorem from_df_to_df (missing : string) (df : DataFrame) :
  rectangular df ->
  exists t,
    datamodel.from_df missing df = Ok t
    /\ datamodel.to_df t
       = Ok (pd.reset_index_drop (astype_str missing df)).
Proof.
  intros Hrect. rewrite from_df_run. eexists. split; [done|].
  rewrite to_df_uniform.
  - cbn [datamodel.headers datamodel.rows]. unfold pd.reset_index_drop.
    rewrite cells_astype_str. do 3 f_equal.
    rewrite map_map. apply map_ext. intros cs. apply map_map.
  - cbn [datamodel.headers datamodel.rows]. apply Forall_map.
    eapply Forall_impl; [exact Hrect|]. intros cs Hcs. cbn.
    by rewrite length_map.
Qed.

Lemma from_df_to_df_witness :
  exists t,
    datamodel.from_df "nan" scenario.T_missing = Ok t
    /\ datamodel.to_df t
       = Ok (pd.reset_index_drop (astype_str "nan" scenario.T_missing)).
Proof.
  apply (from_df_to_df "nan" scenario.T_missing).
  cbn. repeat constructor.
Defined.

End datatable_extras.

Section pipeline_witness.
Import pd perturb replay.

Lemma recovered_tables_keep_row_count_witness :
  exists pr m,
    tasks.create_perturbation_return pd_io.to_csv pd_io.read_csv "nan"
      scenario.S (inl scenario.T_deleted) "missingness" "single-column"
      ["value"%string] None = Ok pr
    /\ datamodel.model_post_init (tasks.table pr)
         (datamodel.SpecList (tasks.recovered_delta_specs pr)) = Ok m
    /\ length (datamodel.recovered_table_dfs m)
       = length (tasks.recovered_tables pr)
    /\ Forall (fun df => pd.len df = pd.len scenario.S)
         (datamodel.recovered_table_dfs m).
Proof.
  destruct (tasks.create_perturbation_return pd_io.to_csv pd_io.read_csv
              "nan" scenario.S (inl scenario.T_deleted) "missingness"
              "single-column" ["value"%string] None) as [pr|e] eqn:E;
    [|by vm_compute in E].
  exists pr.
  destruct (recovered_tables_keep_row_count pd_io.to_csv pd_io.read_csv
              "nan" scenario.S (inl scenario.T_deleted) "missingness"
              "single-column" ["value"%string] None pr) as (m & Hm);
    [cbn; repeat constructor|exact E|].
  by exists m.
Defined.

End pipeline_witness.

Section inferrer_output.
Import pd perturb replay transform_spec.
Variable to_csv : DataFrame -> string.
Variable read_csv : string -> result DataFrame.

(** What holds of every overwrite the loop over the opcodes emits, given
    that it holds of an overwrite at a source line and a column of the
    header. *)
Lemma visit_opcode_emits (P : OverwriteCell -> Prop)
    (lines1 lines2 : list string) (header : string)
    (columns : list string) (acc acc' : list Z * list OverwriteCell)
    (op : difflib.opcode) :
  (forall (i : nat) (c : string) (v : value),
      is_Some (lines1 !! (i + 1)%nat) -> c ∈ columns ->
      P {| row := Z.of_nat i; col := c; new_value := v |}) ->
  Forall P acc.2 ->
  visit_opcode read_csv lines1 lines2 header columns acc op = Ok acc' ->
  Forall P acc'.2.
Proof.
  destruct acc as [dr ows], op as [[[[tg i1] i2] j1] j2].
  intros HP Hacc Hrun. cbn [visit_opcode] in Hrun.
  destruct tg; try (by injection Hrun as <-).
  apply bind_Ok in Hrun as (ows' & Hloop & Hrun). injection Hrun as <-.
  cbn [snd] in *.
  eapply for_each_inv; [|exact Hacc|exact Hloop].
  intros ows0 offset ows1 H0 _ Hrow. unfold compare_rows in Hrow.
  apply bind_Ok in Hrow as (line1 & Hl1 & Hrow).
  apply bind_Ok in Hrow as (line2 & _ & Hrow).
  apply bind_Ok in Hrow as (row1 & _ & Hrow).
  apply bind_Ok in Hrow as (row2 & _ & Hrow).
  unfold py.getitem in Hl1.
  destruct (lines1 !! (i1 + offset + 1)%nat) as [s1|] eqn:E1; [|done].
  eapply for_each_inv; [|exact H0|exact Hrow].
  intros ows2 c ows3 H2 Hc Hcell. unfold compare_cell in Hcell.
  apply bind_Ok in Hcell as (sel1 & _ & Hcell).
  apply bind_Ok in Hcell as (sel2 & _ & Hcell).
  destruct sel1 as [val1|], sel2 as [val2|]; try done.
  destruct (isna val1 && isna val2); [by injection Hcell as <-|].
  destruct (ne val1 val2); [|by injection Hcell as <-].
  injection Hcell as <-. apply Forall_app. split; [done|].
  apply Forall_singleton. apply HP; [by rewrite E1|done].
Qed.

(** X9 (output of the inferrer): every overwrite of a returned spec
    names a column of the header line of the source's text and the
    position of one of the lines below it. *)
Theorem generate_overwrites_in_source (df df_recovered : DataFrame)
    (spec : TableDeltaSpec) :
  generate_transform_spec_delete_overwrite to_csv read_csv df df_recovered
  = Ok spec ->
  exists header,
    str_lines to_csv df !! 0%nat = Some header
    /\ Forall (fun op =>
                 col op ∈ py.split pd_io.COMMA header
                 /\ 0 <= row op
                    < Z.of_nat (length (str_lines to_csv df)) - 1)
         (overwrite_cells spec).
Proof.
  rewrite generate_eq. intros Hrun.
  apply bind_Ok in Hrun as (acc & Hacc & Hrun). injection Hrun as <-.
  unfold delete_rows_and_overwrite_cells in Hacc.
  apply bind_Ok in Hacc as (header & Hh & Hloop).
  unfold py.getitem in Hh.
  destruct (str_lines to_csv df !! 0%nat) as [h|] eqn:E; [|done].
  injection Hh as ->. exists header. split; [done|]. cbn [overwrite_cells].
  eapply (for_each_inv (fun acc =>
            Forall (fun op =>
                      col op ∈ py.split pd_io.COMMA header
                      /\ 0 <= row op
                         < Z.of_nat (length (str_lines to_csv df)) - 1)
              acc.2));
    [|by apply (Forall_nil_2 _ : Forall _ ([], []).2)|exact Hloop].
  intros acc0 op acc1 H0 _ Hop.
  eapply visit_opcode_emits; [|exact H0|exact Hop].
  intros i c v [line Hline] Hc. cbn. split; [done|].
  apply lookup_lt_Some in Hline. lia.
Qed.

End inferrer_output.

Section inferrer_output_witness.
Import pd perturb replay transform_spec.

Lemma generate_overwrites_in_source_witness :
  exists header,
    str_lines pd_io.to_csv scenario.S !! 0%nat = Some header
    /\ Forall (fun op =>
                 col op ∈ py.split pd_io.COMMA header
                 /\ 0 <= row op
                    < Z.of_nat (length (str_lines pd_io.to_csv scenario.S))
                      - 1)
         (overwrite_cells scenario.accumulated_spec).
Proof.
  apply (generate_overwrites_in_source pd_io.to_csv pd_io.read_csv
           scenario.S scenario.T
           {| drop_rows := [];
              overwrite_cells := overwrite_cells scenario.accumulated_spec |}).
  by vm_compute.
Defined.

End inferrer_output_witness.

Section negative_positions.
Import pd perturb replay.

Lemma delete_step_negative (df : DataFrame) (d : Z) :
  d < 0 ->
  cells (delete_step df d)
  = take (slice_bound (length (cells df)) d) (cells df)
    ++ drop (slice_bound (length (cells df)) (d + 1)) (cells df).
Proof.
  intros Hd. unfold delete_step.
  assert ((d <? pd.len df) = true) as ->
    by (apply Z.ltb_lt; unfold pd.len; lia).
  rewrite reset_index_drop_cells.
  unfold cells, pd.concat, pd.iloc_to, pd.iloc_from.
  cbn [rows]. by rewrite fmap_app, fmap_take, fmap_drop, length_fmap.
Qed.

(** X10 (negative positions): a negative drop position is neither
    refused nor skipped.  On a table of [n] rows, the position -1 gives
    all rows but the last followed by all rows; a position [d] from
    [-n] to -2 deletes the row at position [n + d]; a position below
    [-n] leaves the rows as they are.  The columns stay and the rows
    are labelled anew. *)
Theorem negative_drop_position (df : DataFrame) (d : Z) :
  d < 0 ->
  exists out,
    applied df {| drop_rows := [d]; overwrite_cells := [] |} = Ok out
    /\ columns out = columns df
    /\ default_index out
    /\ cells out
       = (if d =? -1
          then take (length (cells df) - 1) (cells df) ++ cells df
          else if - pd.len df <=? d
          then take (Z.to_nat (pd.len df + d)) (cells df)
               ++ drop (Z.to_nat (pd.len df + d + 1)) (cells df)
          else cells df).
Proof.
  intros Hd. rewrite applied_replay. eexists. split; [done|].
  unfold replay. cbn [drop_rows overwrite_cells fold_left].
  change (py.sorted_reverse [d]) with [d]. cbn [fold_left].
  split; [|split].
  - unfold delete_step.
    assert ((d <? pd.len df) = true) as ->
      by (apply Z.ltb_lt; unfold pd.len; lia).
    done.
  - unfold delete_step.
    assert ((d <? pd.len df) = true) as ->
      by (apply Z.ltb_lt; unfold pd.len; lia).
    apply reset_index_drop_default.
  - rewrite delete_step_negative by done.
    assert (Hlen : pd.len df = Z.of_nat (length (cells df)))
      by (unfold pd.len, cells; by rewrite length_fmap).
    rewrite Hlen. set (n := length (cells df)).
    destruct (Z.eqb_spec d (-1)) as [->|Hne].
    + assert (slice_bound n (-1) = (n - 1)%nat) as ->
        by (unfold slice_bound; change (-1 <? 0) with true; cbv iota; lia).
      assert (slice_bound n (-1 + 1) = 0%nat) as ->
        by (unfold slice_bound; change (-1 + 1 <? 0) with false;
            cbv iota; lia).
      done.
    + destruct (Z.leb_spec (- Z.of_nat n) d) as [Hin|Hout].
      * assert (slice_bound n d = Z.to_nat (Z.of_nat n + d)) as ->.
        { unfold slice_bound.
          assert ((d <? 0) = true) as -> by (apply Z.ltb_lt; lia). lia. }
        assert (slice_bound n (d + 1) = Z.to_nat (Z.of_nat n + d + 1))
          as ->.
        { unfold slice_bound.
          assert ((d + 1 <? 0) = true) as -> by (apply Z.ltb_lt; lia).
          lia. }
        done.
      * assert (slice_bound n d = 0%nat) as ->.
        { unfold slice_bound.
          assert ((d <? 0) = true) as -> by (apply Z.ltb_lt; lia). lia. }
        assert (slice_bound n (d + 1) = 0%nat) as ->.
        { unfold slice_bound.
          assert ((d + 1 <? 0) = true) as -> by (apply Z.ltb_lt; lia).
          lia. }
        done.
Qed.

Lemma negative_drop_position_witness :
  exists out,
    applied scenario.S {| drop_rows := [-1]; overwrite_cells := [] |}
    = Ok out
    /\ columns out = columns scenario.S
    /\ default_index out
    /\ cells out
       = (if -1 =? -1
          then take (length (cells scenario.S) - 1) (cells scenario.S)
               ++ cells scenario.S
          else if - pd.len scenario.S <=? -1
          then take (Z.to_nat (pd.len scenario.S + -1)) (cells scenario.S)
               ++ drop (Z.to_nat (pd.len scenario.S + -1 + 1))
                    (cells scenario.S)
          else cells scenario.S).
Proof. apply (negative_drop_position scenario.S (-1)). lia. Defined.

End negative_positions.

Section clean.
Import pd perturb replay.

Lemma TableDeltaSpec_init_model_dump (spec : TableDeltaSpec) :
  TableDeltaSpec_init (model_dump spec) = Ok spec.
Proof.
  destruct spec as [d o].
  unfold TableDeltaSpec_init, field, model_dump.
  cbn [kwarg String.eqb Ascii.eqb Bool.eqb].
  cbn. unfold as_list. by rewrite !mapM_Ok_map.
Qed.

Lemma replay_empty (df : DataFrame) :
  replay df {| drop_rows := []; overwrite_cells := [] |} = df.
Proof. reflexivity. Qed.

End clean.

Section clean_extras.
Import pd perturb replay.
Variable to_csv : DataFrame -> string.
Variable read_csv : string -> result DataFrame.
Variable missing : string.

(** X11 (clean instance): for a table whose CSV text is not empty and
    whose rows have one cell per column, the clean task instance holds
    the empty spec, and its one recovered table is its own table: the
    given table with every cell turned into its text and the rows
    labelled anew from 0. *)
Theorem clean_instance_recovers_table (df : DataFrame) :
  transform_spec.str_lines to_csv df <> [] ->
  rectangular df ->
  add_perturbations.clean_task_instance to_csv read_csv missing df
  = Ok {| datamodel.recovered_tables_transform_spec :=
            [{| drop_rows := []; overwrite_cells := [] |}];
          datamodel.table_df :=
            pd.reset_index_drop (astype_str missing df);
          datamodel.recovered_table_dfs :=
            [pd.reset_index_drop (astype_str missing df)] |}.
Proof.
  intros Hlines Hrect. unfold add_perturbations.clean_task_instance.
  rewrite generate_self by done. cbn [mbind result_bind].
  rewrite from_df_run. cbn [mbind result_bind].
  rewrite mapM_cons, TableDeltaSpec_init_model_dump.
  cbn [mbind result_bind mapM mret result_ret].
  rewrite model_post_init_eq. cbn [datamodel.normalize mbind result_bind].
  rewrite to_df_uniform.
  - cbn [mbind result_bind map datamodel.headers datamodel.rows].
    rewrite replay_empty. unfold pd.reset_index_drop.
    rewrite cells_astype_str. cbn [columns astype_str].
    assert (map (map VStr) (map (map (str_of missing)) (cells df))
            = map (map (fun v => VStr (str_of missing v))) (cells df))
      as ->; [|done].
    rewrite map_map. apply map_ext. intros cs. apply map_map.
  - cbn [datamodel.headers datamodel.rows]. apply Forall_map.
    eapply Forall_impl; [exact Hrect|]. intros cs Hcs. cbn.
    by rewrite length_map.
Qed.

End clean_extras.

Section clean_witness.
Import pd perturb replay.

Lemma clean_instance_recovers_table_witness :
  add_perturbations.clean_task_instance pd_io.to_csv pd_io.read_csv "nan"
    scenario.T_missing
  = Ok {| datamodel.recovered_tables_transform_spec :=
            [{| drop_rows := []; overwrite_cells := [] |}];
          datamodel.table_df :=
            pd.reset_index_drop (astype_str "nan" scenario.T_missing);
          datamodel.recovered_table_dfs :=
            [pd.reset_index_drop (astype_str "nan" scenario.T_missing)] |}.
Proof.
  apply (clean_instance_recovers_table pd_io.to_csv pd_io.read_csv "nan"
           scenario.T_missing).
  - by vm_compute.
  - cbn. repeat constructor.
Defined.

End clean_witness.

Section words.
Import tasks.

Lemma one_raises (h : Z) :
  h < -10 \/ 10 <= h -> one h = Raise IndexError.
Proof.
  intros Hh. unfold one, list_getitem. cbn [length].
  destruct (Z.ltb_spec h 0) as [Hneg|Hpos].
  - assert ((h + Z.of_nat 10 <? 0) = true) as -> by (apply Z.ltb_lt; lia).
    done.
  - assert ((h <? 0) = false) as -> by (apply Z.ltb_ge; lia).
    unfold py.getitem. rewrite lookup_ge_None_2; [done|]. cbn [length]. lia.
Qed.

Lemma one_wraps (h : Z) : -9 <= h <= -1 -> one h = one (h + 10).
Proof.
  intros Hh. unfold one, list_getitem. cbn [length].
  assert ((h <? 0) = true) as -> by (apply Z.ltb_lt; lia).
  assert ((h + 10 <? 0) = false) as -> by (apply Z.ltb_ge; lia).
  by replace (h + Z.of_nat 10) with (h + 10) by lia.
Qed.

Lemma three_raises (b : Z) :
  b < -1000 \/ 1000 <= b -> three b = Raise IndexError.
Proof.
  intros Hb. unfold three.
  assert (Hh : b / 100 < -10 \/ 10 <= b / 100)
    by (Z.to_euclidean_division_equations; lia).
  rewrite (one_raises _ Hh).
  assert ((b / 100 =? 0) = false) as -> by (apply Z.eqb_neq; lia).
  cbn [negb andb]. by destruct (b mod 100 =? 0).
Qed.

Lemma three_wraps (b : Z) : -900 <= b < 0 -> three b = three (b + 1000).
Proof.
  intros Hb. unfold three.
  replace (b + 1000) with (b + 10 * 100) by lia.
  rewrite Z.div_add, Z.mod_add by lia.
  assert (Hh : -9 <= b / 100 <= -1)
    by (Z.to_euclidean_division_equations; lia).
  rewrite <- (one_wraps _ Hh).
  assert ((b / 100 =? 0) = false) as -> by (apply Z.eqb_neq; lia).
  assert ((b / 100 + 10 =? 0) = false) as -> by (apply Z.eqb_neq; lia).
  done.
Qed.

Lemma three_returns (g : Z) : 0 <= g < 1000 -> exists s, three g = Ok s.
Proof.
  intros Hg.
  assert (Hall : forallb (fun g => match three g with
                                   | Ok _ => true
                                   | Raise _ => false
                                   end) (seqZ 0 1000) = true)
    by (vm_compute; reflexivity).
  rewrite forallb_forall in Hall. specialize (Hall g).
  destruct (three g) as [s|e]; [by exists s|].
  discriminate Hall. apply list_elem_of_In, elem_of_seqZ. lia.
Qed.

Lemma add_group_returns (g : Z) (name res : string) :
  0 <= g < 1000 -> exists s, add_group g name res = Ok s.
Proof.
  intros Hg. unfold add_group. destruct (negb (g =? 0)); [|by eexists].
  destruct (three_returns g Hg) as [s ->]. by eexists.
Qed.

(** X12 (range of the words): [number_to_words] returns for every
    number from 0 up to twelve digits, and raises IndexError for every
    number of thirteen digits or more, whatever its sign. *)
Theorem number_to_words_range (n : Z) :
  (0 <= n < 1000000000000 -> exists s, number_to_words n = Ok s)
  /\ (n < -1000000000000 \/ 1000000000000 <= n ->
      number_to_words n = Raise IndexError).
Proof.
  split.
  - intros Hn. unfold number_to_words.
    destruct (n =? 0); [by eexists|].
    destruct (add_group_returns (n / 1000000000) " billion " EmptyString)
      as [r1 ->]; [Z.to_euclidean_division_equations; lia|].
    cbn [mbind result_bind].
    destruct (add_group_returns ((n / 1000000) mod 1000) " million " r1)
      as [r2 ->]; [Z.to_euclidean_division_equations; lia|].
    cbn [mbind result_bind].
    destruct (add_group_returns ((n / 1000) mod 1000) " thousand " r2)
      as [r3 ->]; [Z.to_euclidean_division_equations; lia|].
    cbn [mbind result_bind].
    destruct (add_group_returns (n mod 1000) EmptyString r3)
      as [r4 ->]; [Z.to_euclidean_division_equations; lia|].
    cbn [mbind result_bind]. by eexists.
  - intros Hn. unfold number_to_words.
    assert ((n =? 0) = false) as -> by (apply Z.eqb_neq; lia).
    assert (Hb : n / 1000000000 < -1000 \/ 1000 <= n / 1000000000)
      by (Z.to_euclidean_division_equations; lia).
    unfold add_group at 4.
    assert ((n / 1000000000 =? 0) = false) as ->
      by (apply Z.eqb_neq; lia).
    cbn [negb]. by rewrite (three_raises _ Hb).
Qed.

Lemma number_to_words_range_witness :
  (exists s, number_to_words 1234567 = Ok s)
  /\ number_to_words 1000000000000 = Raise IndexError.
Proof.
  destruct (number_to_words_range 1234567) as [H _].
  destruct (number_to_words_range 1000000000000) as [_ H'].
  split; [apply H; lia|apply H'; lia].
Defined.

(** X13 (negative numbers): a negative number down to minus nine
    hundred billion is not refused; it reads as the number
    1000000000000 higher, because the table of the digits is indexed
    from its end. *)
Theorem number_to_words_negative (n : Z) :
  -900000000000 <= n < 0 ->
  number_to_words n = number_to_words (n + 1000000000000).
Proof.
  intros Hn. unfold number_to_words.
  assert ((n =? 0) = false) as -> by (apply Z.eqb_neq; lia).
  assert ((n + 1000000000000 =? 0) = false) as ->
    by (apply Z.eqb_neq; lia).
  assert (Hb : (n + 1000000000000) / 1000000000 = n / 1000000000 + 1000).
  { replace (n + 1000000000000) with (n + 1000 * 1000000000) by lia.
    by rewrite Z.div_add by lia. }
  assert (Hm : ((n + 1000000000000) / 1000000) mod 1000
               = (n / 1000000) mod 1000).
  { replace (n + 1000000000000) with (n + 1000000 * 1000000) by lia.
    rewrite Z.div_add by lia.
    replace (n / 1000000 + 1000000) with (n / 1000000 + 1000 * 1000)
      by lia.
    by rewrite Z.mod_add by lia. }
  assert (Ht : ((n + 1000000000000) / 1000) mod 1000
               = (n / 1000) mod 1000).
  { replace (n + 1000000000000) with (n + 1000000000 * 1000) by lia.
    rewrite Z.div_add by lia.
    replace (n / 1000 + 1000000000) with (n / 1000 + 1000000 * 1000)
      by lia.
    by rewrite Z.mod_add by lia. }
  assert (Hr : (n + 1000000000000) mod 1000 = n mod 1000).
  { replace (n + 1000000000000) with (n + 1000000000 * 1000) by lia.
    by rewrite Z.mod_add by lia. }
  rewrite Hb, Hm, Ht, Hr.
  assert (Hrange : -900 <= n / 1000000000 < 0)
    by (Z.to_euclidean_division_equations; lia).
  assert (add_group (n / 1000000000) " billion " EmptyString
          = add_group (n / 1000000000 + 1000) " billion " EmptyString)
    as ->; [|done].
  unfold add_group.
  assert ((n / 1000000000 =? 0) = false) as -> by (apply Z.eqb_neq; lia).
  assert ((n / 1000000000 + 1000 =? 0) = false) as ->
    by (apply Z.eqb_neq; lia).
  by rewrite (three_wraps _ Hrange).
Qed.

Lemma number_to_words_negative_witness :
  number_to_words (-1) = number_to_words (-1 + 1000000000000).
Proof. apply (number_to_words_negative (-1)). lia. Defined.

End words.

Section bytes.
Import utils.

Lemma round_half_even_scale (c a d : Z) :
  0 < c -> 0 < d ->
  round_half_even (c * a) (c * d) = round_half_even a d.
Proof.
  intros Hc Hd. unfold round_half_even.
  rewrite Z.div_mul_cancel_l, Z.mul_mod_distr_l by lia.
  assert (Hr : 0 <= a mod d < d) by (apply Z.mod_pos_bound; lia).
  assert ((2 * (c * (a mod d)) <? c * d) = (2 * (a mod d) <? d)) as ->.
  { destruct (Z.ltb_spec (2 * (a mod d)) d);
      [apply Z.ltb_lt|apply Z.ltb_ge]; nia. }
  assert ((c * d <? 2 * (c * (a mod d))) = (d <? 2 * (a mod d))) as ->.
  { destruct (Z.ltb_spec d (2 * (a mod d)));
      [apply Z.ltb_lt|apply Z.ltb_ge]; nia. }
  done.
Qed.

Lemma format_2f_scale (c a d : Z) :
  0 < c -> 0 < d -> format_2f (c * a) (c * d) = format_2f a d.
Proof.
  intros Hc Hd. unfold format_2f.
  replace (100 * (c * a)) with (c * (100 * a)) by lia.
  by rewrite round_half_even_scale.
Qed.

(** X14 (sizes past the last unit): [format_bytes] has no unit above
    TB, and what it prints for 1024 terabytes and more is divided by
    1024 once too often: a size [n] of at least one terabyte and the
    size [1024 * n] are printed alike. *)
Theorem format_bytes_past_TB (n : Z) :
  2 ^ 40 <= n < 2 ^ 43 ->
  format_bytes (1024 * n) = format_bytes n
  /\ format_bytes n = format_2f n (2 ^ 40) +:+ " TB".
Proof.
  intros Hn. change (2 ^ 40) with 1099511627776 in *.
  change (2 ^ 43) with 8796093022208 in *.
  assert (Hright : format_bytes n = format_2f n 1099511627776 +:+ " TB").
  { unfold format_bytes. cbn [format_bytes_from].
    assert ((n <? 1024 * 1) = false) as -> by (apply Z.ltb_ge; lia).
    assert ((n <? 1024 * (1 * 1024)) = false) as ->
      by (apply Z.ltb_ge; lia).
    assert ((n <? 1024 * (1 * 1024 * 1024)) = false) as ->
      by (apply Z.ltb_ge; lia).
    assert ((n <? 1024 * (1 * 1024 * 1024 * 1024)) = false) as ->
      by (apply Z.ltb_ge; lia).
    assert ((n <? 1024 * (1 * 1024 * 1024 * 1024 * 1024)) = true) as ->
      by (apply Z.ltb_lt; lia).
    done. }
  split; [|done]. rewrite Hright.
  unfold format_bytes. cbn [format_bytes_from].
  assert ((1024 * n <? 1024 * 1) = false) as -> by (apply Z.ltb_ge; lia).
  assert ((1024 * n <? 1024 * (1 * 1024)) = false) as ->
    by (apply Z.ltb_ge; lia).
  assert ((1024 * n <? 1024 * (1 * 1024 * 1024)) = false) as ->
    by (apply Z.ltb_ge; lia).
  assert ((1024 * n <? 1024 * (1 * 1024 * 1024 * 1024)) = false) as ->
    by (apply Z.ltb_ge; lia).
  assert ((1024 * n <? 1024 * (1 * 1024 * 1024 * 1024 * 1024)) = false)
    as -> by (apply Z.ltb_ge; lia).
  replace (1 * 1024 * 1024 * 1024 * 1024 * 1024)
    with (1024 * 1099511627776) by lia.
  by rewrite format_2f_scale by lia.
Qed.

Lemma format_bytes_past_TB_witness :
  format_bytes (1024 * 2 ^ 40) = format_bytes (2 ^ 40)
  /\ format_bytes (2 ^ 40) = format_2f (2 ^ 40) (2 ^ 40) +:+ " TB".
Proof. apply (format_bytes_past_TB (2 ^ 40)). lia. Defined.

End bytes.

Section text_only.
Import pd perturb replay transform_spec.
Variable to_csv : DataFrame -> string.
Variable read_csv : string -> result DataFrame.

Lemma generate_same_text (df df_recovered : DataFrame) :
  to_csv df_recovered = to_csv df ->
  generate_transform_spec_delete_overwrite to_csv read_csv df df_recovered
  = generate_transform_spec_delete_overwrite to_csv read_csv df df.
Proof.
  intros Htext. rewrite !generate_eq.
  unfold delete_rows_and_overwrite_cells, str_lines. by rewrite Htext.
Qed.

(** X15 (the inferrer reads text): a recovered table whose CSV text is
    that of the perturbed table gets the empty spec, whatever its cells
    hold, and replaying that spec returns the perturbed table: a
    recovery the text cannot show (the number 1 for the string 1, a
    missing cell for an empty string) is lost. *)
Theorem same_text_empty_spec (df df_recovered : DataFrame) :
  transform_spec.str_lines to_csv df <> [] ->
  to_csv df_recovered = to_csv df ->
  generate_transform_spec_delete_overwrite to_csv read_csv df df_recovered
  = Ok {| drop_rows := []; overwrite_cells := [] |}
  /\ applied df {| drop_rows := []; overwrite_cells := [] |} = Ok df.
Proof.
  intros Hlines Htext. split.
  - rewrite generate_same_text by done. by apply generate_self.
  - by rewrite applied_replay.
Qed.

End text_only.

Section text_only_witness.
Import pd perturb replay transform_spec.

Lemma same_text_empty_spec_witness :
  (generate_transform_spec_delete_overwrite pd_io.to_csv pd_io.read_csv
     (scenario.table [["a"; "1"]]%string)
     {| columns := ["name"; "value"]%string;
        rows := RangeIndex [[VStr "a"; VInt 1]] |}
   = Ok {| drop_rows := []; overwrite_cells := [] |}
   /\ applied (scenario.table [["a"; "1"]]%string)
        {| drop_rows := []; overwrite_cells := [] |}
      = Ok (scenario.table [["a"; "1"]]%string))
  /\ scenario.table [["a"; "1"]]%string
     <> {| columns := ["name"; "value"]%string;
           rows := RangeIndex [[VStr "a"; VInt 1]] |}.
Proof.
  split; [|by vm_compute].
  apply (same_text_empty_spec pd_io.to_csv pd_io.read_csv
           (scenario.table [["a"; "1"]]%string)
           {| columns := ["name"; "value"]%string;
              rows := RangeIndex [[VStr "a"; VInt 1]] |});
    by vm_compute.
Defined.

End text_only_witness.

Section token_search.
Import pd size_by_tokens.
Variable to_csv : DataFrame -> string.
Variable count_token_func : string -> Z.
Variable df : DataFrame.
Variables token_count min_rows : Z.

(** The loop ends by its condition, and its candidate is a number of
    rows it visited, with the token count of that many rows and its
    distance to the target. *)
Lemma search_visits (fuel : nat) :
  forall (low high : Z) (b : option best),
    (Z.to_nat (high - low + 1) <= fuel)%nat ->
    min_rows <= low -> high <= pd.len df ->
    (forall x, b = Some x ->
       min_rows <= best_n x <= pd.len df
       /\ best_token_count x
          = tokens_of to_csv count_token_func df (best_n x)
       /\ best_diff x = Z.abs (best_token_count x - token_count)) ->
    exists low' high' b',
      search to_csv count_token_func fuel df token_count min_rows
        low high b = (low', high', b')
      /\ high' < low'
      /\ (is_Some b \/ low <= high -> is_Some b')
      /\ (forall x, b' = Some x ->
            min_rows <= best_n x <= pd.len df
            /\ best_token_count x
               = tokens_of to_csv count_token_func df (best_n x)
            /\ best_diff x = Z.abs (best_token_count x - token_count)).
Proof.
  induction fuel as [|fuel IH]; intros low high b Hfuel Hlow Hhigh Hb.
  - exists low, high, b. cbn [search].
    split; [done|]. split; [lia|]. split; [|done].
    intros [H|H]; [done|lia].
  - cbn [search]. destruct (Z.leb_spec low high) as [Hle|Hgt].
    + set (mid := (low + high) / 2).
      assert (Hmid : low <= mid <= high)
        by (unfold mid; Z.to_euclidean_division_equations; lia).
      assert ((min_rows <=? mid) = true) as -> by (apply Z.leb_le; lia).
      cbn [andb].
      set (tokens := count_token_func (to_csv (iloc_to df mid))).
      set (new := {| best_n := mid; best_token_count := tokens;
                     best_diff := Z.abs (tokens - token_count) |}).
      set (b1 := if match b with
                    | Some x => Z.abs (tokens - token_count) <? best_diff x
                    | None => true
                    end
                 then Some new else b).
      assert (Hb1 : forall x, b1 = Some x ->
                min_rows <= best_n x <= pd.len df
                /\ best_token_count x
                   = tokens_of to_csv count_token_func df (best_n x)
                /\ best_diff x = Z.abs (best_token_count x - token_count)).
      { intros x Hx. unfold b1 in Hx.
        destruct (match b with Some _ => _ | None => _ end);
          [|by apply Hb].
        injection Hx as <-. cbn. split; [lia|]. by split. }
      assert (Hsome : is_Some b1).
      { unfold b1. destruct b as [x|]; [|done]. by destruct (_ <? _). }
      destruct (tokens <? token_count).
      * destruct (IH (mid + 1) high b1) as (l' & h' & b' & -> & H1 & H2 & H3);
          try done; try lia.
        exists l', h', b'. split; [done|]. split; [done|].
        split; [|done]. intros _. apply H2. by left.
      * destruct (IH low (mid - 1) b1) as (l' & h' & b' & -> & H1 & H2 & H3);
          try done; try lia.
        exists l', h', b'. split; [done|]. split; [done|].
        split; [|done]. intros _. apply H2. by left.
    + exists low, high, b. split; [done|]. split; [lia|]. split; [|done].
      intros [H|H]; [done|lia].
Qed.

(** When the token count does not go down as rows are added, the
    candidate is at least as near to the target as every number of
    rows the loop has put outside its bounds. *)
Lemma search_nearest (fuel : nat) :
  (forall m n, min_rows <= m -> m <= n -> n <= pd.len df ->
     tokens_of to_csv count_token_func df m
     <= tokens_of to_csv count_token_func df n) ->
  forall (low high : Z) (b : option best),
    min_rows <= low -> high <= pd.len df ->
    (forall n, min_rows <= n <= pd.len df -> n < low \/ high < n ->
       exists x, b = Some x
         /\ best_diff x
            <= Z.abs (tokens_of to_csv count_token_func df n
                      - token_count)) ->
    forall n, min_rows <= n <= pd.len df ->
      let '(low', high', b') :=
        search to_csv count_token_func fuel df token_count min_rows
          low high b in
      n < low' \/ high' < n ->
      exists x, b' = Some x
        /\ best_diff x
           <= Z.abs (tokens_of to_csv count_token_func df n - token_count).
Proof.
  intros Hmono.
  induction fuel as [|fuel IH]; intros low high b Hlow Hhigh Hout n Hn.
  - cbn [search]. by apply Hout.
  - cbn [search]. destruct (Z.leb_spec low high) as [Hle|Hgt];
      [|by apply Hout].
    set (mid := (low + high) / 2).
    assert (Hmid : low <= mid <= high)
      by (unfold mid; Z.to_euclidean_division_equations; lia).
    assert ((min_rows <=? mid) = true) as -> by (apply Z.leb_le; lia).
    cbn [andb].
    change (count_token_func (to_csv (iloc_to df mid)))
      with (tokens_of to_csv count_token_func df mid).
    set (tokens := tokens_of to_csv count_token_func df mid).
    set (new := {| best_n := mid; best_token_count := tokens;
                   best_diff := Z.abs (tokens - token_count) |}).
    set (b1 := if match b with
                  | Some x => Z.abs (tokens - token_count) <? best_diff x
                  | None => true
                  end
               then Some new else b).
    assert (Hnew : exists x, b1 = Some x
              /\ best_diff x <= Z.abs (tokens - token_count)
              /\ (forall y, b = Some y -> best_diff x <= best_diff y)).
    { unfold b1. destruct b as [y|].
      - destruct (Z.ltb_spec (Z.abs (tokens - token_count)) (best_diff y)).
        + exists new. split; [done|]. split; [done|].
          intros ? [= <-]. cbn. lia.
        + exists y. split; [done|]. split; [lia|]. by intros ? [= <-].
      - exists new. by repeat split. }
    destruct Hnew as (x1 & Hx1 & Hx1mid & Hx1old).
    assert (Hold : forall k, min_rows <= k <= pd.len df ->
              k < low \/ high < k ->
              exists x, b1 = Some x
                /\ best_diff x
                   <= Z.abs (tokens_of to_csv count_token_func df k
                             - token_count)).
    { intros k Hk Hk'. destruct (Hout k Hk Hk') as (y & Hy & Hyk).
      exists x1. split; [done|]. specialize (Hx1old y Hy). lia. }
    destruct (Z.ltb_spec tokens token_count) as [Hlt|Hge].
    + apply IH; try done; try lia.
      intros k Hk Hk'.
      destruct (Z.lt_ge_cases k low) as [Hkl|Hkl]; [by apply Hold; auto|].
      destruct (Z.lt_ge_cases high k) as [Hkh|Hkh]; [by apply Hold; auto|].
      exists x1. split; [done|].
      pose proof (Hmono k mid ltac:(lia) ltac:(lia) ltac:(lia)) as Hkm.
      fold tokens in Hkm. lia.
    + apply IH; try done; try lia.
      intros k Hk Hk'.
      destruct (Z.lt_ge_cases k low) as [Hkl|Hkl]; [by apply Hold; auto|].
      destruct (Z.lt_ge_cases high k) as [Hkh|Hkh]; [by apply Hold; auto|].
      exists x1. split; [done|].
      pose proof (Hmono mid k ltac:(lia) ltac:(lia) ltac:(lia)) as Hkm.
      fold tokens in Hkm. lia.
Qed.

End token_search.

Section token_search_extras.
Import pd size_by_tokens.
Variable to_csv : DataFrame -> string.
Variable count_token_func : string -> Z.

(** X16 (sizing by tokens, what is returned): when the table has at
    least [min_rows] rows, [filter_df_based_on_token_count_helper]
    returns the first [n] rows for some [n] from [min_rows] to the
    number of rows, together with the token count of exactly these
    rows; when the table has fewer rows, it returns the whole table
    with its token count.  The search loop ends by its own condition. *)
Theorem helper_returns_prefix (df : DataFrame) (token_count min_rows : Z) :
  (min_rows <= pd.len df ->
   exists n,
     min_rows <= n <= pd.len df
     /\ filter_df_based_on_token_count_helper to_csv count_token_func
          df token_count min_rows
        = (iloc_to df n, count_token_func (to_csv (iloc_to df n))))
  /\ (pd.len df < min_rows ->
      filter_df_based_on_token_count_helper to_csv count_token_func
        df token_count min_rows
      = (df, count_token_func (to_csv df)))
  /\ (let '(low, high, _) :=
        search to_csv count_token_func
          (Z.to_nat (pd.len df - min_rows + 1)) df token_count min_rows
          min_rows (pd.len df) None in
      high < low).
Proof.
  destruct (search_visits to_csv count_token_func df token_count min_rows
              (Z.to_nat (pd.len df - min_rows + 1)) min_rows (pd.len df)
              None) as (l' & h' & b' & Hrun & Hend & Hsome & Hgood);
    try done; try lia.
  split; [|split].
  - intros Hle. unfold filter_df_based_on_token_count_helper.
    rewrite Hrun. cbn [snd].
    destruct Hsome as [x ->]; [by right|].
    destruct (Hgood x eq_refl) as (Hn & Htok & _).
    exists (best_n x). split; [done|]. by rewrite Htok.
  - intros Hlt. unfold filter_df_based_on_token_count_helper.
    by replace (Z.to_nat (pd.len df - min_rows + 1)) with 0%nat by lia.
  - by rewrite Hrun.
Qed.

(** X17 (sizing by tokens, the nearest size): when adding rows never
    lowers the token count, no number of rows from [min_rows] to the
    number of rows of the table has a token count nearer to the target
    than the one [filter_df_based_on_token_count_helper] returns. *)
Theorem helper_returns_nearest (df : DataFrame) (token_count min_rows : Z) :
  (forall m n, min_rows <= m -> m <= n -> n <= pd.len df ->
     tokens_of to_csv count_token_func df m
     <= tokens_of to_csv count_token_func df n) ->
  forall n, min_rows <= n <= pd.len df ->
    Z.abs ((filter_df_based_on_token_count_helper to_csv count_token_func
              df token_count min_rows).2 - token_count)
    <= Z.abs (tokens_of to_csv count_token_func df n - token_count).
Proof.
  intros Hmono n Hn.
  destruct (search_visits to_csv count_token_func df token_count min_rows
              (Z.to_nat (pd.len df - min_rows + 1)) min_rows (pd.len df)
              None) as (l' & h' & b' & Hrun & Hend & Hsome & Hgood);
    try done; try lia.
  pose proof (search_nearest to_csv count_token_func df token_count
                min_rows (Z.to_nat (pd.len df - min_rows + 1)) Hmono
                min_rows (pd.len df) None ltac:(lia) ltac:(lia)) as Hnear.
  specialize (Hnear ltac:(intros; lia) n Hn). rewrite Hrun in Hnear.
  destruct Hnear as (x & -> & Hx); [lia|].
  unfold filter_df_based_on_token_count_helper. rewrite Hrun. cbn [snd].
  destruct (Hgood x eq_refl) as (_ & _ & Hdiff). lia.
Qed.

End token_search_extras.

Section token_search_witness.
Import pd size_by_tokens.

Lemma helper_returns_prefix_witness :
  (exists n,
     0 <= n <= pd.len scenario.S
     /\ filter_df_based_on_token_count_helper pd_io.to_csv
          (fun s => Z.of_nat (String.length s)) scenario.S 20 0
        = (iloc_to scenario.S n,
           Z.of_nat (String.length (pd_io.to_csv (iloc_to scenario.S n)))))
  /\ filter_df_based_on_token_count_helper pd_io.to_csv
       (fun s => Z.of_nat (String.length s)) scenario.S 20 4
     = (scenario.S, Z.of_nat (String.length (pd_io.to_csv scenario.S))).
Proof.
  destruct (helper_returns_prefix pd_io.to_csv
              (fun s => Z.of_nat (String.length s)) scenario.S 20 0)
    as (Hprefix & _ & _).
  destruct (helper_returns_prefix pd_io.to_csv
              (fun s => Z.of_nat (String.length s)) scenario.S 20 4)
    as (_ & Hwhole & _).
  split; [apply Hprefix|apply Hwhole]; by vm_compute.
Defined.

Lemma helper_returns_nearest_witness :
  Z.abs ((filter_df_based_on_token_count_helper pd_io.to_csv
            (fun s => Z.of_nat (String.length s)) scenario.S 20 0).2
         - 20)
  <= Z.abs (tokens_of pd_io.to_csv (fun s => Z.of_nat (String.length s))
              scenario.S 3 - 20).
Proof.
  apply (helper_returns_nearest pd_io.to_csv
           (fun s => Z.of_nat (String.length s)) scenario.S 20 0);
    [|by vm_compute].
  intros m n Hm Hmn Hn.
  assert (Hlen : pd.len scenario.S = 3) by reflexivity.
  rewrite Hlen in Hn.
  assert (Hm' : m = 0 \/ m = 1 \/ m = 2 \/ m = 3) by lia.
  assert (Hn' : n = 0 \/ n = 1 \/ n = 2 \/ n = 3) by lia.
  destruct Hm' as [-> | [-> | [-> | ->]]], Hn' as [-> | [-> | [-> | ->]]];
    try lia; by vm_compute.
Defined.

End token_search_witness.

Section prefix_scan.
Import difflib self_match.
Local Open Scope nat_scope.

(** The scan reads of [a] only the rows it visits. *)
Lemma scan_rows_ext (a a' b : list string) (rng : list nat) :
  forall (blo bhi : nat) (J : gmap nat nat) (best : nat * nat * nat),
    (forall k, k ∈ rng -> a !! k = a' !! k) ->
    scan_rows a b rng blo bhi J best = scan_rows a' b rng blo bhi J best.
Proof.
  induction rng as [|i rng IH]; intros blo bhi J best Hext; [done|].
  cbn [scan_rows]. rewrite (Hext i) by by left.
  destruct (scan_row _ i blo bhi J ∅ best) as [newJ best'].
  apply IH. intros k Hk. apply Hext. by right.
Qed.

(** The first rows of [l] scanned against [l]: the best match found
    lies on the diagonal. *)
Lemma scan_rows_diagonal (l : list string) (m : nat) :
  forall (i : nat) (J : gmap nat nat) (bi bs : nat),
    i + m <= length l ->
    (forall j k, J !! j = Some k -> k <= run_before l i /\ k <= run l j) ->
    j2lenget_pred J i = run_before l i ->
    bi + bs <= length l ->
    (forall j, j < i -> run l j <= bs) ->
    exists bi' bs',
      scan_rows l l (seq i m) 0 (length l) J (bi, bi, bs) = (bi', bi', bs').
Proof.
  induction m as [|m IH]; intros i J bi bs Him HJ Hdiag Hfit Hbest.
  - by exists bi, bs.
  - cbn [seq scan_rows]. fold (row_js l i).
    assert (Hi : i < length l) by lia.
    destruct (lookup_lt_is_Some_2 l i Hi) as [x Hx].
    destruct (scanned l i) eqn:Hsi.
    + destruct (row_js_cases l i x Hx) as [Hnil|Hjs].
      { unfold scanned in Hsi. by rewrite Hnil in Hsi. }
      rewrite Hjs.
      destruct (scan_row_self l i J Hi HJ Hdiag Hsi (indices_of l x) ∅ bi bs)
        as (newJ' & bi' & bs' & -> & Hfit' & Hbest' & Hlook & HnewJ');
        try done.
      * apply indices_of_ascending.
      * intros j Hj. apply indices_of_elem in Hj. split.
        -- by eapply lookup_lt_Some.
        -- unfold scanned in *.
           rewrite (row_js_same l j i); [done|congruence].
      * left. by apply indices_of_elem.
      * apply IH; try done; [lia|]. cbn. by rewrite Hlook.
    + assert (Hnil : row_js l i = []).
      { unfold scanned in Hsi. by destruct (row_js l i). }
      rewrite Hnil. cbn [scan_row].
      pose proof (run_unscanned l i Hsi) as Hr0.
      apply IH; try done; [lia|..].
      * intros j Hj. destruct (decide (j = i)) as [->|]; [lia|].
        apply Hbest. lia.
Qed.

End prefix_scan.

Section prefix_opcodes.
Import difflib self_match.
Local Open Scope nat_scope.
Variables a extra : list string.

Lemma same_prefix (i : nat) :
  i < length a -> same (a !! i) ((a ++ extra) !! i) = true.
Proof.
  intros Hi. rewrite lookup_app_l by done.
  destruct (lookup_lt_is_Some_2 a i Hi) as [x ->]. cbn.
  apply String.eqb_refl.
Qed.

Lemma extend_back_prefix (bi : nat) :
  forall bs, bi <= length a ->
    extend_back a (a ++ extra) false 0 0 bi bi bs = (0, 0, bi + bs).
Proof.
  induction bi as [|bi IH]; intros bs Hbi; [done|].
  cbn [extend_back]. rewrite isbjunk_false, same_prefix by lia. cbn.
  rewrite IH by lia. do 2 f_equal. lia.
Qed.

Lemma extend_forward_prefix (fuel : nat) :
  forall bs, bs + fuel = length a ->
    extend_forward a (a ++ extra) fuel false (length a)
      (length (a ++ extra)) 0 0 bs = length a.
Proof.
  induction fuel as [|fuel IH]; intros bs Hbs; cbn [extend_forward]; [lia|].
  cbn [Nat.add]. rewrite isbjunk_false, same_prefix by lia.
  assert (Nat.ltb bs (length a) = true) as -> by (apply Nat.ltb_lt; lia).
  assert (Nat.ltb bs (length (a ++ extra)) = true) as ->
    by (apply Nat.ltb_lt; rewrite length_app; lia).
  cbn. apply IH. lia.
Qed.

(** The longest match of [a] with [a ++ extra] is all of [a]. *)
Lemma find_longest_match_prefix :
  find_longest_match a (a ++ extra) 0 (length a) 0 (length (a ++ extra))
  = (0, 0, length a).
Proof.
  unfold find_longest_match, py.range. rewrite Nat.sub_0_r.
  destruct (scan_rows_bounds a (a ++ extra) 0 (length a) 0
              (length (a ++ extra)) (length a) 0 ∅ 0 0 0)
    as (bi & bj & bs & Hscan & _ & Hfit & _); try done; try lia.
  rewrite (scan_rows_ext a (a ++ extra)) in Hscan.
  2:{ intros k Hk%elem_of_seq. by rewrite lookup_app_l by lia. }
  destruct (scan_rows_diagonal (a ++ extra) (length a) 0 ∅ 0 0)
    as (bi' & bs' & Hdiag); try done; try lia.
  { rewrite length_app. lia. }
  rewrite Hdiag in Hscan. injection Hscan as -> -> ->.
  rewrite (scan_rows_ext a (a ++ extra)).
  2:{ intros k Hk%elem_of_seq. by rewrite lookup_app_l by lia. }
  rewrite Hdiag.
  unfold extend at 2. rewrite extend_back_prefix by lia.
  rewrite extend_forward_prefix by lia.
  unfold extend. cbn [extend_back]. by rewrite Nat.sub_diag.
Qed.

Lemma get_matching_blocks_prefix :
  get_matching_blocks a (a ++ extra)
  = if Nat.eqb (length a) 0 then [(0, length (a ++ extra), 0)]
    else [(0, 0, length a); (length a, length (a ++ extra), 0)].
Proof.
  unfold get_matching_blocks.
  replace (2 * length a + 1) with (S (2 * length a)) by lia.
  cbn [blocks_loop]. rewrite find_longest_match_prefix.
  destruct (Nat.eqb (length a) 0) eqn:Hn.
  - apply Nat.eqb_eq in Hn. rewrite Hn.
    by destruct (2 * 0).
  - rewrite Nat.ltb_irrefl. cbn [andb Nat.add].
    rewrite Nat.ltb_irrefl. cbn [andb app].
    assert (blocks_loop a (a ++ extra) (2 * length a) [] [(0, 0, length a)]
            = ([], [(0, 0, length a)])) as -> by by destruct (2 * length a).
    cbn. by rewrite Hn.
Qed.

(** Matching [a] against [a ++ extra] yields at most one [equal] block
    and one [insert] block. *)
Lemma get_opcodes_prefix :
  Forall (fun op => op.1.1.1.1 = tag_equal \/ op.1.1.1.1 = tag_insert)
    (get_opcodes a (a ++ extra)).
Proof.
  unfold get_opcodes. rewrite get_matching_blocks_prefix.
  destruct (Nat.eqb (length a) 0) eqn:Hn.
  - cbn [opcodes_from]. rewrite Nat.ltb_irrefl. cbn [andb app Nat.eqb].
    destruct (Nat.ltb 0 (length (a ++ extra)));
      repeat (apply List.Forall_cons || apply List.Forall_nil);
      cbn; auto.
  - cbn [opcodes_from Nat.add]. rewrite !Nat.ltb_irrefl, Hn.
    cbn [andb app Nat.eqb].
    destruct (Nat.ltb (length a) (length (a ++ extra)));
      repeat (apply List.Forall_cons || apply List.Forall_nil);
      cbn; auto.
Qed.

End prefix_opcodes.

Section appended_rows.
Import pd perturb replay transform_spec.
Variable to_csv : DataFrame -> string.
Variable read_csv : string -> result DataFrame.

(** Opcodes tagged [equal] or [insert] leave both lists as they are. *)
Lemma for_each_equal_insert (lines1 lines2 : list string) (header : string)
    (columns : list string) (ops : list (difflib.tag * nat * nat * nat * nat))
    (acc : list Z * list OverwriteCell) :
  Forall (fun op => op.1.1.1.1 = difflib.tag_equal
                    \/ op.1.1.1.1 = difflib.tag_insert) ops ->
  for_each ops acc (visit_opcode read_csv lines1 lines2 header columns)
  = Ok acc.
Proof.
  induction 1 as [|op ops Hop _ IH]; [done|].
  cbn [for_each]. destruct acc as [dr ows].
  destruct op as [[[[tg i1] i2] j1] j2]. cbn [fst] in Hop.
  destruct Hop as [-> | ->]; cbn [visit_opcode mbind result_bind]; apply IH.
Qed.

(** X18 (appended rows): when the lines of the recovered table's text
    below the header are those of the perturbed table followed by
    further lines, the inferrer accumulates no deletion and no
    overwrite and returns the empty spec: rows appended by a recovery
    are ignored. *)
Theorem appended_rows_ignored (df df_recovered : DataFrame)
    (header header' : string) (body extra : list string) :
  str_lines to_csv df = header :: body ->
  str_lines to_csv df_recovered = header' :: body ++ extra ->
  delete_rows_and_overwrite_cells to_csv read_csv df df_recovered
  = Ok ([], [])
  /\ generate_transform_spec_delete_overwrite to_csv read_csv
       df df_recovered
     = Ok {| drop_rows := []; overwrite_cells := [] |}.
Proof.
  intros Hdf Hrec.
  assert (Hacc : delete_rows_and_overwrite_cells to_csv read_csv
                   df df_recovered = Ok ([], [])).
  { unfold delete_rows_and_overwrite_cells. rewrite Hdf, Hrec.
    cbn [py.getitem lookup list_lookup mbind result_bind].
    unfold py.tail_from_1. cbn [drop].
    apply for_each_equal_insert, get_opcodes_prefix. }
  split; [done|]. rewrite generate_eq, Hacc. done.
Qed.

End appended_rows.

Section appended_rows_witness.
Import pd perturb replay transform_spec.

Lemma appended_rows_ignored_witness :
  delete_rows_and_overwrite_cells pd_io.to_csv pd_io.read_csv
    scenario.T_deleted
    (scenario.table [["a"; "1"]; ["c"; "3"]; ["d"; "4"]]%string)
  = Ok ([], [])
  /\ generate_transform_spec_delete_overwrite pd_io.to_csv pd_io.read_csv
       scenario.T_deleted
       (scenario.table [["a"; "1"]; ["c"; "3"]; ["d"; "4"]]%string)
     = Ok {| drop_rows := []; overwrite_cells := [] |}.
Proof.
  apply (appended_rows_ignored pd_io.to_csv pd_io.read_csv
           scenario.T_deleted
           (scenario.table [["a"; "1"]; ["c"; "3"]; ["d"; "4"]]%string)
           "name,value" "name,value" ["a,1"; "c,3"] ["d,4"])%string;
    by vm_compute.
Defined.

End appended_rows_witness.

Section suffix_scan.
Import difflib self_match.
Local Open Scope nat_scope.
Variables a l : list string.

Lemma j2lenget_pred_run (J : gmap nat nat) (j : nat) :
  (forall j' k, J !! j' = Some k -> k <= run l j') ->
  j2lenget_pred J j <= run_before l j.
Proof.
  intros HJ. destruct j as [|j']; cbn; [lia|].
  destruct (J !! j') as [k|] eqn:Hk; cbn; [|lia]. by apply HJ.
Qed.

(** A row scanned when the best match is already as long as every run
    of [l] leaves the best match as it is. *)
Lemma scan_row_settled (i : nat) (J : gmap nat nat) (best : nat * nat * nat) :
  (forall j k, J !! j = Some k -> k <= run l j) ->
  (forall j, j < length l -> run l j <= best.2) ->
  forall (js : list nat) (newJ : gmap nat nat),
    (forall j, j ∈ js -> j < length l /\ scanned l j = true) ->
    (forall j k, newJ !! j = Some k -> k <= run l j) ->
    exists newJ',
      scan_row js i 0 (length l) J newJ best = (newJ', best)
      /\ (forall j k, newJ' !! j = Some k -> k <= run l j).
Proof.
  intros HJ Hbest js.
  induction js as [|j js IH]; intros newJ Hjs HnewJ.
  - by exists newJ.
  - destruct (Hjs j (list_elem_of_here _ _)) as [Hjn Hsj].
    cbn [scan_row].
    assert (Nat.ltb j 0 = false) as -> by by apply Nat.ltb_ge; lia.
    assert (Nat.leb (length l) j = false) as -> by (apply Nat.leb_gt; lia).
    pose proof (j2lenget_pred_run J j HJ) as Hk.
    pose proof (run_scanned l j Hsj) as Hrj.
    specialize (Hbest j Hjn) as Hbj.
    assert (Nat.ltb best.2 (j2lenget_pred J j + 1) = false) as ->
      by (apply Nat.ltb_ge; lia).
    apply IH.
    + intros j' Hj'. apply Hjs. by right.
    + intros j' k' Hl. destruct (decide (j = j')) as [<-|Hne].
      * rewrite lookup_insert_eq in Hl. injection Hl as <-. lia.
      * rewrite lookup_insert_ne in Hl by done. by apply HnewJ.
Qed.

Lemma row_js_scanned (x : string) (js : list nat) (j : nat) :
  b2j l !! x = Some js -> j ∈ js ->
  j < length l /\ scanned l j = true.
Proof.
  intros Hjs Hj. pose proof (b2j_lookup l x js Hjs) as ->.
  pose proof Hj as Hx%indices_of_elem. split.
  - by eapply lookup_lt_Some.
  - unfold scanned, row_js. rewrite Hx. cbn. rewrite Hjs. cbn.
    destruct (indices_of l x); [by apply elem_of_nil in Hj|done].
Qed.

Lemma scan_rows_settled (rng : list nat) :
  forall (J : gmap nat nat) (best : nat * nat * nat),
    (forall j k, J !! j = Some k -> k <= run l j) ->
    (forall j, j < length l -> run l j <= best.2) ->
    scan_rows a l rng 0 (length l) J best = best.
Proof.
  induction rng as [|i rng IH]; intros J best HJ Hbest; [done|].
  cbn [scan_rows].
  destruct (scan_row_settled i J best HJ Hbest
              (default [] (a !! i ≫= fun elt => b2j l !! elt)) ∅)
    as (newJ' & -> & HnewJ'); [|done|by apply IH].
  intros j Hj. destruct (a !! i) as [x|]; cbn in Hj;
    [|by apply elem_of_nil in Hj].
  destruct (b2j l !! x) as [js|] eqn:Hjs; cbn in Hj;
    [|by apply elem_of_nil in Hj].
  by eapply row_js_scanned.
Qed.

(** The rows of [a] that are the rows of [l], scanned against [l], and
    then any further rows: the best match lies on the diagonal, inside
    [l]. *)
Lemma scan_rows_diagonal_then (m : nat) :
  forall (i : nat) (J : gmap nat nat) (bi bs : nat) (tail : list nat),
    i + m = length l ->
    (forall k, k < length l -> a !! k = l !! k) ->
    (forall j k, J !! j = Some k -> k <= run_before l i /\ k <= run l j) ->
    j2lenget_pred J i = run_before l i ->
    bi + bs <= length l ->
    (forall j, j < i -> run l j <= bs) ->
    exists bi' bs',
      scan_rows a l (seq i m ++ tail) 0 (length l) J (bi, bi, bs)
      = (bi', bi', bs')
      /\ bi' + bs' <= length l.
Proof.
  induction m as [|m IH]; intros i J bi bs tail Him Hal HJ Hdiag Hfit Hbest.
  - exists bi, bs. split; [|done]. cbn [seq app].
    apply scan_rows_settled.
    + intros j k Hjk. by apply HJ.
    + intros j Hj. cbn. apply Hbest. lia.
  - cbn [seq app scan_rows].
    assert (Hi : i < length l) by lia.
    rewrite (Hal i Hi). fold (row_js l i).
    destruct (lookup_lt_is_Some_2 l i Hi) as [x Hx].
    destruct (scanned l i) eqn:Hsi.
    + destruct (row_js_cases l i x Hx) as [Hnil|Hjs].
      { unfold scanned in Hsi. by rewrite Hnil in Hsi. }
      rewrite Hjs.
      destruct (scan_row_self l i J Hi HJ Hdiag Hsi (indices_of l x) ∅ bi bs)
        as (newJ' & bi' & bs' & -> & Hfit' & Hbest' & Hlook & HnewJ');
        try done.
      * apply indices_of_ascending.
      * intros j Hj. apply indices_of_elem in Hj. split.
        -- by eapply lookup_lt_Some.
        -- unfold scanned in *.
           rewrite (row_js_same l j i); [done|congruence].
      * left. by apply indices_of_elem.
      * apply IH; try done; [lia|]. cbn. by rewrite Hlook.
    + assert (Hnil : row_js l i = []).
      { unfold scanned in Hsi. by destruct (row_js l i). }
      rewrite Hnil. cbn [scan_row].
      pose proof (run_unscanned l i Hsi) as Hr0.
      apply IH; try done; [lia|..].
      * intros j Hj. destruct (decide (j = i)) as [->|]; [lia|].
        apply Hbest. lia.
Qed.

End suffix_scan.

Section suffix_opcodes.
Import difflib self_match.
Local Open Scope nat_scope.
Variables l extra : list string.

Lemma same_suffix (i : nat) :
  i < length l -> same ((l ++ extra) !! i) (l !! i) = true.
Proof.
  intros Hi. rewrite lookup_app_l by done.
  destruct (lookup_lt_is_Some_2 l i Hi) as [x ->]. cbn.
  apply String.eqb_refl.
Qed.

Lemma extend_back_suffix (bi : nat) :
  forall bs, bi <= length l ->
    extend_back (l ++ extra) l false 0 0 bi bi bs = (0, 0, bi + bs).
Proof.
  induction bi as [|bi IH]; intros bs Hbi; [done|].
  cbn [extend_back]. rewrite isbjunk_false, same_suffix by lia. cbn.
  rewrite IH by lia. do 2 f_equal. lia.
Qed.

Lemma extend_forward_suffix (fuel : nat) :
  forall bs, bs <= length l -> length l - bs <= fuel ->
    extend_forward (l ++ extra) l fuel false (length (l ++ extra))
      (length l) 0 0 bs = length l.
Proof.
  induction fuel as [|fuel IH]; intros bs Hbs Hfuel; cbn [extend_forward];
    [lia|].
  cbn [Nat.add]. destruct (Nat.ltb_spec bs (length l)) as [Hlt|Hge].
  - rewrite isbjunk_false, same_suffix by lia.
    assert (Nat.ltb bs (length (l ++ extra)) = true) as ->
      by (apply Nat.ltb_lt; rewrite length_app; lia).
    cbn. apply IH; lia.
  - rewrite andb_false_r. cbn [andb]. lia.
Qed.

Lemma extend_forward_junk (fuel ahi bhi bs : nat) (a b : list string) :
  extend_forward a b fuel true ahi bhi 0 0 bs = bs.
Proof.
  destruct fuel; [done|]. cbn [extend_forward].
  rewrite isbjunk_false. cbn [Bool.eqb]. by rewrite andb_false_r.
Qed.

(** The longest match of [l ++ extra] with [l] is all of [l]. *)
Lemma find_longest_match_suffix :
  find_longest_match (l ++ extra) l 0 (length (l ++ extra)) 0 (length l)
  = (0, 0, length l).
Proof.
  unfold find_longest_match, py.range. rewrite Nat.sub_0_r.
  rewrite length_app, seq_app. cbn [Nat.add].
  destruct (scan_rows_diagonal_then (l ++ extra) l (length l) 0 ∅ 0 0
              (seq (length l) (length extra)))
    as (bi & bs & -> & Hfit); try done; try lia.
  { intros k Hk. by rewrite lookup_app_l. }
  unfold extend at 2. rewrite extend_back_suffix by lia.
  rewrite <- length_app. rewrite extend_forward_suffix;
    [|lia|rewrite length_app; lia].
  unfold extend. cbn [extend_back]. by rewrite extend_forward_junk.
Qed.

Lemma get_matching_blocks_suffix :
  get_matching_blocks (l ++ extra) l
  = if Nat.eqb (length l) 0 then [(length (l ++ extra), 0, 0)]
    else [(0, 0, length l); (length (l ++ extra), length l, 0)].
Proof.
  unfold get_matching_blocks.
  replace (2 * length (l ++ extra) + 1)
    with (S (2 * length (l ++ extra))) by lia.
  cbn [blocks_loop]. rewrite find_longest_match_suffix.
  destruct (Nat.eqb (length l) 0) eqn:Hn.
  - apply Nat.eqb_eq in Hn. rewrite Hn.
    by destruct (2 * length (l ++ extra)).
  - rewrite Nat.ltb_irrefl. cbn [andb Nat.add].
    rewrite Nat.ltb_irrefl, andb_false_r. cbn [app andb].
    assert (blocks_loop (l ++ extra) l (2 * length (l ++ extra)) []
              [(0, 0, length l)]
            = ([], [(0, 0, length l)])) as ->
      by by destruct (2 * length (l ++ extra)).
    cbn. by rewrite Hn.
Qed.

(** Matching [l ++ extra] against [l] yields one [equal] block for [l]
    and one [delete] block for [extra], where these are not empty. *)
Lemma get_opcodes_suffix :
  get_opcodes (l ++ extra) l
  = (if Nat.eqb (length l) 0 then []
     else [(tag_equal, 0, length l, 0, length l)])
    ++ (if Nat.eqb (length extra) 0 then []
        else [(tag_delete, length l, length (l ++ extra),
                length l, length l)]).
Proof.
  unfold get_opcodes. rewrite get_matching_blocks_suffix.
  rewrite length_app.
  destruct (Nat.eqb_spec (length l) 0) as [Hn|Hn].
  - rewrite Hn. cbn [opcodes_from Nat.add Nat.eqb app].
    rewrite Nat.ltb_irrefl, andb_false_r.
    destruct (Nat.eqb_spec (length extra) 0) as [He|He].
    + rewrite He. done.
    + assert (Nat.ltb 0 (length extra) = true) as ->
        by (apply Nat.ltb_lt; lia).
      done.
  - cbn [opcodes_from Nat.add]. rewrite !Nat.ltb_irrefl.
    assert (Nat.eqb (length l) 0 = false) as -> by by apply Nat.eqb_neq.
    cbn [andb app Nat.eqb]. rewrite andb_false_r.
    destruct (Nat.eqb_spec (length extra) 0) as [He|He].
    + rewrite He, Nat.add_0_r, Nat.ltb_irrefl. done.
    + assert (Nat.ltb (length l) (length l + length extra) = true) as ->
        by (apply Nat.ltb_lt; lia).
      done.
Qed.

End suffix_opcodes.

Section removed_rows.
Import pd perturb replay transform_spec.
Variable to_csv : DataFrame -> string.
Variable read_csv : string -> result DataFrame.

(** X19 (last rows removed): when the lines of the recovered table's
    text below the header are those of the perturbed table without its
    last ones, the inferrer accumulates for deletion exactly the
    positions of these last lines, in ascending order, and no
    overwrite; the spec it returns is nevertheless empty. *)
Theorem removed_last_rows_found_and_lost (df df_recovered : DataFrame)
    (header header' : string) (body extra : list string) :
  str_lines to_csv df = header :: body ++ extra ->
  str_lines to_csv df_recovered = header' :: body ->
  delete_rows_and_overwrite_cells to_csv read_csv df df_recovered
  = Ok (map Z.of_nat (seq (length body) (length extra)), [])
  /\ generate_transform_spec_delete_overwrite to_csv read_csv
       df df_recovered
     = Ok {| drop_rows := []; overwrite_cells := [] |}.
Proof.
  intros Hdf Hrec.
  assert (Hacc : delete_rows_and_overwrite_cells to_csv read_csv
                   df df_recovered
                 = Ok (map Z.of_nat (seq (length body) (length extra)),
                       [])).
  { unfold delete_rows_and_overwrite_cells. rewrite Hdf, Hrec.
    cbn [py.getitem lookup list_lookup mbind result_bind].
    change (py.tail_from_1 (header :: body ++ extra)) with (body ++ extra).
    change (py.tail_from_1 (header' :: body)) with body.
    rewrite get_opcodes_suffix.
    assert (Hrange : py.range (length body) (length (body ++ extra))
                     = seq (length body) (length extra)).
    { unfold py.range. rewrite length_app. f_equal. lia. }
    destruct (Nat.eqb (length body) 0);
      destruct (Nat.eqb_spec (length extra) 0) as [He|He];
      cbn [app for_each visit_opcode mbind result_bind];
      rewrite ?Hrange, ?He; done. }
  split; [done|]. rewrite generate_eq, Hacc. done.
Qed.

End removed_rows.

Section removed_rows_witness.
Import pd perturb replay transform_spec.

Lemma removed_last_rows_found_and_lost_witness :
  delete_rows_and_overwrite_cells pd_io.to_csv pd_io.read_csv
    scenario.S (scenario.table [["a"; "1"]]%string)
  = Ok (map Z.of_nat (seq 1 2), [])
  /\ generate_transform_spec_delete_overwrite pd_io.to_csv pd_io.read_csv
       scenario.S (scenario.table [["a"; "1"]]%string)
     = Ok {| drop_rows := []; overwrite_cells := [] |}.
Proof.
  apply (removed_last_rows_found_and_lost pd_io.to_csv pd_io.read_csv
           scenario.S (scenario.table [["a"; "1"]]%string)
           "name,value" "name,value" ["a,1"] ["b,2"; "c,3"])%string;
    by vm_compute.
Defined.

End removed_rows_witness.
